(** * Verification of the LegalMCP server (src/index.ts, src/api-client.ts)

    A shallow embedding of the TypeScript sources and the proofs of the
    properties stated in the specification.

    Conventions of the model.
    - A JavaScript string is a [string]; one [ascii] stands for one UTF-16
      code unit below 256 (the em dash produced by [stripHtml], which has no
      such code unit, is the single placeholder unit [emdash]).
    - A JavaScript number is the rational [Q] it denotes (an integer-valued
      one is a [Z] or a [nat] where the source only counts or indexes).
      The relevance scores and the cache timeouts, which the source
      computes from numbers that need not be integers, are rounded to the
      binary64 format by [double] at every operation, as in JavaScript;
      the confidence of the classifier and the positions of
      findSentenceBoundary are computed exactly.
    - Regular expressions are parsed from their source text by [re] and run
      by a backtracking matcher that follows the ECMAScript semantics of the
      constructs the sources use.
    - Asynchronous code is run sequentially against an explicit [world]:
      clock, cache, upstream answers, and a log of the pauses taken. *)

From Stdlib Require Import String Ascii List ZArith QArith Qround Qminmax Lia Lqa Bool Sorted Permutation.
From stdpp Require Import gmap strings.

Open Scope string_scope.
Open Scope list_scope.

(** ** JavaScript strings *)

Module Js.

Definition code (c : ascii) : N := N_of_ascii c.
Definition chr (n : N) : ascii := ascii_of_N n.

Definition in_range (lo hi : N) (c : ascii) : bool :=
  ((lo <=? code c) && (code c <=? hi))%N.

Definition is_digit (c : ascii) : bool := in_range 48 57 c.
Definition is_upper (c : ascii) : bool := in_range 65 90 c.
Definition is_lower (c : ascii) : bool := in_range 97 122 c.
(* WhiteSpace and LineTerminator code units below 256 *)
Definition is_space (c : ascii) : bool :=
  in_range 9 13 c || (code c =? 32)%N || (code c =? 160)%N.
Definition is_word (c : ascii) : bool :=
  is_digit c || is_upper c || is_lower c || (code c =? 95)%N.

(* String.prototype.toLowerCase / toUpperCase, one code unit at a time:
   the ASCII letters and the Latin-1 letters whose other case is again a
   single code unit below 256. *)
Definition lower_char (c : ascii) : ascii :=
  if is_upper c || (in_range 192 222 c && negb (code c =? 215)%N)
  then chr (code c + 32) else c.
Definition upper_char (c : ascii) : ascii :=
  if is_lower c || (in_range 224 254 c && negb (code c =? 247)%N)
  then chr (code c - 32) else c.

Fixpoint map_chars (f : ascii -> ascii) (s : string) : string :=
  match s with
  | EmptyString => EmptyString
  | String c s' => String (f c) (map_chars f s')
  end.

Definition toLowerCase : string -> string := map_chars lower_char.
Definition toUpperCase : string -> string := map_chars upper_char.

Fixpoint take_chars (n : nat) (s : string) : string :=
  match n, s with
  | S n', String c s' => String c (take_chars n' s')
  | _, _ => EmptyString
  end.

Fixpoint drop_chars (n : nat) (s : string) : string :=
  match n, s with
  | S n', String _ s' => drop_chars n' s'
  | _, _ => s
  end.

(* ToIntegerOrInfinity followed by the clamp to [0, length] that substring
   and slice apply to a non-negative index *)
Definition index_of_number (x : Q) : nat := Z.to_nat (Qfloor x).

(* String.prototype.substring(a, b) on indices already clamped below by 0 *)
Definition substring (a b : nat) (s : string) : string :=
  let a' := Nat.min a (String.length s) in
  let b' := Nat.min b (String.length s) in
  take_chars (Nat.max a' b' - Nat.min a' b') (drop_chars (Nat.min a' b') s).

(* substring(a) *)
Definition substring_from (a : nat) (s : string) : string := drop_chars a s.

Fixpoint starts_with (p s : string) : bool :=
  match p, s with
  | EmptyString, _ => true
  | String a p', String b s' => Ascii.eqb a b && starts_with p' s'
  | String _ _, EmptyString => false
  end.

(* String.prototype.includes *)
Fixpoint includes (s p : string) : bool :=
  starts_with p s ||
  match s with
  | EmptyString => false
  | String _ s' => includes s' p
  end.

Fixpoint drop_while (f : ascii -> bool) (s : string) : string :=
  match s with
  | String c s' => if f c then drop_while f s' else s
  | EmptyString => EmptyString
  end.

Fixpoint rev_onto (s acc : string) : string :=
  match s with
  | EmptyString => acc
  | String c s' => rev_onto s' (String c acc)
  end.

Definition reverse (s : string) : string := rev_onto s EmptyString.

(* String.prototype.trim *)
Definition trim (s : string) : string :=
  reverse (drop_while is_space (reverse (drop_while is_space s))).

(* Array.prototype.join *)
Fixpoint join (sep : string) (l : list string) : string :=
  match l with
  | [] => ""
  | [x] => x
  | x :: l' => x +:+ sep +:+ join sep l'
  end.

(* String.prototype.split with a non-empty literal separator *)
Fixpoint split_on_fuel (fuel : nat) (sep cur s : string) : list string :=
  match fuel with
  | O => [reverse cur +:+ s]
  | S fuel' =>
    match s with
    | EmptyString => [reverse cur]
    | String c s' =>
      if starts_with sep s
      then reverse cur :: split_on_fuel fuel' sep "" (drop_chars (String.length sep) s)
      else split_on_fuel fuel' sep (String c cur) s'
    end
  end.

Definition split_on (sep s : string) : list string :=
  split_on_fuel (S (String.length s)) sep "" s.

(* Number.prototype.toString of an integer *)
Fixpoint digits_fuel (fuel : nat) (n : N) (acc : string) : string :=
  match fuel with
  | O => acc
  | S fuel' =>
    let acc' := String (chr (48 + n mod 10)) acc in
    if (n <? 10)%N then acc' else digits_fuel fuel' (n / 10) acc'
  end.

Definition string_of_N (n : N) : string := digits_fuel (S (N.to_nat (N.log2 n))) n "".

Definition string_of_Z (z : Z) : string :=
  match z with
  | Zneg p => "-" +:+ string_of_N (Npos p)
  | _ => string_of_N (Z.to_N z)
  end.

Definition string_of_nat (n : nat) : string := string_of_N (N.of_nat n).

(* parseInt(s) without a radix: leading white space, an optional sign,
   then the digits, decimal ones or, after the prefix 0x or 0X,
   hexadecimal ones; [None] is NaN. *)
Fixpoint digits_value (s : string) (acc : Z) : Z :=
  match s with
  | String c s' =>
    if is_digit c then digits_value s' (10 * acc + Z.of_N (code c - 48)) else acc
  | EmptyString => acc
  end.

Definition hex_digit (c : ascii) : option Z :=
  if is_digit c then Some (Z.of_N (code c - 48))
  else if in_range 65 70 c then Some (Z.of_N (code c - 55))
  else if in_range 97 102 c then Some (Z.of_N (code c - 87))
  else None.

Fixpoint hex_digits_value (s : string) (acc : Z) : Z :=
  match s with
  | String c s' =>
    match hex_digit c with
    | Some d => hex_digits_value s' (16 * acc + d)
    | None => acc
    end
  | EmptyString => acc
  end.

(* the digits after the sign *)
Definition unsigned_value (ds : string) : option Z :=
  match ds with
  | String "0" (String x hs) =>
    if Ascii.eqb x "x" || Ascii.eqb x "X"
    then match hs with
         | String h _ =>
           match hex_digit h with
           | Some _ => Some (hex_digits_value hs 0)
           | None => None
           end
         | EmptyString => None
         end
    else Some (digits_value ds 0)
  | String c _ => if is_digit c then Some (digits_value ds 0) else None
  | EmptyString => None
  end%Z.

Definition parseInt (s : string) : option Z :=
  match drop_while is_space s with
  | String "-" ds =>
    match unsigned_value ds with
    | Some n => Some (- n)%Z
    | None => None
    end
  | String "+" ds => unsigned_value ds
  | ds => unsigned_value ds
  end.

(* De-duplication by [...new Set(l)]: first occurrences, in order *)
Fixpoint dedup_acc (seen : list string) (l : list string) : list string :=
  match l with
  | [] => []
  | x :: l' =>
    if existsb (String.eqb x) seen then dedup_acc seen l'
    else x :: dedup_acc (x :: seen) l'
  end.

Definition unique (l : list string) : list string := dedup_acc [] l.

(* The double quote, which cannot be written inside a literal here *)
Definition dq : string := String (chr 34) "".
Definition nl : string := String (chr 10) "".
(* Stand-in for U+2014 *)
Definition emdash : string := String (chr 151) "".

(* Arithmetic on numbers.  [double x] is the binary64 number nearest to
   [x], ties to even: what a decimal literal denotes and what an
   arithmetic operation returns (the subnormal range and overflow, which
   the numbers of this program do not reach, are left out). *)

(* n / d rounded to the nearest integer, ties to even; d > 0 *)
Definition round_half_even (n d : Z) : Z :=
  (let q := n / d in
   let r := n mod d in
   if 2 * r <? d then q
   else if d <? 2 * r then q + 1
   else if Z.even q then q else q + 1)%Z.

(* 2^e <= n / d, for n, d > 0 *)
Definition at_least_pow2 (n d e : Z) : bool :=
  (if 0 <=? e then d * 2 ^ e <=? n else d <=? n * 2 ^ (- e))%Z.

Definition double (x : Q) : Q :=
  match Qnum x with
  | Z0 => 0%Q
  | _ =>
    (let n := Z.abs (Qnum x) in
     let d := Zpos (Qden x) in
     let e0 := Z.log2 n - Z.log2 d in
     (* the exponent: 2^e <= |x| < 2^(e+1) *)
     let e := if at_least_pow2 n d e0 then e0 else e0 - 1 in
     (* the significand, an integer of 53 bits *)
     let m :=
       if e <=? 52 then round_half_even (n * 2 ^ (52 - e)) d
       else round_half_even n (d * 2 ^ (e - 52)) in
     let s := Z.sgn (Qnum x) * m in
     if e <=? 52 then Qmake s (Z.to_pos (2 ^ (52 - e)))
     else inject_Z (s * 2 ^ (e - 52)))%Z
  end.

(* a * b, a + b and a / b *)
Definition dmul (a b : Q) : Q := double (a * b).
Definition dadd (a b : Q) : Q := double (a + b).
Definition ddiv (a b : Q) : Q := double (a / b).

End Js.

(** ** Regular expressions *)

Module Regex.

Local Open Scope nat_scope.

(* Character sets *)
Inductive cset : Type :=
| CChar (c : ascii)
| CRange (lo hi : ascii)
| CDigit
| CSpace
| CWord
| CUnion (a b : cset)
| CNeg (a : cset)
| CFold (a : cset)
| CNone.

Inductive regex : Type :=
| Eps
| Chr (cs : cset)
| Seq (a b : regex)
| Alt (a b : regex)
| Rep (lo : nat) (hi : option nat) (a : regex)
| Group (n : nat) (a : regex)
| Bol
| Eol
| WordB
| Look (a : regex).

Fixpoint cset_mem (cs : cset) (c : ascii) : bool :=
  match cs with
  | CChar d => Ascii.eqb c d
  | CRange lo hi => Js.in_range (Js.code lo) (Js.code hi) c
  | CDigit => Js.is_digit c
  | CSpace => Js.is_space c
  | CWord => Js.is_word c
  | CUnion a b => cset_mem a c || cset_mem b c
  | CNeg a => negb (cset_mem a c)
  (* the i flag: some member of the set has the same canonical form *)
  | CFold a =>
    cset_mem a c ||
    (if Js.is_lower c then cset_mem a (Js.upper_char c) else false) ||
    (if Js.is_upper c then cset_mem a (Js.lower_char c) else false)
  | CNone => false
  end.

(* A position in the subject: the index, the code unit before it, the
   text from it on, and the captures made so far as (group, start, end). *)
Record mstate : Type := MState {
  pos : nat;
  prev : option ascii;
  rest : string;
  caps : list (nat * (nat * nat))
}.

Definition start_state (s : string) : mstate := MState 0 None s [].

Definition advance (c : ascii) (s' : string) (st : mstate) : mstate :=
  MState (S (pos st)) (Some c) s' (caps st).

Definition set_cap (n from : nat) (st : mstate) : mstate :=
  MState (pos st) (prev st) (rest st) ((n, (from, pos st)) :: caps st).

Definition word_before (st : mstate) : bool :=
  match prev st with Some c => Js.is_word c | None => false end.
Definition word_after (st : mstate) : bool :=
  match rest st with String c _ => Js.is_word c | EmptyString => false end.

Definition below (n : nat) (hi : option nat) : bool :=
  match hi with Some h => n <? h | None => true end.

(* The iterations of a quantified atom, [step] being the matcher of the
   atom: greedy, at most [hi] of them, and once [lo] are done an iteration
   that consumes nothing is refused.  [fuel] bounds the iterations. *)
Fixpoint rep_loop (step : (mstate -> option mstate) -> mstate -> option mstate)
  (lo : nat) (hi : option nat) (k : mstate -> option mstate)
  (fuel n : nat) (st : mstate) {struct fuel} : option mstate :=
  match fuel with
  | O => None
  | S fuel' =>
    match
      (if below n hi
       then step (fun st' =>
                    if (pos st <? pos st') || (n <? lo)
                    then rep_loop step lo hi k fuel' (S n) st' else None) st
       else None)
    with
    | Some e => Some e
    | None => if lo <=? n then k st else None
    end
  end.

(* The backtracking matcher, in continuation-passing style: [run r k st]
   matches [r] at [st] and hands every way of doing so to [k], in priority
   order, until [k] accepts. *)
Fixpoint run (r : regex) (k : mstate -> option mstate) (st : mstate)
  : option mstate :=
  match r with
  | Eps => k st
  | Chr cs =>
    match rest st with
    | String c s' => if cset_mem cs c then k (advance c s' st) else None
    | EmptyString => None
    end
  | Seq a b => run a (run b k) st
  | Alt a b =>
    match run a k st with
    | Some e => Some e
    | None => run b k st
    end
  | Rep lo hi a => rep_loop (run a) lo hi k (S (lo + String.length (rest st))) 0 st
  | Group n a => run a (fun st' => k (set_cap n (pos st) st')) st
  | Bol => if pos st =? 0 then k st else None
  | Eol => match rest st with EmptyString => k st | _ => None end
  | WordB => if xorb (word_before st) (word_after st) then k st else None
  | Look a =>
    match run a Some st with
    | Some _ => k st
    | None => None
    end
  end.

Definition match_here (r : regex) (st : mstate) : option mstate := run r Some st.

(* Leftmost match at or after [st]: the state where it starts and the
   state where it ends *)
Fixpoint search_in (r : regex) (s : string) (p : nat) (pv : option ascii)
  : option (mstate * mstate) :=
  let st := MState p pv s [] in
  match match_here r st with
  | Some e => Some (st, e)
  | None =>
    match s with
    | String c s' => search_in r s' (S p) (Some c)
    | EmptyString => None
    end
  end.

Definition search (r : regex) (s : string) : option (mstate * mstate) :=
  search_in r s 0 None.

(* RegExp.prototype.test of a regular expression without the g flag *)
Definition test (r : regex) (s : string) : bool :=
  match search r s with Some _ => true | None => false end.

(* The text of capture group [n] in a match of subject [s] *)
Fixpoint find_cap (n : nat) (l : list (nat * (nat * nat))) : option (nat * nat) :=
  match l with
  | [] => None
  | (m, se) :: l' => if n =? m then Some se else find_cap n l'
  end.

Definition group (s : string) (e : mstate) (n : nat) : option string :=
  match find_cap n (caps e) with
  | Some (a, b) => Some (Js.substring a b s)
  | None => None
  end.

(* String.prototype.match of a regular expression without the g flag:
   the index of the match, its text, and the end state for the groups *)
Definition exec (r : regex) (s : string) : option (nat * string * mstate) :=
  match search r s with
  | Some (b, e) => Some (pos b, Js.substring (pos b) (pos e) s, e)
  | None => None
  end.

(* All the matches that a [while ((m = re.exec(s)) !== null)] loop of a
   g-flagged expression visits: each search resumes where the last match
   ended. (A match of length 0 would make that loop spin; the expressions
   of this program consume at least one code unit.) *)
Fixpoint matches_from (fuel : nat) (r : regex) (s : string) (p : nat)
  (pv : option ascii) : list (mstate * mstate) :=
  match fuel with
  | O => []
  | S fuel' =>
    match search_in r s p pv with
    | None => []
    | Some (b, e) =>
      if pos e <=? pos b then [(b, e)]
      else (b, e) :: matches_from fuel' r (rest e) (pos e) (prev e)
    end
  end.

Definition matches (r : regex) (s : string) : list (mstate * mstate) :=
  matches_from (S (String.length s)) r s 0 None.

(* String.prototype.replace with a g-flagged expression and a fixed
   replacement text (no $-patterns) *)
Fixpoint replace_from (fuel : nat) (r : regex) (by_ : string) (s : string)
  (p : nat) (pv : option ascii) : string :=
  match fuel with
  | O => s
  | S fuel' =>
    match match_here r (MState p pv s []) with
    | Some e =>
      if pos e <=? p
      then match s with
           | String c s' => by_ +:+ String c (replace_from fuel' r by_ s' (S p) (Some c))
           | EmptyString => by_
           end
      else by_ +:+ replace_from fuel' r by_ (rest e) (pos e) (prev e)
    | None =>
      match s with
      | String c s' => String c (replace_from fuel' r by_ s' (S p) (Some c))
      | EmptyString => EmptyString
      end
    end
  end.

Definition replace_all (r : regex) (by_ : string) (s : string) : string :=
  replace_from (S (String.length s)) r by_ s 0 None.

(* String.prototype.split with a regular expression: [p0] is the index
   where the current piece started; a match that ends there is skipped,
   and no match is tried at the very end of the subject *)
Fixpoint split_from (fuel : nat) (r : regex) (p0 : nat) (cur : string)
  (s : string) (p : nat) (pv : option ascii) : list string :=
  match fuel with
  | O => [Js.reverse cur +:+ s]
  | S fuel' =>
    match s with
    | EmptyString => [Js.reverse cur]
    | String c s' =>
      match match_here r (MState p pv s []) with
      | Some e =>
        if pos e =? p0
        then split_from fuel' r p0 (String c cur) s' (S p) (Some c)
        else Js.reverse cur :: split_from fuel' r (pos e) "" (rest e) (pos e) (prev e)
      | None => split_from fuel' r p0 (String c cur) s' (S p) (Some c)
      end
    end
  end.

Definition split (r : regex) (s : string) : list string :=
  match s with
  | EmptyString => if test r "" then [] else [""]
  | _ => split_from (2 * String.length s + 2) r 0 "" s 0 None
  end.

End Regex.

(** ** Reading a regular expression from its source text

    [re] and [re_i] read the body of a JavaScript regular-expression
    literal (without and with the [i] flag), so that the expressions of
    the program appear below as they do in the source.  A double quote is
    written [\x22] and the pilcrow [\xB6]. *)

Module Pattern.
Import Regex.

Local Open Scope nat_scope.

Definition lit (ci : bool) (c : ascii) : cset :=
  if ci && (Js.is_lower c || Js.is_upper c) then CFold (CChar c) else CChar c.

Definition hex_value (c : ascii) : option N :=
  if Js.is_digit c then Some (Js.code c - 48)%N
  else if Js.in_range 65 70 c then Some (Js.code c - 55)%N
  else if Js.in_range 97 102 c then Some (Js.code c - 87)%N
  else None.

(* What follows a backslash, as a character set *)
Definition escape_set (s : string) : option (cset * string) :=
  match s with
  | String "d" s' => Some (CDigit, s')
  | String "s" s' => Some (CSpace, s')
  | String "w" s' => Some (CWord, s')
  | String "n" s' => Some (CChar (Js.chr 10), s')
  | String "t" s' => Some (CChar (Js.chr 9), s')
  | String "r" s' => Some (CChar (Js.chr 13), s')
  | String "x" (String h (String l s')) =>
    match hex_value h, hex_value l with
    | Some a, Some b => Some (CChar (Js.chr (16 * a + b)), s')
    | _, _ => None
    end
  | String c s' => Some (CChar c, s')
  | EmptyString => None
  end.

Definition class_atom (s : string) : option (cset * string) :=
  match s with
  | String "\" s' => escape_set s'
  | String c s' => Some (CChar c, s')
  | EmptyString => None
  end.

(* The members of a bracketed class up to the closing bracket *)
Fixpoint class_items (fuel : nat) (s : string) (acc : cset) : option (cset * string) :=
  match fuel with
  | O => None
  | S fuel' =>
    match s with
    | String "]" s' => Some (acc, s')
    | _ =>
      match class_atom s with
      | Some (CChar lo, String "-" (String c s2 as s1)) =>
        if Ascii.eqb c "]" then class_items fuel' (String "-" s1) (CUnion acc (CChar lo))
        else match class_atom s1 with
             | Some (CChar hi, s3) => class_items fuel' s3 (CUnion acc (CRange lo hi))
             | _ => None
             end
      | Some (a, s1) => class_items fuel' s1 (CUnion acc a)
      | None => None
      end
    end
  end.

Definition class (ci : bool) (s : string) : option (cset * string) :=
  match s with
  | String "^" s' =>
    match class_items (S (String.length s')) s' CNone with
    | Some (cs, s2) => Some (CNeg (if ci then CFold cs else cs), s2)
    | None => None
    end
  | _ =>
    match class_items (S (String.length s)) s CNone with
    | Some (cs, s2) => Some (if ci then CFold cs else cs, s2)
    | None => None
    end
  end.

Fixpoint number (s : string) (acc : nat) : nat * string :=
  match s with
  | String c s' =>
    if Js.is_digit c then number s' (10 * acc + N.to_nat (Js.code c - 48)) else (acc, s)
  | EmptyString => (acc, s)
  end.

(* A quantifier after an atom, if there is one *)
Definition quantified (a : regex) (s : string) : option (regex * string) :=
  match s with
  | String "*" s' => Some (Rep 0 None a, s')
  | String "+" s' => Some (Rep 1 None a, s')
  | String "?" s' => Some (Rep 0 (Some 1) a, s')
  | String "{" s' =>
    match number s' 0 with
    | (lo, String "}" s2) => Some (Rep lo (Some lo) a, s2)
    | (lo, String "," (String "}" s2)) => Some (Rep lo None a, s2)
    | (lo, String "," s2) =>
      match number s2 0 with
      | (hi, String "}" s3) => Some (Rep lo (Some hi) a, s3)
      | _ => None
      end
    | _ => None
    end
  | _ => Some (a, s)
  end.

(* Disjunction, sequence and atom of the grammar; [g] is the number of
   the next capture group *)
Fixpoint disjunction (fuel : nat) (ci : bool) (s : string) (g : nat)
  : option (regex * string * nat) :=
  match fuel with
  | O => None
  | S fuel' =>
    match sequence fuel' ci s g with
    | Some (a, String "|" s', g') =>
      match disjunction fuel' ci s' g' with
      | Some (b, s2, g2) => Some (Alt a b, s2, g2)
      | None => None
      end
    | other => other
    end
  end
with sequence (fuel : nat) (ci : bool) (s : string) (g : nat)
  : option (regex * string * nat) :=
  match fuel with
  | O => None
  | S fuel' =>
    match s with
    | EmptyString | String "|" _ | String ")" _ => Some (Eps, s, g)
    | _ =>
      match atom fuel' ci s g with
      | Some (a, s1, g1) =>
        match quantified a s1 with
        | Some (t, s2) =>
          match sequence fuel' ci s2 g1 with
          | Some (r, s3, g3) => Some (Seq t r, s3, g3)
          | None => None
          end
        | None => None
        end
      | None => None
      end
    end
  end
with atom (fuel : nat) (ci : bool) (s : string) (g : nat)
  : option (regex * string * nat) :=
  match fuel with
  | O => None
  | S fuel' =>
    match s with
    | String "(" (String "?" (String ":" s')) =>
      match disjunction fuel' ci s' g with
      | Some (a, String ")" s2, g2) => Some (a, s2, g2)
      | _ => None
      end
    | String "(" (String "?" (String "=" s')) =>
      match disjunction fuel' ci s' g with
      | Some (a, String ")" s2, g2) => Some (Look a, s2, g2)
      | _ => None
      end
    | String "(" s' =>
      match disjunction fuel' ci s' (S g) with
      | Some (a, String ")" s2, g2) => Some (Group g a, s2, g2)
      | _ => None
      end
    | String "[" s' =>
      match class ci s' with
      | Some (cs, s2) => Some (Chr cs, s2, g)
      | None => None
      end
    | String "^" s' => Some (Bol, s', g)
    | String "$" s' => Some (Eol, s', g)
    | String "\" (String "b" s') => Some (WordB, s', g)
    | String "\" s' =>
      match escape_set s' with
      | Some (CChar c, s2) => Some (Chr (lit ci c), s2, g)
      | Some (cs, s2) => Some (Chr cs, s2, g)
      | None => None
      end
    | String c s' => Some (Chr (lit ci c), s', g)
    | EmptyString => None
    end
  end.

Definition parse (ci : bool) (src : string) : option regex :=
  match disjunction (3 * String.length src + 3) ci src 1 with
  | Some (r, EmptyString, _) => Some r
  | _ => None
  end.

(* An expression that failed to parse matches nothing; the lemmas
   [*_parsed] below record that every expression of the program parses. *)
Definition of_source (ci : bool) (src : string) : regex :=
  match parse ci src with Some r => r | None => Chr CNone end.

Definition re (src : string) : regex := of_source false src.
Definition re_i (src : string) : regex := of_source true src.

End Pattern.

(** * The program: src/index.ts *)

Import Js.
Import Regex.
Import Pattern.

Local Open Scope Z_scope.

(** ** Search results as the upstream API delivers them *)

(* doctype: string | number *)
Inductive doctype_t : Type :=
| DocStr (s : string)
| DocNum (n : Z).

Record SearchResult : Type := mkSearchResult {
  tid : Z;
  title : string;
  doctype : doctype_t;
  publishdate : option string;
  headline : option string;
  numcites : option Q;
  numcitedby : option Q;
  docsource : option string;
  author : option string;
  citation : option string;
  caseno : option string;
  relurl : option string
}.

(* [x || d] on an optional string: undefined and the empty string are falsy *)
Definition str_or (x : option string) (d : string) : string :=
  match x with
  | Some EmptyString | None => d
  | Some s => s
  end.

(* [x || 0] on an optional number *)
Definition num_or (x : option Q) (d : Q) : Q :=
  match x with
  | Some q => if Qeq_bool q 0 then d else q
  | None => d
  end.

Definition nonempty (s : string) : bool :=
  match s with EmptyString => false | _ => true end.

(** ** Section validation *)

Record section_range : Type := { min : Z; max : Z }.

Definition VALID_IPC_SECTIONS : section_range := {| min := 1; max := 511 |}.
Definition VALID_BNS_SECTIONS : section_range := {| min := 1; max := 358 |}.
Definition VALID_CRPC_SECTIONS : section_range := {| min := 1; max := 484 |}.

Record section_validation : Type := {
  isValid : bool;
  suggestion : option string;
  nearestValid : option (list string)
}.

Definition commonMistakes : list (string * list string) :=
  [ ("823", ["323"; "423"]);
    ("523", ["323"; "423"]);
    ("325", ["323"; "324"; "326"]);
    ("121", ["120"; "120A"; "120B"]);
    ("412", ["411"; "413"; "414"]);
    ("299", ["299"; "300"; "302"]);
    ("380", ["379"; "381"; "382"]) ].

Fixpoint lookup_table {A : Type} (k : string) (t : list (string * A)) : option A :=
  match t with
  | [] => None
  | (k', v) :: t' => if String.eqb k k' then Some v else lookup_table k t'
  end.

Definition in_section_range (r : section_range) (n : Z) : bool :=
  (min r <=? n) && (n <=? max r).

Definition range_of_code (codeType : string) : section_range :=
  if String.eqb codeType "BNS" then VALID_BNS_SECTIONS
  else if String.eqb codeType "CrPC" then VALID_CRPC_SECTIONS
  else VALID_IPC_SECTIONS.

Definition validateSection (sectionNum codeType : string) : section_validation :=
  match exec (re "^(\d+)([A-Z])?$") sectionNum with
  | None =>
    {| isValid := false; suggestion := Some "Invalid section format";
       nearestValid := None |}
  | Some (_, _, e) =>
    let range := range_of_code codeType in
    let invalid l :=
      {| isValid := false;
         suggestion := Some ("Section " +:+ sectionNum +:+ " appears invalid for " +:+ codeType);
         nearestValid := Some (firstn 5 (unique l)) |} in
    match parseInt (str_or (group sectionNum e 1) "") with
    | None => invalid []
    | Some num =>
      if in_section_range range num
      then {| isValid := true; suggestion := None; nearestValid := None |}
      else
        let known :=
          match lookup_table (string_of_Z num) commonMistakes with
          | Some l => l
          | None => []
          end in
        let withoutFirst := substring_from 1 (string_of_Z num) in
        let stripped :=
          if (max range <? num) && (100 <? num) && (0 <? String.length withoutFirst)%nat
          then match parseInt withoutFirst with
               | Some suggested =>
                 if in_section_range range suggested then [withoutFirst] else []
               | None => []
               end
          else [] in
        let nearby :=
          flat_map (fun offset =>
                      if in_section_range range (num + offset)
                      then [string_of_Z (num + offset)] else [])
                   [-1; 1; -2; 2; -10; 10] in
        invalid (known ++ stripped ++ nearby)
    end
  end.

(** ** Query preprocessing *)

Record validated_section : Type := {
  original : string;
  validated : string;
  vs_isValid : bool;
  suggestions : option (list string)
}.

Record ProcessedQuery : Type := {
  originalQuery : string;
  normalizedQuery : string;
  extractedSections : list string;
  validatedSections : list validated_section;
  legalConcepts : list string;
  searchVariants : list string
}.

Definition sectionPatterns : list regex :=
  [ re_i "\bsections?\s+(\d+[A-Z]?(?:\s*,\s*\d+[A-Z]?)*)";
    re_i "\bu\/s\s+(\d+[A-Z]?(?:\s*,\s*\d+[A-Z]?)*)";
    re_i "\bsec\.?\s+(\d+[A-Z]?)";
    re_i "\b(\d{3}[A-Z]?)\s+(?:IPC|BNS|CrPC)" ].

Definition conceptPatterns : list regex :=
  [ re_i "\b(bail|quashing|compromise|arrest|conviction|acquittal|sentence)\b";
    re_i "\b(prima facie|mens rea|actus reus|mala fide|bona fide)\b";
    re_i "\b(common intention|criminal conspiracy|abetment)\b" ].

(* The first capture group of every match of [r] in [s], in order *)
Definition first_groups (r : regex) (s : string) : list string :=
  List.map (fun be => str_or (group s (snd be) 1) "") (matches r s).

Definition detect_code (query : string) : string :=
  if includes (toLowerCase query) "bns" then "BNS"
  else if includes (toLowerCase query) "crpc" then "CrPC"
  else "IPC".

Definition sections_of_query (query : string) : list string :=
  flat_map (fun pattern =>
    flat_map (fun g => List.map trim (split (re "\s*,\s*") g))
             (first_groups pattern query))
    sectionPatterns.

Definition validate_extracted (codeType trimmed : string) : validated_section :=
  let validation := validateSection trimmed codeType in
  {| original := trimmed;
     validated :=
       if isValid validation then trimmed
       else match nearestValid validation with
            | Some (first :: _) => str_or (Some first) trimmed
            | _ => trimmed
            end;
     vs_isValid := isValid validation;
     suggestions := nearestValid validation |}.

Definition normalize (query : string) : string :=
  let n1 := replace_all (re_i "\bu\/s\b") "under Section" query in
  let n2 := replace_all (re_i "\br\/w\b") "read with" n1 in
  let n3 := replace_all (re_i "\bSec\.?\s+") "Section " n2 in
  trim (replace_all (re "\s+") " " n3).

Definition preprocessQuery (query : string) : ProcessedQuery :=
  let codeType := detect_code query in
  let sections := sections_of_query query in
  let concepts :=
    flat_map (fun pattern => List.map toLowerCase (first_groups pattern query))
             conceptPatterns in
  let normalized := normalize query in
  let sectionVariants :=
    match sections with
    | [] => []
    | s0 :: _ =>
      ([ join " " (List.map (fun s => dq +:+ "Section " +:+ s +:+ dq) sections);
        join " " (List.map (fun s => "Section " +:+ s +:+ " IPC") sections) ]
      ++ match concepts with
         | [] => []
         | c0 :: _ => [s0 +:+ " " +:+ c0]
         end)
    end in
  {| originalQuery := query;
     normalizedQuery := normalized;
     extractedSections := sections;
     validatedSections := List.map (validate_extracted codeType) sections;
     legalConcepts := concepts;
     searchVariants :=
       (sectionVariants ++ [normalized; replace_all (re "\s+") " ANDD " normalized]) |}.

(* the text of a document that queries are compared with *)
Definition docText (doc : SearchResult) : string :=
  toLowerCase (title doc +:+ " " +:+ str_or (headline doc) "").

Definition in_list (s : string) (l : list string) : bool := existsb (String.eqb s) l.

(* matches.length / total.length *)
Definition ratio (n d : nat) : Q := ddiv (inject_Z (Z.of_nat n)) (inject_Z (Z.of_nat d)).

(* score *= 1 + share * weight *)
Definition boosted (score share weight : Q) : Q :=
  dmul score (dadd 1 (dmul share (double weight))).

Definition calculateQueryRelevance (query : ProcessedQuery) (doc : SearchResult)
  (baseScore : Q) : Q :=
  let score0 := baseScore in
  let score1 :=
    match extractedSections query with
    | [] => score0
    | _ =>
      let sectionMatches :=
        List.filter (fun section =>
                  includes (docText doc) ("section " +:+ section) ||
                  includes (docText doc) (section +:+ " ipc") ||
                  includes (docText doc) ("sec. " +:+ section) ||
                  includes (docText doc) ("s. " +:+ section))
               (extractedSections query) in
      match sectionMatches with
      | [] => dmul score0 (double 0.5)
      | _ => boosted score0 (ratio (length sectionMatches) (length (extractedSections query))) 0.4
      end
    end in
  let score2 :=
    match legalConcepts query with
    | [] => score1
    | _ =>
      let conceptMatches :=
        List.filter (fun concept => includes (docText doc) concept) (legalConcepts query) in
      match conceptMatches with
      | [] => score1
      | _ => boosted score1 (ratio (length conceptMatches) (length (legalConcepts query))) 0.3
      end
    end in
  let queryWords :=
    List.filter (fun w => (3 <? String.length w)%nat && negb (in_list w ["under"; "section"; "with"]))
           (split (re "\s+") (toLowerCase (normalizedQuery query))) in
  match queryWords with
  | [] => score2
  | _ =>
    let wordMatches := List.filter (fun word => includes (docText doc) word) queryWords in
    boosted score2 (ratio (length wordMatches) (length queryWords)) 0.2
  end.

(* the query without its quoted phrases *)
Definition withoutQuotes (originalQuery : string) : string :=
  trim (replace_all (re "\x22[^\x22]*\x22") "" originalQuery).

Definition mainKeywords (originalQuery : string) : list string :=
  firstn 3
    (List.filter (fun w => (4 <? String.length w)%nat &&
                           negb (in_list (toLowerCase w) ["under"; "section"; "with"; "read"]))
                 (split (re "\s+") (replace_all (re "[^\w\s]") " " originalQuery))).

Definition generateAlternativeQueries (originalQuery : string) (processed : ProcessedQuery)
  : list string :=
  let sections := extractedSections processed in
  let concepts := legalConcepts processed in
  let a1 :=
    match sections with
    | [] => []
    | _ => [ join " " (List.map (fun s => "Section " +:+ s) sections);
             join " ORR " (List.map (fun s => dq +:+ "Section " +:+ s +:+ dq +:+ " IPC") sections) ]
    end in
  let a2 :=
    match concepts with
    | [] => []
    | c0 :: _ =>
      join " " concepts ::
      match sections with
      | [] => []
      | s0 :: _ => [c0 +:+ " " +:+ s0]
      end
    end in
  let a3 :=
    if negb (String.eqb (withoutQuotes originalQuery) originalQuery) &&
       (0 <? String.length (withoutQuotes originalQuery))%nat
    then [withoutQuotes originalQuery] else [] in
  let a4 :=
    match mainKeywords originalQuery with
    | [] => []
    | _ => [join " " (mainKeywords originalQuery)]
    end in
  let alternatives := a1 ++ a2 ++ a3 ++ a4 in
  let a5 :=
    match alternatives with
    | [] =>
      ((if includes (toLowerCase originalQuery) "bail"
        then ["bail application granted"; "anticipatory bail guidelines"] else [])
       ++ (if includes (toLowerCase originalQuery) "quash"
           then ["482 CrPC quashing"; "FIR quashing grounds"] else []))
    | _ => []
    end in
  firstn 5 (unique (alternatives ++ a5)).

Record failure_analysis : Type := {
  reason : string;
  fa_suggestions : list string;
  alternativeQueries : list string
}.

Definition analyzeSearchFailure (query : string) (processed : ProcessedQuery)
  : failure_analysis :=
  (* each step may overwrite the reason and appends its suggestions *)
  let step1 : string * list string :=
    if (10 <? length (split (re "\s+") query))%nat
    then ("Query may be too specific", ["Try using fewer words or just the key legal terms"])
    else ("", []) in
  let uncommonSections :=
    List.filter (fun s => match parseInt s with
                     | Some num => (511 <? num) || (num <? 1)
                     | None => false
                     end)
           (extractedSections processed) in
  let step2 : string * list string :=
    match uncommonSections with
    | [] => step1
    | _ => ("Some section numbers appear invalid",
            (snd step1 ++ ["Verify the section numbers are correct";
                          "Try searching without section numbers"]))
    end in
  let step3 : string * list string :=
    if includes query "civil" && includes query "IPC"
    then ("Query mixes civil and criminal law terms",
          (snd step2 ++ ["IPC is for criminal cases - remove " +:+ dq +:+ "civil" +:+ dq +:+ " from query"]))
    else step2 in
  let step4 : string * list string :=
    if nonempty (fst step3) then step3
    else ("No exact matches found for your query",
          (snd step3 ++ ["Try broadening your search terms";
                        "Remove quotes to allow partial matches";
                        "Search for the general legal principle instead of specific facts"])) in
  {| reason := fst step4;
     fa_suggestions := snd step4;
     alternativeQueries := generateAlternativeQueries query processed |}.

(* formatError(error, context), on the message of the error *)
Definition formatError (errorMsg context : string) : string :=
  if includes errorMsg "401"
  then "Authentication failed: Please check your IndianKanoon API key in settings"
  else if includes errorMsg "429"
  then "Rate limit exceeded: Please wait a moment and try again"
  else if includes errorMsg "Network" || includes errorMsg "fetch"
  then "Network error: Please check your internet connection"
  else if includes errorMsg "timeout"
  then "Request timeout: The server took too long to respond. Try with fewer results"
  else "Error in " +:+ context +:+ ": " +:+ errorMsg +:+ nl ++
       "Suggestions: " +:+ nl ++
       "1. Verify your API key is valid" +:+ nl ++
       "2. Check if the document ID exists" +:+ nl ++
       "3. Try with different search terms".

(** ** Case numbers *)

(* The fields that extractCaseNumber reads from its argument *)
Record case_source : Type := {
  cs_caseno : option string;
  cs_relurl : option string;
  cs_title : option string;
  cs_tid : option Z
}.

Definition source_of_doc (doc : SearchResult) : case_source :=
  {| cs_caseno := caseno doc; cs_relurl := relurl doc;
     cs_title := Some (title doc); cs_tid := Some (tid doc) |}.

Fixpoint first_some {A B : Type} (f : A -> option B) (l : list A) : option B :=
  match l with
  | [] => None
  | x :: l' => match f x with Some y => Some y | None => first_some f l' end
  end.

Definition match_group1 (r : regex) (s : string) : option string :=
  match exec r s with
  | Some (_, _, e) => Some (str_or (group s e 1) "")
  | None => None
  end.

Definition case_number_of_relurl (url : string) : option string :=
  let lastPart := List.last (split_on "/" url) "" in
  if nonempty lastPart && test (re "[A-Z]") lastPart && negb (includes lastPart ".")
  then Some lastPart
  else match_group1 (re_i "([A-Z]+[\s\-]*\d+[\s\-]*(?:of|\/)?\s*\d{4})") url.

Definition case_number_of_title (t : string) : option string :=
  first_some (fun pattern => match_group1 pattern t)
    [ re_i "Case No[.\s:]*([A-Z]+[\s\-]*\d+[\s\-]*(?:of|\/)\s*\d{4})";
      re "\(([A-Z]+[\s\-]*\d+[\s\-]*(?:of|\/)\s*\d{4})\)";
      re_i "No[.\s:]*(\d+[\s\-]*(?:of|\/)\s*\d{4})" ].

(* [currentYear] is new Date().getFullYear() *)
Definition extractCaseNumber (currentYear : Z) (metadata : case_source) : string :=
  if nonempty (str_or (cs_caseno metadata) "") then str_or (cs_caseno metadata) ""
  else
    match (if nonempty (str_or (cs_relurl metadata) "")
           then case_number_of_relurl (str_or (cs_relurl metadata) "") else None) with
    | Some n => n
    | None =>
      match (if nonempty (str_or (cs_title metadata) "")
             then case_number_of_title (str_or (cs_title metadata) "") else None) with
      | Some n => n
      | None =>
        match cs_tid metadata with
        | Some t => string_of_Z t
        | None => "[No. " +:+ string_of_Z currentYear +:+ "]"
        end
      end
    end.

(** ** Sentence boundaries *)

Definition sentenceEndings : list regex :=
  [ re "\.\s+[A-Z]";
    re "\.\x22\s+";
    re "\.\)\s+";
    re "\?\s+";
    re "!\s+";
    re "\.\s*$" ].

Definition fallbackPatterns : list regex :=
  [ re ";\s+";
    re ":\s+";
    re "\n\n";
    re "\.\s*" ].

Definition Qnat (n : nat) : Q := inject_Z (Z.of_nat n).

Definition Qltb (a b : Q) : bool := negb (Qle_bool b a).

(* the indices at which a g-flagged expression matches, as exec reports them *)
Definition match_indices (r : regex) (s : string) : list nat :=
  List.map (fun be => pos (fst be)) (matches r s).

(* the inner while loop over the matches of one sentence-ending pattern *)
Definition scan_endings (base limit : Q) (best : Q) (indices : list nat) : Q :=
  fold_left (fun best index =>
               let position := (base + Qnat index + 1)%Q in
               if Qltb position limit && Qltb best position then position else best)
            indices best.

(* the same loop for a fallback pattern: it stops at the first match taken *)
Fixpoint scan_fallback (base limit : Q) (best : Q) (indices : list nat) : Q :=
  match indices with
  | [] => best
  | index :: rest =>
    let position := (base + Qnat index + 1)%Q in
    if Qltb position limit && Qltb best position then position
    else scan_fallback base limit best rest
  end.

Definition findSentenceBoundary (text : string) (startPos maxLength : Q) : Q :=
  if Qle_bool (Qnat (String.length text)) maxLength then Qnat (String.length text)
  else
    let minLength := Qmin 1000%Q (maxLength * 0.7)%Q in
    let searchText :=
      substring (index_of_number (startPos + minLength))
                (index_of_number (startPos + maxLength + 200)) text in
    let base := (startPos + minLength)%Q in
    let limit := (startPos + maxLength)%Q in
    let best1 :=
      fold_left (fun best pattern => scan_endings base limit best (match_indices pattern searchText))
                sentenceEndings (-1)%Q in
    let best2 :=
      if Qeq_bool best1 (-1)%Q
      then fold_left (fun best pattern => scan_fallback base limit best (match_indices pattern searchText))
                     fallbackPatterns best1
      else best1 in
    if Qltb 0%Q best2 then best2 else (startPos + maxLength)%Q.

(** ** Paragraph numbers and HTML *)

Definition extractRealParagraphNumber (htmlFragment : string) : option string :=
  match match_group1 (re "data-structure=\x22[^\x22]*\x22\s+id=\x22p_(\d+)\x22") htmlFragment with
  | Some n => Some n
  | None =>
  match match_group1 (re_i "(?:<p|<div)[^>]*\sid=\x22(?:p_|para_?)(\d+)\x22") htmlFragment with
  | Some n => Some n
  | None =>
  match match_group1 (re_i "<blockquote[^>]*\sid=\x22blockquote_(\d+)\x22") htmlFragment with
  | Some n => Some n
  | None =>
  match match_group1 (re "(?:^|\s)(\d+)\.\s*(?=[A-Z])") htmlFragment with
  | Some n => Some n
  | None =>
  match exec (re_i "\[(\d+)\]|\xB6\s*(\d+)|para(?:graph)?\s+(\d+)") htmlFragment with
  | Some (_, _, e) =>
    let g n := str_or (group htmlFragment e n) "" in
    Some (if nonempty (g 1%nat) then g 1%nat else if nonempty (g 2%nat) then g 2%nat else g 3%nat)
  | None => None
  end end end end end.

Definition entities : list (string * string) :=
  [ ("&nbsp;", " ");
    ("&amp;", "&");
    ("&lt;", "<");
    ("&gt;", ">");
    ("&quot;", dq);
    ("&#39;", "'");
    ("&rsquo;", "'");
    ("&lsquo;", "'");
    ("&rdquo;", dq);
    ("&ldquo;", dq);
    ("&ndash;", "-");
    ("&mdash;", emdash) ].

Definition stripHtml (html : string) (preserveStructure : bool) : string :=
  let paraNum := extractRealParagraphNumber html in
  let t1 := replace_all (re_i "<br\s*\/?>") nl html in
  let t2 := replace_all (re_i "<\/p>") (nl +:+ nl) t1 in
  let t3 := replace_all (re_i "<\/div>") nl t2 in
  let t4 := replace_all (re "<[^>]*>") "" t3 in
  let t5 := fold_left (fun text ec => replace_all (re (fst ec)) (snd ec) text) entities t4 in
  let t6 := replace_all (re "\n{3,}") (nl +:+ nl) t5 in
  let t7 := replace_all (re "[ \t]+") " " t6 in
  let t8 :=
    match paraNum with
    | Some n => if preserveStructure && nonempty n then "[Para " +:+ n +:+ "] " +:+ t7 else t7
    | None => t7
    end in
  trim t8.

Record paragraph : Type := {
  text : string;
  paragraphNumber : string;
  isComplete : bool
}.

(* The two branches of the loop of extractCompleteParagraphs on a cleaned
   text: the text returned and whether it is complete *)
Definition truncate (cleanText : string) (maxLength : Q) : string * bool :=
  if Qle_bool (Qnat (String.length cleanText)) maxLength
  then (cleanText, true)
  else
    let boundary := findSentenceBoundary cleanText 0%Q maxLength in
    (substring 0 (index_of_number boundary) cleanText,
     Qle_bool (Qnat (String.length cleanText)) boundary).

(* The body of that loop for the fragment at index [i] *)
Definition complete_paragraph (maxLength : Q) (i : nat) (fragment : string) : paragraph :=
  let paraNum :=
    match extractRealParagraphNumber fragment with
    | Some n => if nonempty n then n else string_of_nat (i + 1)
    | None => string_of_nat (i + 1)
    end in
  let cleanText := stripHtml fragment false in
  {| text := fst (truncate cleanText maxLength);
     paragraphNumber := paraNum;
     isComplete := snd (truncate cleanText maxLength) |}.

Fixpoint paragraphs_from (maxLength : Q) (i : nat) (fragments : list string) : list paragraph :=
  match fragments with
  | [] => []
  | fragment :: rest => complete_paragraph maxLength i fragment :: paragraphs_from maxLength (S i) rest
  end.

Definition extractCompleteParagraphs (fragments : list string) (maxLength : Q)
  (includeParaNumbers : bool) : list paragraph :=
  paragraphs_from maxLength 0 fragments.

(** ** Courts and relevance *)

(* the label that identifyCourt classifies, before lower-casing *)
Definition court_label (doc : SearchResult) : string :=
  match doctype doc with
  | DocStr s => s
  | DocNum _ => str_or (docsource doc) ""
  end.

Definition highCourts : list string :=
  ["delhi"; "bombay"; "madras"; "calcutta"; "karnataka";
   "kerala"; "punjab"; "gujarat"; "rajasthan"].

Definition identifyCourt (doc : SearchResult) : string :=
  let courtStr := toLowerCase (court_label doc) in
  if includes courtStr "supreme" || includes courtStr "apex" then "supreme"
  else if includes courtStr "high court" || includes courtStr "hc" then "high"
  else if includes courtStr "district" || includes courtStr "sessions" then "district"
  else if includes courtStr "tribunal" || includes courtStr "appellate" then "tribunal"
  else if includes courtStr "commission" then "commission"
  else if existsb (fun hc => includes courtStr hc) highCourts then "high"
  else "other".

(* the year that the scorer reads off the publish date; [None] is NaN *)
Definition publish_year (doc : SearchResult) : option Z :=
  parseInt (str_or (match publishdate doc with
                    | Some d => Some (List.hd "" (split_on "-" d))
                    | None => None
                    end) "0").

(* [courtHierarchy] is passed by every caller and not consulted *)
Definition calculateRelevanceScore (currentYear : Z) (doc : SearchResult)
  (courtHierarchy : gmap string Q) : Q :=
  let score0 := double 1.0 in
  let courtType := identifyCourt doc in
  let score1 :=
    if String.eqb courtType "supreme" then dmul score0 (double 1.5)
    else if String.eqb courtType "high" then dmul score0 (double 1.2)
    else if String.eqb courtType "district" then dmul score0 (double 1.0)
    else if String.eqb courtType "tribunal" then dmul score0 (double 0.9)
    else score0 in
  let score2 :=
    match publish_year doc with
    | Some year => if currentYear - year <=? 2 then dmul score1 (double 1.3) else score1
    | None => score1
    end in
  if Qltb 20 (num_or (numcitedby doc) 0) then dmul score2 (double 1.4)
  else if Qltb 10 (num_or (numcitedby doc) 0) then dmul score2 (double 1.2)
  else score2.

(** ** Citations *)

Record CitationElements : Type := {
  parties : string;
  court : string;
  year : string;
  caseNumber : option string;
  judges : option (list string);
  reporterCitations : option (list string);
  ce_paragraph : option string
}.

Record citation_pattern : Type := {
  format : string;
  pattern : regex;
  example : string
}.

Definition CITATION_PATTERNS : list citation_pattern :=
  [ {| format := "AIR";
       pattern := re "^(?:\()?(?:19|20)\d{2}\)?\s+AIR\s+(?:[A-Z][a-z]*(?:\s+[A-Z][a-z]*)?\s+)?\d+$";
       example := "1986 AIR 515 or 2020 AIR SC 123" |};
    {| format := "SCC";
       pattern := re "^(?:\()?(?:19|20)\d{2}\)?\s+(?:\d+\s+)?SCC\s+\d+$";
       example := "(2020) 5 SCC 123 or 2020 SCC 456" |};
    {| format := "SCC_OnLine";
       pattern := re "^(?:19|20)\d{2}\s+SCC\s+OnLine\s+[A-Z][a-z]+\s+\d+$";
       example := "2020 SCC OnLine Del 123" |};
    {| format := "SCCOnLine";
       pattern := re "^(?:19|20)\d{2}\s+SCCOnLine\s+[A-Z][a-z]+\s+\d+$";
       example := "2020 SCCOnLine Del 123" |};
    {| format := "Neutral";
       pattern := re "^(?:19|20)\d{2}\s+IN[A-Z]{2,4}\s+\d+$";
       example := "2020 INSC 123" |} ].

Record citation_validation : Type := {
  cv_isValid : bool;
  cv_format : option string;
  cv_suggestion : option string
}.

Definition citation_fixes : list (regex * string) :=
  [ (re "\bDell\b", "Del");
    (re "\bSupreme Court\b", "SC");
    (re "\bHigh Court\b", "HC") ].

Definition validateCitation (citation : string) : citation_validation :=
  let cleaned := trim citation in
  match List.find (fun config => test (pattern config) cleaned) CITATION_PATTERNS with
  | Some config =>
    {| cv_isValid := true; cv_format := Some (format config); cv_suggestion := None |}
  | None =>
    let suggested :=
      fold_left (fun s fix_ => replace_all (fst fix_) (snd fix_) s) citation_fixes cleaned in
    {| cv_isValid := false; cv_format := None;
       cv_suggestion := if String.eqb suggested cleaned then None else Some suggested |}
  end.

Record FormattedCitation : Type := {
  full : string;
  short : string;
  inText : string;
  footnote : string;
  bibliography : string;
  pinpoint : option string
}.

(* formatCitation hands [elements] itself to extractCaseNumber, which
   looks for caseno, relurl, title and tid; a CitationElements has none of
   these fields *)
Definition source_of_elements (elements : CitationElements) : case_source :=
  {| cs_caseno := None; cs_relurl := None; cs_title := None; cs_tid := None |}.

Definition first_party (elements : CitationElements) : string :=
  List.hd "" (split_on " v." (parties elements)).

(* the [full] and [short] strings that the switch on the style builds,
   given the case number in hand *)
Definition styled (elements : CitationElements) (style caseNumber : string)
  : string * string :=
  if String.eqb style "AIR" then
    (year elements +:+ " AIR " +:+ court elements +:+ " " +:+ caseNumber,
     year elements +:+ " AIR " +:+ court elements)
  else if String.eqb style "SCC" then
    (parties elements +:+ " (" +:+ year elements +:+ ") SCC " +:+ caseNumber,
     first_party elements +:+ " (" +:+ year elements +:+ ") SCC")
  else if String.eqb style "Neutral" then
    let courtCode :=
      if includes (court elements) "Supreme" then "SC"
      else toUpperCase (substring 0 3 (court elements)) in
    (year elements +:+ " IN" +:+ courtCode +:+ " " +:+ caseNumber,
     year elements +:+ " IN" +:+ courtCode)
  else if String.eqb style "SCC OnLine" then
    let courtAbbr :=
      if includes (court elements) "Supreme" then "SC"
      else if includes (court elements) "Delhi" then "Del"
      else if includes (court elements) "Bombay" then "Bom"
      else if includes (court elements) "Madras" then "Mad"
      else if includes (court elements) "Calcutta" then "Cal"
      else "HC" in
    (parties elements +:+ ", " +:+ year elements +:+ " SCC OnLine " +:+ courtAbbr +:+ " " +:+ caseNumber,
     year elements +:+ " SCC OnLine " +:+ courtAbbr)
  else
    (parties elements +:+ " (" +:+ year elements +:+ ") " +:+ court elements,
     first_party elements +:+ " (" +:+ year elements +:+ ")").

Definition pilcrow : string := String (chr 182) "".

Definition formatCitation (currentYear : Z) (elements : CitationElements) (style : string)
  : FormattedCitation :=
  let caseNumber := extractCaseNumber currentYear (source_of_elements elements) in
  let fs := styled elements style caseNumber in
  {| full := fst fs;
     short := snd fs;
     inText := "(" +:+ first_party elements +:+ ", " +:+ year elements +:+ ")";
     footnote := fst fs +:+ " (" +:+ court elements +:+ ")";
     bibliography :=
       parties elements +:+ " (" +:+ year elements +:+ "). " +:+ court elements +:+ ". " +:+ fst fs +:+ ".";
     pinpoint :=
       match ce_paragraph elements with
       | Some p => if nonempty p then Some (fst fs +:+ ", " +:+ pilcrow +:+ " " +:+ p) else None
       | None => None
       end |}.

(** ** The HTTP client: cache, pacing and retries *)

(* A JSON payload, with [undefined] for what a function returns when it
   falls off its end *)
#[local] Unset Elimination Schemes.
Inductive json : Type :=
| JUndefined
| JNull
| JBool (b : bool)
| JNum (n : Q)
| JStr (s : string)
| JArr (items : list json)
| JObj (fields : list (string * json)).
#[local] Set Elimination Schemes.

Definition truthy (j : json) : bool :=
  match j with
  | JUndefined | JNull => false
  | JBool b => b
  | JNum n => negb (Qeq_bool n 0)
  | JStr s => nonempty s
  | JArr _ | JObj _ => true
  end.

(* What one call of fetch comes to: the promise rejects, or a response
   arrives whose body is JSON or not *)
Inductive body : Type :=
| JsonBody (j : json)
| BadBody (message : string).

Inductive fetch_outcome : Type :=
| NetworkFailure (message : string)
| Response (status : nat) (statusText : string) (b : body).

Record cache_entry : Type := { data : json; timestamp : Z }.

Record world : Type := mkWorld {
  clock : Z;                        (* Date.now(), in milliseconds *)
  cache : gmap string cache_entry;  (* the Map of the client *)
  upstream : nat -> fetch_outcome;  (* the outcome of the n-th fetch *)
  fetches : nat;                    (* how many fetches were made *)
  pauses : list Z                   (* the delays awaited, latest first *)
}.

(* The result of an asynchronous function: it resolves or it rejects
   with an Error carrying a message *)
Inductive outcome (A : Type) : Type :=
| Returned (a : A)
| Thrown (message : string).
Arguments Returned {A} a.
Arguments Thrown {A} message.

Record Config : Type := {
  indianKanoonApiKey : string;
  defaultCourt : string;
  maxSearchResults : Q;
  citationStyle : string;
  enableCaching : bool;
  cacheTimeout : Q;
  debug : bool
}.

(* configSchema *)
Definition valid_config (config : Config) : bool :=
  in_list (defaultCourt config) ["supremecourt"; "delhi"; "bombay"; "madras"; "calcutta"] &&
  Qle_bool 10 (maxSearchResults config) && Qle_bool (maxSearchResults config) 100 &&
  in_list (citationStyle config) ["AIR"; "SCC"; "Neutral"; "SCC OnLine"] &&
  Qle_bool 10 (cacheTimeout config) && Qle_bool (cacheTimeout config) 1440.

Definition wait (ms : Z) (w : world) : world :=
  mkWorld (clock w + ms) (cache w) (upstream w) (fetches w) (ms :: pauses w).

Definition fetch (w : world) : fetch_outcome * world :=
  (upstream w (fetches w),
   mkWorld (clock w) (cache w) (upstream w) (S (fetches w)) (pauses w)).

Definition response_ok (status : nat) : bool := (200 <=? status)%nat && (status <=? 299)%nat.

Module IndianKanoonClient.

Definition requestDelay : Z := 100.

(* this.cacheTimeout = config.cacheTimeout * 60 * 1000, in milliseconds *)
Definition cacheTimeoutMs (config : Config) : Q :=
  dmul (dmul (double (cacheTimeout config)) 60) 1000.

(* [params] is JSON.stringify(params) *)
Definition getCacheKey (endpoint params : string) : string := endpoint +:+ ":" +:+ params.

Definition getFromCache (config : Config) (key : string) (w : world) : json * world :=
  if negb (enableCaching config) then (JNull, w)
  else
    match cache w !! key with
    | None => (JNull, w)
    | Some cached =>
      if Qltb (cacheTimeoutMs config) (inject_Z (clock w - timestamp cached))
      then (JNull, mkWorld (clock w) (delete key (cache w)) (upstream w) (fetches w) (pauses w))
      else (data cached, w)
    end.

Definition setCache (config : Config) (key : string) (d : json) (w : world) : world :=
  if negb (enableCaching config) then w
  else mkWorld (clock w) (<[key := {| data := d; timestamp := clock w |}]> (cache w))
               (upstream w) (fetches w) (pauses w).

(* The for loop of throttledRequest, with [remaining] = retries - attempt
   iterations to go *)
Fixpoint attempts (remaining attempt retries : nat) (w : world) : outcome json * world :=
  match remaining with
  | O => (Returned JUndefined, w)
  | S remaining' =>
    let (answer, w1) := fetch w in
    (* the catch clause *)
    let caught (message : string) : outcome json * world :=
      if (attempt =? retries - 1)%nat then (Thrown message, w1)
      else attempts remaining' (S attempt) retries (wait (1000 * (Z.of_nat attempt + 1)) w1) in
    match answer with
    | NetworkFailure message => caught message
    | Response status statusText b =>
      if (status =? 429)%nat
      then attempts remaining' (S attempt) retries (wait (2 ^ Z.of_nat attempt * 1000) w1)
      else if negb (response_ok status)
      then caught ("API error: " +:+ string_of_nat status +:+ " " +:+ statusText)
      else match b with
           | JsonBody j => (Returned j, w1)
           | BadBody message => caught message
           end
    end
  end.

Definition throttledRequest (retries : nat) (w : world) : outcome json * world :=
  attempts retries 0 retries (wait requestDelay w).

(* What search, getDocument, getDocumentFragments and getDocumentMetadata
   share: the cache is consulted, then the network; [context] names the
   operation in error messages *)
Definition request (config : Config) (endpoint params context : string) (w : world)
  : outcome json * world :=
  let cacheKey := getCacheKey endpoint params in
  let (cached, w1) := getFromCache config cacheKey w in
  if truthy cached then (Returned cached, w1)
  else
    match throttledRequest 3 w1 with
    | (Returned d, w2) => (Returned d, setCache config cacheKey d w2)
    | (Thrown message, w2) => (Thrown (formatError message context), w2)
    end.

Definition search (config : Config) (params : string) : world -> outcome json * world :=
  request config "/search/" params "search".

Definition getDocument (config : Config) (docId params : string) : world -> outcome json * world :=
  request config ("/doc/" +:+ docId +:+ "/") params "document fetch".

Definition getDocumentFragments (config : Config) (docId params : string)
  : world -> outcome json * world :=
  request config ("/docfragment/" +:+ docId +:+ "/") params "fragment fetch".

Definition getDocumentMetadata (config : Config) (docId : string) : world -> outcome json * world :=
  request config ("/docmeta/" +:+ docId +:+ "/") "{}" "metadata fetch".

End IndianKanoonClient.

(** * The program: src/api-client.ts *)

Module IndianKanoonAPIClient.

(* the fields of IndianKanoonConfig that the client reads *)
Record IndianKanoonConfig : Type := {
  apiKey : string;
  caching : bool;
  timeoutMinutes : option Q
}.

Definition getCacheKey (endpoint : string) (params : option string) : string :=
  endpoint +:+ ":" +:+ match params with Some p => p | None => "{}" end.

(* (this.config.cacheTimeout || 60) * 60 * 1000 *)
Definition cacheTimeoutMs (config : IndianKanoonConfig) : Q :=
  dmul (dmul (double (num_or (timeoutMinutes config) 60)) 60) 1000.

Definition getCachedData (config : IndianKanoonConfig) (key : string) (w : world) : json * world :=
  if negb (caching config) then (JNull, w)
  else
    match cache w !! key with
    | None => (JNull, w)
    | Some cached =>
      let cacheTimeout := cacheTimeoutMs config in
      if Qltb cacheTimeout (inject_Z (clock w - timestamp cached))
      then (JNull, mkWorld (clock w) (delete key (cache w)) (upstream w) (fetches w) (pauses w))
      else (data cached, w)
    end.

Definition setCachedData (config : IndianKanoonConfig) (key : string) (d : json) (w : world)
  : world :=
  if negb (caching config) then w
  else mkWorld (clock w) (<[key := {| data := d; timestamp := clock w |}]> (cache w))
               (upstream w) (fetches w) (pauses w).

Definition makeRequest (config : IndianKanoonConfig) (endpoint : string)
  (params : option string) (w : world) : outcome json * world :=
  let cacheKey := getCacheKey endpoint params in
  let (cached, w1) := getCachedData config cacheKey w in
  if truthy cached then (Returned cached, w1)
  else
    let (answer, w2) := fetch w1 in
    let rethrown (message : string) : outcome json * world :=
      (Thrown ("IndianKanoon API error: " +:+ message), w2) in
    match answer with
    | NetworkFailure message => rethrown message
    | Response status statusText b =>
      if negb (response_ok status) then
        if (status =? 401)%nat then rethrown "Invalid API key"
        else if (status =? 429)%nat then rethrown "Rate limit exceeded. Please try again later."
        else rethrown ("API request failed: " +:+ string_of_nat status +:+ " " +:+ statusText)
      else match b with
           | JsonBody j => (Returned j, setCachedData config cacheKey j w2)
           | BadBody message => rethrown message
           end
    end.

End IndianKanoonAPIClient.

(** * The tools of src/index.ts *)

(** ** search_legal_precedents *)

Definition COURT_DOCTYPES : list (string * option string) :=
  [ ("supremecourt", Some "supremecourt");
    ("delhi", Some "delhihighcourt");
    ("bombay", Some "bombayhighcourt");
    ("madras", Some "madrashighcourt");
    ("calcutta", Some "calcuttahighcourt");
    ("all", None) ].

Definition courtMappings : list (string * list string) :=
  [ ("supremecourt", ["Supreme Court"; "apex"]);
    ("delhi", ["Delhi High Court"; "Delhi HC"]);
    ("bombay", ["Bombay High Court"; "Bombay HC"; "Mumbai"]);
    ("madras", ["Madras High Court"; "Madras HC"; "Chennai"]);
    ("calcutta", ["Calcutta High Court"; "Calcutta HC"; "Kolkata"]) ].

Record search_args : Type := {
  query : string;
  courtLevel : option string;
  dateFrom : option string;
  dateTo : option string;
  maxResults : option Q;
  relevanceThreshold : Q
}.

(* the parameter schema of the tool *)
Definition valid_search_args (args : search_args) : bool :=
  match courtLevel args with
  | Some c => in_list c ["supremecourt"; "delhi"; "bombay"; "madras"; "calcutta"; "all"]
  | None => true
  end &&
  match maxResults args with
  | Some m => Qle_bool 1 m && Qle_bool m 100
  | None => true
  end &&
  Qle_bool 0 (relevanceThreshold args) && Qle_bool (relevanceThreshold args) 5.

(* What one search of a variant came to once awaited: [None] is
   undefined; [docs] is absent when the field is missing or not an array *)
Record upstream_result : Type := { docs : option (list SearchResult) }.

Record ScoredDoc : Type := {
  doc : SearchResult;
  relevanceScore : Q;
  matchedSections : list string;
  matchedConcepts : list string
}.

Record formatted_case : Type := {
  fc_id : string;
  fc_title : string;
  fc_court : string;
  fc_year : string;
  fc_relevanceScore : Q;          (* rendered by toFixed(2) in the source *)
  fc_matchedSections : list string;
  fc_matchedConcepts : list string;
  fc_summary : string;
  fc_citations : list string;
  fc_citedByCount : Q;
  relevanceNote : option string;
  keyPrinciples : option (list string)
}.

Record error_info : Type := {
  er_reason : option string;
  er_suggestions : list string;
  er_alternativeQueries : option (list string);
  er_message : string
}.

Record search_metadata : Type := {
  queryUsed : string;                        (* originalQuery or queryUsed *)
  sm_processedQuery : option ProcessedQuery;
  sm_extractedSections : option (list string);
  sm_extractedConcepts : option (list string);
  variantsSearched : option (list string);   (* variantsSearched or searchVariantsUsed *)
  filtersApplied : list string;
  sm_relevanceThreshold : option Q
}.

Record search_response : Type := {
  cases : list formatted_case;
  totalResults : nat;
  searchStatus : string;
  error : option error_info;
  (* the threshold named by the note "Results below relevance threshold
     of ... Showing best available matches." *)
  note : option Q;
  sr_suggestions : option (list string);
  searchMetadata : option search_metadata
}.

(* Array.prototype.sort with a comparator: a stable sort.  [insert_by]
   puts [x], which stood before every element of [l], in front of the
   first element it does not have to follow. *)
Fixpoint insert_by {A : Type} (cmp : A -> A -> Q) (x : A) (l : list A) : list A :=
  match l with
  | [] => [x]
  | y :: l' => if Qltb 0 (cmp x y) then y :: insert_by cmp x l' else x :: l
  end.

Fixpoint sort_by {A : Type} (cmp : A -> A -> Q) (l : list A) : list A :=
  match l with
  | [] => []
  | x :: l' => insert_by cmp x (sort_by cmp l')
  end.

Definition by_relevance (a b : ScoredDoc) : Q := (relevanceScore b - relevanceScore a)%Q.

(* Array.prototype.slice(0, n) *)
Definition slice0 {A : Type} (n : Q) (l : list A) : list A := firstn (index_of_number n) l.

Definition search_filters (args : search_args) : list (string * string) :=
  (match courtLevel args with
   | Some c =>
     if nonempty c && negb (String.eqb c "all")
     then match lookup_table c COURT_DOCTYPES with
          | Some (Some doctype) => if nonempty doctype then [("doctypes", doctype)] else []
          | _ => []
          end
     else []
   | None => []
   end)
  ++ (if nonempty (str_or (dateFrom args) "") then [("fromdate", str_or (dateFrom args) "")] else [])
  ++ (if nonempty (str_or (dateTo args) "") then [("todate", str_or (dateTo args) "")] else []).

Definition show_filters (filters : list (string * string)) : list string :=
  List.map (fun kv => fst kv +:+ ": " +:+ snd kv) filters.

(* the queries sent upstream *)
Definition variants_searched (q : string) (processedQuery : ProcessedQuery) : list string :=
  match searchVariants processedQuery with
  | [] => [q]
  | vs => firstn 5 vs
  end.

(* the loop that merges the results, keeping the first document of each id *)
Fixpoint merge_docs (seenIds : list Z) (l : list SearchResult) : list SearchResult :=
  match l with
  | [] => []
  | d :: l' =>
    if existsb (Z.eqb (tid d)) seenIds then merge_docs seenIds l'
    else d :: merge_docs (tid d :: seenIds) l'
  end.

Definition docs_of (r : upstream_result) : list SearchResult :=
  match docs r with Some l => l | None => [] end.

(* reading [result.docs] of an undefined result throws *)
Fixpoint all_defined (results : list (option upstream_result)) : option (list upstream_result) :=
  match results with
  | [] => Some []
  | None :: _ => None
  | Some r :: rest =>
    match all_defined rest with
    | Some l => Some (r :: l)
    | None => None
    end
  end.

Definition doc_court_text (d : SearchResult) : string :=
  match docsource d with
  | Some (String _ _ as s) => s
  | _ => match doctype d with
         | DocStr s => s
         | DocNum n => if n =? 0 then "" else string_of_Z n
         end
  end.

Definition court_filter (args : search_args) (allDocs : list SearchResult) : list SearchResult :=
  match courtLevel args with
  | Some c =>
    if nonempty c && negb (String.eqb c "all")
    then
      let acceptedCourts := match lookup_table c courtMappings with Some l => l | None => [] end in
      List.filter (fun d =>
                     existsb (fun court => includes (toLowerCase (doc_court_text d)) (toLowerCase court))
                             acceptedCourts)
                  allDocs
    else allDocs
  | None => allDocs
  end.

Definition score_doc (currentYear : Z) (courtHierarchy : gmap string Q)
  (processedQuery : ProcessedQuery) (d : SearchResult) : ScoredDoc :=
  let baseScore := calculateRelevanceScore currentYear d courtHierarchy in
  {| doc := d;
     relevanceScore := calculateQueryRelevance processedQuery d baseScore;
     matchedSections :=
       List.filter (fun section =>
                      includes (docText d) ("section " +:+ section) ||
                      includes (docText d) (section +:+ " ipc"))
                   (extractedSections processedQuery);
     matchedConcepts :=
       List.filter (fun concept => includes (docText d) concept) (legalConcepts processedQuery) |}.

Definition format_case (extra_note : option string) (principles : option (list string))
  (sd : ScoredDoc) : formatted_case :=
  let d := doc sd in
  {| fc_id := string_of_Z (tid d);
     fc_title := title d;
     fc_court := match doctype d with
                 | DocStr s => s
                 | DocNum _ => str_or (docsource d) "Unknown Court"
                 end;
     fc_year := str_or (match publishdate d with
                        | Some p => Some (List.hd "" (split_on "-" p))
                        | None => None
                        end) "Unknown";
     fc_relevanceScore := relevanceScore sd;
     fc_matchedSections := matchedSections sd;
     fc_matchedConcepts := matchedConcepts sd;
     fc_summary := match headline d with
                   | Some (String _ _ as h) => substring 0 4000 (stripHtml h false) +:+ "..."
                   | _ => "No summary available"
                   end;
     fc_citations := match citation d with
                     | Some (String _ _ as c) => [c]
                     | _ => []
                     end;
     fc_citedByCount := num_or (numcitedby d) 0;
     relevanceNote := extra_note;
     keyPrinciples := principles |}.

Definition courtHierarchy : gmap string Q :=
  <["supreme" := 1.5%Q]> (<["high" := 1.2%Q]> (<["district" := 1.0%Q]>
    (<["tribunal" := 0.9%Q]> ∅))).

Definition result_limit (config : Config) (args : search_args) : Q :=
  match maxResults args with
  | Some m => if Qeq_bool m 0 then maxSearchResults config else m
  | None => maxSearchResults config
  end.

Definition scored_docs (currentYear : Z) (args : search_args) (processedQuery : ProcessedQuery)
  (allDocs : list SearchResult) : list ScoredDoc :=
  List.map (score_doc currentYear courtHierarchy processedQuery) (court_filter args allDocs).

Definition metadata (args : search_args) (processedQuery : ProcessedQuery)
  (variants : option (list string)) (threshold : option Q) : search_metadata :=
  {| queryUsed := query args;
     sm_processedQuery := None;
     sm_extractedSections := Some (extractedSections processedQuery);
     sm_extractedConcepts := Some (legalConcepts processedQuery);
     variantsSearched := variants;
     filtersApplied := show_filters (search_filters args);
     sm_relevanceThreshold := threshold |}.

(* The handler from the threshold filter on *)
Definition rank_and_respond (args : search_args) (limit : Q) (processedQuery : ProcessedQuery)
  (variants : list string) (scoredDocs : list ScoredDoc) : search_response :=
  let relevantDocs :=
    List.filter (fun d => Qle_bool (relevanceThreshold args) (relevanceScore d)) scoredDocs in
  let topDocs := slice0 limit (sort_by by_relevance relevantDocs) in
  match topDocs, scoredDocs with
  | [], _ :: _ =>
    let bestAvailable := slice0 (Qmin 5 limit) (sort_by by_relevance scoredDocs) in
    {| cases := List.map (format_case (Some "Below threshold but best available matches") None)
                         bestAvailable;
       totalResults := length bestAvailable;
       searchStatus := "LOW_RELEVANCE";
       error := None;
       note := Some (relevanceThreshold args);
       sr_suggestions := Some ["Try broader search terms";
                               "Remove specific case details";
                               "Search by legal principle instead of facts"];
       searchMetadata := Some (metadata args processedQuery None None) |}
  | _, _ =>
    {| cases := List.map (format_case None (Some [])) topDocs;
       totalResults := length topDocs;
       searchStatus := "SUCCESS";
       error := None; note := None; sr_suggestions := None;
       searchMetadata :=
         Some (metadata args processedQuery (Some variants) (Some (relevanceThreshold args))) |}
  end.

(* The handler of the tool from the point where the searches of the
   variants have been awaited; [results] is what Promise.all delivered. *)
Definition search_legal_precedents (config : Config) (currentYear : Z) (args : search_args)
  (results : list (option upstream_result)) : search_response :=
  let limit := result_limit config args in
  let processedQuery := preprocessQuery (query args) in
  let variants := variants_searched (query args) processedQuery in
  match all_defined results with
  | None =>
    {| cases := []; totalResults := 0; searchStatus := "ERROR";
       error := Some {| er_reason := None;
                        er_suggestions := ["Check your internet connection";
                                           "Verify your API key is valid";
                                           "Try simpler search terms";
                                           "Remove special characters from query"];
                        er_alternativeQueries := None;
                        er_message :=
                          formatError "Cannot read properties of undefined (reading 'docs')" "search" |};
       note := None; sr_suggestions := None; searchMetadata := None |}
  | Some defined =>
    let allDocs := merge_docs [] (flat_map docs_of defined) in
    match allDocs with
    | [] =>
      let failureAnalysis := analyzeSearchFailure (query args) processedQuery in
      {| cases := []; totalResults := 0; searchStatus := "NO_RESULTS";
         error := Some {| er_reason := Some (reason failureAnalysis);
                          er_suggestions := fa_suggestions failureAnalysis;
                          er_alternativeQueries := Some (alternativeQueries failureAnalysis);
                          er_message := "No cases found. Try the alternative queries suggested below." |};
         note := None; sr_suggestions := None;
         searchMetadata :=
           Some {| queryUsed := query args;
                   sm_processedQuery := Some processedQuery;
                   sm_extractedSections := None;
                   sm_extractedConcepts := None;
                   variantsSearched := Some variants;
                   filtersApplied := show_filters (search_filters args);
                   sm_relevanceThreshold := None |} |}
    | _ => rank_and_respond args limit processedQuery variants
             (scored_docs currentYear args processedQuery allDocs)
    end
  end.

(** ** The legal-weight classifier of extract_legal_principles *)

Definition ratioDecidendi : list regex :=
  [
    re_i "we hold that";
    re_i "it is settled law";
    re_i "the principle is";
    re_i "we are of the opinion";
    re_i "the law is well[\s-]?settled";
    re_i "it is trite law";
    re_i "the ratio of";
    re_i "therefore guilty";
    re_i "conviction is confirmed";
    re_i "appeal is dismissed";
    re_i "petition is allowed";
    re_i "we conclude that";
    re_i "accordingly,?\s+we\s+hold";
    re_i "the\s+legal\s+position\s+is";
    re_i "it\s+is\s+no\s+longer\s+res\s+integra";
    re_i "the\s+proposition\s+of\s+law";
    re_i "we\s+answer\s+the\s+reference";
    re_i "our\s+answer\s+to\s+the\s+question";
    re_i "the\s+principle\s+that\s+emerges";
    re_i "it\s+must\s+be\s+held";
    re_i "we\s+have\s+no\s+hesitation";
    re_i "undoubtedly";
    re_i "unquestionably";
    re_i "it\s+is\s+beyond\s+dispute";
    re_i "there\s+can\s+be\s+no\s+doubt";
    re_i "the\s+inevitable\s+conclusion";
    re_i "we\s+are\s+satisfied\s+that";
    re_i "accordingly\s+convicted";
    re_i "sentence\s+is\s+confirmed";
    re_i "acquittal\s+is\s+set\s+aside";
    re_i "conviction\s+is\s+set\s+aside";
    re_i "appeal\s+is\s+allowed";
    re_i "writ\s+petition\s+is\s+allowed";
    re_i "bail\s+is\s+granted";
    re_i "bail\s+is\s+rejected";
    re_i "quashing\s+is\s+allowed";
    re_i "proceedings\s+are\s+quashed";
    re_i "FIR\s+is\s+quashed";
    re_i "charge[\s-]?sheet\s+is\s+quashed";
    re_i "speaking\s+for\s+the\s+bench";
    re_i "unanimous\s+decision";
    re_i "majority\s+opinion";
    re_i "per\s+curiam" ].

Definition obiterDicta : list regex :=
  [
    re_i "it may be noted";
    re_i "incidentally";
    re_i "in passing";
    re_i "by the way";
    re_i "parenthetically";
    re_i "en\s+passant";
    re_i "for\s+the\s+sake\s+of\s+completeness";
    re_i "though\s+not\s+necessary";
    re_i "even\s+assuming";
    re_i "assuming\s+without\s+deciding";
    re_i "without\s+expressing\s+any\s+opinion";
    re_i "academic\s+interest";
    re_i "hypothetically";
    re_i "arguably";
    re_i "perhaps";
    re_i "it\s+appears";
    re_i "it\s+seems";
    re_i "one\s+may\s+argue";
    re_i "for\s+what\s+it\s+is\s+worth";
    re_i "tangentially";
    re_i "as\s+an\s+aside";
    re_i "not\s+strictly\s+necessary";
    re_i "abundance\s+of\s+caution";
    re_i "without\s+going\s+into";
    re_i "need\s+not\s+be\s+decided";
    re_i "left\s+open";
    re_i "not\s+called\s+upon";
    re_i "beyond\s+the\s+scope" ].

Definition distinguishing : list regex :=
  [
    re_i "however in the present case";
    re_i "facts are different";
    re_i "not applicable here";
    re_i "distinguishable from";
    re_i "can be distinguished";
    re_i "materially\s+different";
    re_i "factually\s+distinct";
    re_i "on\s+facts";
    re_i "peculiar\s+facts";
    re_i "special\s+circumstances";
    re_i "unlike\s+in";
    re_i "contrary\s+to";
    re_i "as\s+opposed\s+to";
    re_i "in\s+contrast";
    re_i "dissimilar";
    re_i "inapposite";
    re_i "has\s+no\s+application";
    re_i "cannot\s+be\s+applied";
    re_i "different\s+context";
    re_i "not\s+on\s+all\s+fours";
    re_i "stands\s+on\s+different\s+footing";
    re_i "different\s+considerations";
    re_i "exceptional\s+case";
    re_i "sui\s+generis" ].

Definition following : list regex :=
  [
    re_i "following the decision";
    re_i "relying on";
    re_i "as held in";
    re_i "applying the principle";
    re_i "in\s+line\s+with";
    re_i "consistent\s+with";
    re_i "as\s+observed\s+in";
    re_i "as\s+laid\s+down";
    re_i "reiterating";
    re_i "reaffirming";
    re_i "endorsing\s+the\s+view";
    re_i "adopting\s+the\s+reasoning";
    re_i "squarely\s+covered";
    re_i "directly\s+applicable";
    re_i "on\s+all\s+fours";
    re_i "binding\s+precedent";
    re_i "authoritative\s+pronouncement";
    re_i "ratio\s+applies";
    re_i "principle\s+enunciated";
    re_i "dictum\s+in" ].

Definition overruling : list regex :=
  [
    re_i "overruled";
    re_i "no\s+longer\s+good\s+law";
    re_i "cannot\s+be\s+sustained";
    re_i "per\s+incuriam";
    re_i "wrongly\s+decided";
    re_i "erroneous\s+view";
    re_i "departed\s+from";
    re_i "not\s+approved";
    re_i "doubted";
    re_i "reconsidered";
    re_i "contrary\s+to\s+law";
    re_i "unsustainable";
    re_i "bad\s+in\s+law";
    re_i "set\s+aside\s+the\s+judgment";
    re_i "reversed";
    re_i "cannot\s+be\s+accepted";
    re_i "rejected\s+the\s+contention";
    re_i "disapproved" ].

Definition proceduralDirections : list regex :=
  [
    re_i "directed\s+to";
    re_i "it\s+is\s+ordered";
    re_i "registry\s+is\s+directed";
    re_i "shall\s+comply";
    re_i "immediate\s+effect";
    re_i "with\s+immediate\s+effect";
    re_i "forthwith";
    re_i "expeditiously";
    re_i "within\s+\d+\s+weeks";
    re_i "time\s+bound";
    re_i "liberty\s+to\s+apply";
    re_i "list\s+the\s+matter";
    re_i "remanded\s+to";
    re_i "sent\s+back";
    re_i "fresh\s+consideration";
    re_i "de\s+novo";
    re_i "status\s+quo";
    re_i "interim\s+order";
    re_i "till\s+further\s+orders";
    re_i "stayed" ].

Definition concessionsAdmissions : list regex :=
  [
    re_i "fairly\s+conceded";
    re_i "admitted\s+that";
    re_i "not\s+disputed";
    re_i "not\s+in\s+controversy";
    re_i "common\s+ground";
    re_i "undisputed\s+fact";
    re_i "accepted\s+position";
    re_i "admittedly";
    re_i "confessedly";
    re_i "no\s+quarrel";
    re_i "rightly\s+conceded";
    re_i "candidly\s+admitted";
    re_i "on\s+admission";
    re_i "learned\s+counsel\s+agrees";
    re_i "not\s+pressed";
    re_i "given\s+up";
    re_i "abandoned";
    re_i "withdrawn" ].

Definition judicialDisagreement : list regex :=
  [
    re_i "with\s+respect";
    re_i "with\s+due\s+respect";
    re_i "respectfully\s+disagree";
    re_i "unable\s+to\s+agree";
    re_i "different\s+view";
    re_i "minority\s+view";
    re_i "dissenting\s+opinion";
    re_i "contra\s+view";
    re_i "alternative\s+view";
    re_i "however\s+i\s+would";
    re_i "in\s+my\s+opinion";
    re_i "divergent\s+views";
    re_i "conflict\s+of\s+opinion";
    re_i "referring\s+to\s+larger\s+bench";
    re_i "reference\s+is\s+made";
    re_i "requires\s+reconsideration";
    re_i "doubt\s+is\s+expressed" ].

Definition statutoryInterpretation : list regex :=
  [
    re_i "plain\s+meaning";
    re_i "literal\s+interpretation";
    re_i "legislative\s+intent";
    re_i "object\s+and\s+purpose";
    re_i "mischief\s+rule";
    re_i "golden\s+rule";
    re_i "harmonious\s+construction";
    re_i "purposive\s+interpretation";
    re_i "strict\s+construction";
    re_i "liberal\s+construction";
    re_i "ejusdem\s+generis";
    re_i "noscitur\s+a\s+sociis";
    re_i "expressio\s+unius";
    re_i "reading\s+down";
    re_i "reading\s+into";
    re_i "casus\s+omissus";
    re_i "statutory\s+scheme";
    re_i "contextual\s+interpretation";
    re_i "beneficial\s+construction";
    re_i "penal\s+statute" ].

Definition evidenceEvaluation : list regex :=
  [
    re_i "cogent\s+evidence";
    re_i "credible\s+witness";
    re_i "unreliable\s+testimony";
    re_i "contradictions\s+in\s+evidence";
    re_i "material\s+improvement";
    re_i "embellishment";
    re_i "tutored\s+witness";
    re_i "interested\s+witness";
    re_i "independent\s+witness";
    re_i "corroboration";
    re_i "circumstantial\s+evidence";
    re_i "chain\s+of\s+circumstances";
    re_i "preponderance\s+of\s+probability";
    re_i "beyond\s+reasonable\s+doubt";
    re_i "benefit\s+of\s+doubt";
    re_i "hostile\s+witness";
    re_i "dying\s+declaration";
    re_i "res\s+gestae";
    re_i "admission\s+against\s+interest";
    re_i "burden\s+of\s+proof";
    re_i "onus\s+shifts";
    re_i "presumption";
    re_i "rebuttal" ].

(* Object.entries(legalMarkers): the categories in the order of the object literal *)
Definition legalMarkers : list (string * list regex) :=
  [ ("ratioDecidendi", ratioDecidendi);
    ("obiterDicta", obiterDicta);
    ("distinguishing", distinguishing);
    ("following", following);
    ("overruling", overruling);
    ("proceduralDirections", proceduralDirections);
    ("concessionsAdmissions", concessionsAdmissions);
    ("judicialDisagreement", judicialDisagreement);
    ("statutoryInterpretation", statutoryInterpretation);
    ("evidenceEvaluation", evidenceEvaluation) ].

Record weight : Type := {
  legalWeight : string;
  confidence : Q;
  weightDetails : list string
}.

Definition count_matches (patterns : list regex) (para_text : string) : nat :=
  length (List.filter (fun p => test p para_text) patterns).

(* the switch on the category, for a category with [n] > 0 matching patterns *)
Definition assign (category : string) (n : nat) (w : weight) : string * Q :=
  let keep := (legalWeight w, confidence w) in
  if String.eqb category "ratioDecidendi" then
    ("Ratio Decidendi", Qmin (0.9 + Qnat n * 0.02) 1.0)
  else if String.eqb category "overruling" then
    if negb (String.eqb (legalWeight w) "Ratio Decidendi")
    then ("Overruling Precedent", 0.85%Q) else keep
  else if String.eqb category "statutoryInterpretation" then
    if negb (in_list (legalWeight w) ["Ratio Decidendi"; "Overruling Precedent"])
    then ("Statutory Interpretation", 0.8%Q) else keep
  else if String.eqb category "evidenceEvaluation" then
    if negb (in_list (legalWeight w)
               ["Ratio Decidendi"; "Overruling Precedent"; "Statutory Interpretation"])
    then ("Evidence Analysis", 0.75%Q) else keep
  else if String.eqb category "following" then
    if String.eqb (legalWeight w) "Supporting Observation"
    then ("Following Precedent", 0.8%Q) else keep
  else if String.eqb category "distinguishing" then
    if String.eqb (legalWeight w) "Supporting Observation"
    then ("Distinguishing", 0.7%Q) else keep
  else if String.eqb category "proceduralDirections" then
    if String.eqb (legalWeight w) "Supporting Observation"
    then ("Procedural Direction", 0.65%Q) else keep
  else if String.eqb category "concessionsAdmissions" then
    if String.eqb (legalWeight w) "Supporting Observation"
    then ("Concession/Admission", 0.7%Q) else keep
  else if String.eqb category "judicialDisagreement" then
    if String.eqb (legalWeight w) "Supporting Observation"
    then ("Judicial Disagreement", 0.6%Q) else keep
  else if String.eqb category "obiterDicta" then
    if String.eqb (legalWeight w) "Supporting Observation"
    then ("Obiter Dicta", 0.55%Q) else keep
  else keep.

(* one turn of the loop over Object.entries(legalMarkers) *)
Definition weigh (para_text : string) (w : weight) (entry : string * list regex) : weight :=
  let n := count_matches (snd entry) para_text in
  if (0 <? n)%nat then
    {| legalWeight := fst (assign (fst entry) n w);
       confidence := snd (assign (fst entry) n w);
       weightDetails := weightDetails w ++ [fst entry +:+ "(" +:+ string_of_nat n +:+ ")"] |}
  else w.

Definition classify (para_text : string) : weight :=
  fold_left (weigh para_text) legalMarkers
            {| legalWeight := "Supporting Observation"; confidence := 0.5%Q; weightDetails := [] |}.

Record principle : Type := {
  p_text : string;
  p_paragraphNumber : string;
  p_isComplete : bool;
  p_legalWeight : string;
  p_weightDetails : option (list string);
  p_confidence : Q;
  searchTermMatches : list string
}.

(* The principles that extract_legal_principles builds from the fragments
   found, before it sorts them (the context and citation fields are left
   out) *)
Definition principles_of (allFragments searchTerms : list string) (fullText : bool)
  (maxLength : Q) : list principle :=
  List.map (fun para =>
              let w := classify (text para) in
              {| p_text := text para;
                 p_paragraphNumber := paragraphNumber para;
                 p_isComplete := isComplete para;
                 p_legalWeight := legalWeight w;
                 p_weightDetails := match weightDetails w with [] => None | l => Some l end;
                 p_confidence := confidence w;
                 searchTermMatches :=
                   List.filter (fun term => includes (toLowerCase (text para)) (toLowerCase term))
                               searchTerms |})
           (extractCompleteParagraphs allFragments (if fullText then maxLength else 1500) true).

(** ** What the specification is measured against *)

(* A category has matched when one of its patterns matches the text *)
Definition matched (patterns : list regex) (para_text : string) : bool :=
  (0 <? count_matches patterns para_text)%nat.

(* The label that a priority list determines: that of the first category
   of the list that matched *)
Fixpoint first_matching (order : list (list regex * string)) (para_text : string) : string :=
  match order with
  | [] => "Supporting Observation"
  | (patterns, label) :: rest =>
    if matched patterns para_text then label else first_matching rest para_text
  end.

(* The order of priority as the specification states it *)
Definition stated_priority : list (list regex * string) :=
  [ (ratioDecidendi, "Ratio Decidendi");
    (overruling, "Overruling Precedent");
    (statutoryInterpretation, "Statutory Interpretation");
    (evidenceEvaluation, "Evidence Analysis");
    (following, "Following Precedent");
    (distinguishing, "Distinguishing");
    (proceduralDirections, "Procedural Direction");
    (concessionsAdmissions, "Concession/Admission");
    (judicialDisagreement, "Judicial Disagreement");
    (obiterDicta, "Obiter Dicta") ].

(* The order that the loop over the categories and the guards of its
   switch come to *)
Definition effective_priority : list (list regex * string) :=
  [ (ratioDecidendi, "Ratio Decidendi");
    (overruling, "Overruling Precedent");
    (statutoryInterpretation, "Statutory Interpretation");
    (evidenceEvaluation, "Evidence Analysis");
    (obiterDicta, "Obiter Dicta");
    (distinguishing, "Distinguishing");
    (following, "Following Precedent");
    (proceduralDirections, "Procedural Direction");
    (concessionsAdmissions, "Concession/Admission");
    (judicialDisagreement, "Judicial Disagreement") ].

(* the label after one turn of the classifier's loop depends on the
   label before it only *)
Definition next_label (category : string) (hit : bool) (label : string) : string :=
  if hit
  then fst (assign category 0 {| legalWeight := label; confidence := 0; weightDetails := [] |})
  else label.

Fixpoint all_chars (f : ascii -> bool) (s : string) : bool :=
  match s with
  | EmptyString => true
  | String c s' => f c && all_chars f s'
  end.

(* The code units that a match of an expression can consume *)
Fixpoint alphabet (r : regex) (c : ascii) : bool :=
  match r with
  | Chr cs => cset_mem cs c
  | Seq a b | Alt a b => alphabet a c || alphabet b c
  | Rep _ _ a | Group _ a => alphabet a c
  | Eps | Bol | Eol | WordB | Look _ => false
  end.

(* Every match of the expression starts at the start of the subject *)
Fixpoint starts_at_bol (r : regex) : bool :=
  match r with
  | Bol => true
  | Seq a _ | Group _ a => starts_at_bol a
  | Alt a b => starts_at_bol a && starts_at_bol b
  | _ => false
  end.

(* Every match of the expression ends at the end of the subject *)
Fixpoint ends_at_eol (r : regex) : bool :=
  match r with
  | Eol => true
  | Seq a b => ends_at_eol a || ends_at_eol b
  | Alt a b => ends_at_eol a && ends_at_eol b
  | Group _ a => ends_at_eol a
  | _ => false
  end.

(* The code units that the boundary patterns start with: the marks at
   which findSentenceBoundary cuts *)
Definition is_break (c : ascii) : bool :=
  in_list (String c "") ["."; "?"; "!"; ";"; ":"; nl].

Fixpoint repeat_text (s : string) (n : nat) : string :=
  match n with
  | O => ""
  | S n' => s +:+ repeat_text s n'
  end.

(* A court label holds a keyword when its lower-case form includes it *)
Definition label_has (label word : string) : bool := includes (toLowerCase label) word.

(* the age of a cache entry at the time of a request, in milliseconds *)
Definition age (w : world) (entry : cache_entry) : Q := inject_Z (clock w - timestamp entry).




(* the pause after a rate-limited attempt and after a failed one *)
Definition exponential (attempt : nat) : Z := 2 ^ Z.of_nat attempt * 1000.
Definition linear (attempt : nat) : Z := 1000 * (Z.of_nat attempt + 1).


(* the five answers of formatError *)
Definition authentication_failed : string :=
  "Authentication failed: Please check your IndianKanoon API key in settings".
Definition rate_limit_exceeded : string :=
  "Rate limit exceeded: Please wait a moment and try again".
Definition network_error : string :=
  "Network error: Please check your internet connection".
Definition request_timeout : string :=
  "Request timeout: The server took too long to respond. Try with fewer results".

(** ** Predicates and examples used by the statements *)

(* [consumes r st st' taken]: from [st] the matcher took the code units
   [taken], all of them in the alphabet of [r], and stands at [st'] *)
Definition consumes (r : regex) (st st' : mstate) (taken : string) : Prop :=
  rest st = taken +:+ rest st' /\
  pos st' = (pos st + String.length taken)%nat /\
  all_chars (alphabet r) taken = true /\
  (ends_at_eol r = true -> rest st' = "").

(* What the search for a boundary holds at any time: nothing yet, or a
   position below the limit that one of the patterns marked *)
Definition marked (base limit : Q) (searchText : string) (pool : list regex) (best : Q) : Prop :=
  best = (-1)%Q \/
  ((best < limit)%Q /\
   exists pattern index,
     In pattern pool /\ In index (match_indices pattern searchText) /\
     best = (base + Qnat index + 1)%Q).

(* [a] may stand before [b] in a ranking *)
Definition outranks (a b : ScoredDoc) : Prop := (relevanceScore b <= relevanceScore a)%Q.

Definition example_config : Config :=
  {| indianKanoonApiKey := "key"; defaultCourt := "supremecourt"; maxSearchResults := 20;
     citationStyle := "SCC OnLine"; enableCaching := true; cacheTimeout := 60;
     debug := false |}.

Definition example_payload : json := JObj [("docs", JArr [])].

(* A world ten seconds after the payload was stored under the key of a
   search, whose upstream answers 429 once and then 200 *)
Definition example_world (now : Z) : world :=
  mkWorld now
          {[ IndianKanoonClient.getCacheKey "/search/" "{}"
             := {| data := example_payload; timestamp := 0 |} ]}
          (fun n => match n with
                    | O => Response 429 "Too Many Requests" (BadBody "")
                    | _ => Response 200 "OK" (JsonBody (JObj [("docs", JArr [JNull])]))
                    end)
          0 [].

(* The upstream that answers the first [failing] fetches with [answer],
   and the later ones with status 200 and an empty result set *)
Definition answering (failing : nat) (answer : fetch_outcome) : nat -> fetch_outcome :=
  fun n => if (n <? failing)%nat then answer
           else Response 200 "OK" (JsonBody (JObj [("docs", JArr [])])).

Definition example_args : search_args :=
  {| query := "anticipatory bail"; courtLevel := None; dateFrom := None; dateTo := None;
     maxResults := None; relevanceThreshold := 5 |}.

Definition example_doc : SearchResult :=
  mkSearchResult 101 "State v. Kumar" (DocStr "Delhi High Court") (Some "2001-03-12")
                 None None None None None None None None.

(* The factors by which calculateRelevanceScore multiplies the score;
   [None] where it leaves the score as it is *)

(* the court factor of a label: the keyword groups are tried in the order
   of identifyCourt, and the first one found decides *)
Definition court_factor (label : string) : option Q :=
  if label_has label "supreme" || label_has label "apex" then Some 1.5%Q
  else if label_has label "high court" || label_has label "hc" then Some 1.2%Q
  else if label_has label "district" || label_has label "sessions" then Some 1.0%Q
  else if label_has label "tribunal" || label_has label "appellate" then Some 0.9%Q
  else if label_has label "commission" then None
  else if existsb (label_has label) highCourts then Some 1.2%Q
  else None.

Definition recency_factor (currentYear : Z) (doc : SearchResult) : option Q :=
  match publish_year doc with
  | Some year => if currentYear - year <=? 2 then Some 1.3%Q else None
  | None => None
  end.

Definition citation_factor (doc : SearchResult) : option Q :=
  if Qltb 20 (num_or (numcitedby doc) 0) then Some 1.4%Q
  else if Qltb 10 (num_or (numcitedby doc) 0) then Some 1.2%Q
  else None.

(* score *= factor, where there is a factor *)
Definition multiplied (score : Q) (factor : option Q) : Q :=
  match factor with
  | Some f => dmul score (double f)
  | None => score
  end.

(* [i] is an index of the searched text where a pattern of [pool] matches *)
Definition boundary_at (pool : list regex) (searchText : string) (i : nat) : Prop :=
  exists pattern, In pattern pool /\ In i (match_indices pattern searchText).

(* such an index whose position lies below the limit *)
Definition candidate (base limit : Q) (pool : list regex) (searchText : string) (i : nat)
  : Prop :=
  boundary_at pool searchText i /\ (base + Qnat i + 1 < limit)%Q.

(* a number as a request carries it: a binary64 value *)
Definition js_number (x : Q) : Prop := (double x == x)%Q.

(* seven documents of different courts, years and citation counts, in no
   particular order *)
Definition ranking_docs : list SearchResult :=
  [ mkSearchResult 201 "A v. State" (DocStr "District Court, Pune") (Some "1990-01-10")
                   None None (Some (2 # 1)) None None None None None;
    mkSearchResult 202 "B v. Union of India" (DocStr "Supreme Court of India") (Some "2025-05-02")
                   None None (Some (40 # 1)) None None None None None;
    mkSearchResult 203 "C v. State" (DocStr "Income Tax Appellate Tribunal") (Some "2003-07-21")
                   None None (Some (1 # 1)) None None None None None;
    mkSearchResult 204 "D v. State" (DocStr "Bombay High Court") (Some "2024-11-30")
                   None None (Some (12 # 1)) None None None None None;
    mkSearchResult 205 "E v. State" (DocStr "Supreme Court of India") (Some "1975-02-14")
                   None None (Some (3 # 1)) None None None None None;
    mkSearchResult 206 "F v. State" (DocStr "Delhi High Court") (Some "2012-09-09")
                   None None (Some (30 # 1)) None None None None None;
    mkSearchResult 207 "G v. State" (DocStr "Consumer Forum") (Some "2010-06-01")
                   None None None None None None None None ].



(* the message of formatError for an error of no particular class *)
Definition generic_error (errorMsg context : string) : string :=
  "Error in " +:+ context +:+ ": " +:+ errorMsg +:+ nl ++
  "Suggestions: " +:+ nl ++
  "1. Verify your API key is valid" +:+ nl ++
  "2. Check if the document ID exists" +:+ nl ++
  "3. Try with different search terms".




(* the time spent in a list of pauses, in milliseconds *)
Definition sum_of (delays : list Z) : Z := fold_right Z.add 0 delays.

(* What a run of attempts leaves behind: the pauses it took, which are
   all that moves the clock, and neither the cache nor the upstream *)
Definition trace (bound : Z) (w after : world) : Prop :=
  upstream after = upstream w /\
  cache after = cache w /\
  exists waited,
    pauses after = waited ++ pauses w /\
    clock after = clock w + sum_of waited /\
    Forall (fun p => 0 < p) waited /\
    sum_of waited <= bound.

(** ** src/api-client.ts: searchMultipleVariants *)

(* the variants that searchMultipleVariants sends *)
Definition multiple_variants (query : string) : list string :=
  unique [ query;
           dq +:+ query +:+ dq;
           replace_all (re "\s+") " ANDD " query;
           join " ORR " (split_on " " query) ].

(* searchMultipleVariants from the point where the searches have been
   awaited: [None] is the null that stands for a search that failed *)
Definition searchMultipleVariants (results : list (option (list SearchResult)))
  : list SearchResult :=
  merge_docs [] (flat_map (fun r => match r with Some found => found | None => [] end) results).

(* a section number outside 1-511, as analyzeSearchFailure tests it *)
Definition uncommon_section (s : string) : bool :=
  match parseInt s with
  | Some num => (511 <? num) || (num <? 1)
  | None => false
  end.

(** * Properties *)

#[local] Arguments String.append !s1 s2 : simpl nomatch.

(** ** Strings *)

Lemma append_empty_r (s : string) : s +:+ "" = s.
Proof. induction s; simpl; congruence. Qed.

Lemma append_assoc (a b c : string) : (a +:+ b) +:+ c = a +:+ (b +:+ c).
Proof. induction a; simpl; congruence. Qed.

Lemma length_append (a b : string) :
  String.length (a +:+ b) = (String.length a + String.length b)%nat.
Proof. induction a; simpl; congruence. Qed.

Lemma length_take_chars (n : nat) (s : string) :
  String.length (take_chars n s) = Nat.min n (String.length s).
Proof.
  revert s. induction n as [|n IH]; intros [|c s]; simpl; auto.
Qed.

Lemma take_drop_chars (n : nat) (s : string) :
  take_chars n s +:+ drop_chars n s = s.
Proof.
  revert s. induction n as [|n IH]; intros [|c s]; simpl; auto.
  now rewrite IH.
Qed.

Lemma length_drop_chars (n : nat) (s : string) :
  String.length (drop_chars n s) = (String.length s - n)%nat.
Proof.
  revert s. induction n as [|n IH]; intros [|c s]; simpl; auto.
Qed.

Lemma take_chars_all (n : nat) (s : string) :
  (String.length s <= n)%nat -> take_chars n s = s.
Proof.
  revert s. induction n as [|n IH]; intros [|c s] H; simpl in *; auto; try lia.
  rewrite IH; auto. lia.
Qed.

(* substring(0, n) is the prefix of n code units, or the whole text *)
Lemma substring_prefix (n : nat) (s : string) :
  substring 0 n s = take_chars n s.
Proof.
  unfold substring.
  change (Nat.min 0 (String.length s)) with 0%nat.
  rewrite Nat.max_0_l, Nat.min_0_l, Nat.sub_0_r.
  change (drop_chars 0 s) with s.
  destruct (Nat.le_ge_cases n (String.length s)) as [H|H].
  - now rewrite Nat.min_l.
  - rewrite Nat.min_r by assumption.
    rewrite !take_chars_all; auto.
Qed.

Lemma starts_with_split (p s : string) :
  starts_with p s = true -> exists post, s = p +:+ post.
Proof.
  revert s. induction p as [|a p IH]; intros s H; simpl in *.
  - now exists s.
  - destruct s as [|b s]; [discriminate|].
    apply andb_true_iff in H as [Hab Hps].
    apply Ascii.eqb_eq in Hab. subst b.
    destruct (IH _ Hps) as [post ->]. now exists post.
Qed.

Lemma includes_split (s p : string) :
  includes s p = true -> exists pre post, s = pre +:+ p +:+ post.
Proof.
  induction s as [|c s IH]; simpl; intros H.
  - rewrite orb_false_r in H. apply starts_with_split in H as [post ->].
    now exists "", post.
  - apply orb_true_iff in H as [H|H].
    + apply starts_with_split in H as [post ->]. now exists "", post.
    + destruct (IH H) as (pre & post & ->). now exists (String c pre), post.
Qed.

Lemma starts_with_append (p post : string) : starts_with p (p +:+ post) = true.
Proof.
  induction p as [|a p IH]; simpl; auto.
  now rewrite Ascii.eqb_refl.
Qed.

Lemma includes_at_start (s p : string) : starts_with p s = true -> includes s p = true.
Proof. intros H. destruct s; simpl; now rewrite H. Qed.

Lemma includes_append (pre p post : string) : includes (pre +:+ p +:+ post) p = true.
Proof.
  induction pre as [|c pre IH]; simpl.
  - apply includes_at_start, starts_with_append.
  - rewrite IH. apply orb_true_r.
Qed.

(** ** The matcher *)

(* a match found by a search starts somewhere in the subject *)
Lemma search_in_found (r : regex) (pre s : string) (p : nat) (pv : option ascii) :
  (forall p' pv', match_here r (MState p' pv' s []) <> None) ->
  search_in r (pre +:+ s) p pv <> None.
Proof.
  intros Hs. revert p pv. induction pre as [|c pre IH]; intros p pv; simpl.
  - specialize (Hs p pv).
    destruct s; simpl; destruct (match_here r _); congruence.
  - destruct (match_here r _); [congruence|]. apply IH.
Qed.

Lemma test_found (r : regex) (pre s : string) :
  (forall p' pv', match_here r (MState p' pv' s []) <> None) ->
  test r (pre +:+ s) = true.
Proof.
  intros H. unfold test, search.
  pose proof (search_in_found r pre s 0 None H) as Hn.
  now destruct (search_in r (pre +:+ s) 0 None).
Qed.

Lemma count_matches_head (p : regex) (ps : list regex) (t : string) :
  test p t = true -> matched (p :: ps) t = true.
Proof.
  intros H. unfold matched, count_matches. cbn [List.filter]. now rewrite H.
Qed.

Lemma all_chars_append (f : ascii -> bool) (a b : string) :
  all_chars f (a +:+ b) = all_chars f a && all_chars f b.
Proof.
  induction a as [|c a IH]; simpl; [reflexivity|].
  now rewrite IH, andb_assoc.
Qed.

Lemma all_chars_weaken (f g : ascii -> bool) (s : string) :
  (forall c, f c = true -> g c = true) -> all_chars f s = true -> all_chars g s = true.
Proof.
  intros Hfg. induction s as [|c s IH]; simpl; [reflexivity|].
  intros H. apply andb_true_iff in H as [Hc Hs].
  now rewrite (Hfg _ Hc), IH.
Qed.

Lemma consumes_nothing (r : regex) (st : mstate) :
  ends_at_eol r = false -> consumes r st st "".
Proof.
  intros H. unfold consumes. rewrite H. repeat split; simpl; auto; try lia; try discriminate.
Qed.

Lemma append_eq_empty (a b : string) : a +:+ b = "" -> b = "".
Proof. destruct a; simpl; [auto|discriminate]. Qed.

Lemma consumes_seq (a b : regex) (st st1 st2 : mstate) (t1 t2 : string) :
  consumes a st st1 t1 -> consumes b st1 st2 t2 -> consumes (Seq a b) st st2 (t1 +:+ t2).
Proof.
  intros (R1 & P1 & A1 & E1) (R2 & P2 & A2 & E2). unfold consumes. repeat split.
  - now rewrite R1, R2, append_assoc.
  - rewrite P2, P1, length_append. lia.
  - rewrite all_chars_append. apply andb_true_iff. split.
    + eapply all_chars_weaken; [|exact A1]. intros c Hc. simpl. now rewrite Hc.
    + eapply all_chars_weaken; [|exact A2]. intros c Hc. simpl. rewrite Hc. apply orb_true_r.
  - simpl. intros H. apply orb_true_iff in H as [H|H]; [|now apply E2].
    specialize (E1 H). rewrite E1 in R2. symmetry in R2. now apply append_eq_empty in R2.
Qed.

(* The matcher is sound: what reaches the continuation is a state that
   the expression leads to *)
Lemma run_sound (r : regex) :
  forall (k : mstate -> option mstate) (st e : mstate),
    run r k st = Some e ->
    exists st' taken, consumes r st st' taken /\ k st' = Some e.
Proof.
  induction r as [|cs|a IHa b IHb|a IHa b IHb|lo hi a IHa|n a IHa| | | |a IHa];
    intros k st e H; cbn [run] in H.
  - exists st, "". split; [now apply consumes_nothing|assumption].
  - destruct (rest st) as [|c s'] eqn:E; [discriminate|].
    destruct (cset_mem cs c) eqn:M; [|discriminate].
    exists (advance c s' st), (String c ""). split; [|assumption].
    unfold consumes. simpl. rewrite E, M. repeat split; auto; try lia; try discriminate.
  - apply IHa in H as (st1 & t1 & C1 & H).
    apply IHb in H as (st2 & t2 & C2 & H).
    exists st2, (t1 +:+ t2). split; [eapply consumes_seq; eassumption|assumption].
  - destruct (run a k st) as [e1|] eqn:E1.
    + apply IHa in E1 as (st1 & t1 & (R & P & A & E) & K).
      exists st1, t1. split; [|congruence].
      unfold consumes. repeat split; auto.
      * eapply all_chars_weaken; [|exact A]. intros c Hc. simpl. now rewrite Hc.
      * simpl. intros HE. apply andb_true_iff in HE as [HE _]. auto.
    + apply IHb in H as (st1 & t1 & (R & P & A & E) & K).
      exists st1, t1. split; [|assumption].
      unfold consumes. repeat split; auto.
      * eapply all_chars_weaken; [|exact A]. intros c Hc. simpl. rewrite Hc. apply orb_true_r.
      * simpl. intros HE. apply andb_true_iff in HE as [_ HE]. auto.
  - cbn [run] in H. revert H.
    generalize (S (lo + String.length (rest st))) as fuel. generalize 0%nat as n.
    intros n fuel. revert n st.
    induction fuel as [|fuel IHf]; intros n st H; [discriminate|].
    cbn [rep_loop] in H.
    match type of H with
    | match ?x with _ => _ end = _ => destruct x as [e1|] eqn:E1
    end.
    + injection H as ->.
      destruct (below n hi); [|discriminate].
      apply IHa in E1 as (st1 & t1 & (R1 & P1 & A1 & _) & K).
      destruct ((pos st <? pos st1)%nat || (n <? lo)%nat); [|discriminate].
      apply IHf in K as (st2 & t2 & (R2 & P2 & A2 & _) & K).
      exists st2, (t1 +:+ t2). split; [|assumption].
      unfold consumes. repeat split.
      * now rewrite R1, R2, append_assoc.
      * rewrite P2, P1, length_append. lia.
      * rewrite all_chars_append.
        change (alphabet (Rep lo hi a)) with (alphabet a) in *. now rewrite A1, A2.
      * simpl. discriminate.
    + destruct (lo <=? n)%nat; [|discriminate].
      exists st, "". split; [now apply consumes_nothing|assumption].
  - apply IHa in H as (st1 & t1 & (R & P & A & E) & K).
    exists (set_cap n (pos st) st1), t1. split; [|assumption].
    unfold consumes. simpl. repeat split; auto.
  - destruct (pos st =? 0)%nat; [|discriminate].
    exists st, "". split; [now apply consumes_nothing|assumption].
  - destruct (rest st) eqn:E; [|discriminate].
    exists st, "". split; [|assumption].
    unfold consumes. simpl. repeat split; auto.
  - destruct (xorb _ _); [|discriminate].
    exists st, "". split; [now apply consumes_nothing|assumption].
  - destruct (run a Some st); [|discriminate].
    exists st, "". split; [now apply consumes_nothing|assumption].
Qed.

Lemma match_here_sound (r : regex) (st e : mstate) :
  match_here r st = Some e -> exists taken, consumes r st e taken.
Proof.
  intros H. apply run_sound in H as (st' & taken & C & K).
  injection K as <-. now exists taken.
Qed.

Lemma run_at_start (r : regex) :
  forall (k : mstate -> option mstate) (st e : mstate),
    starts_at_bol r = true -> run r k st = Some e -> pos st = 0%nat.
Proof.
  induction r as [|cs|a IHa b IHb|a IHa b IHb|lo hi a IHa|n a IHa| | | |a IHa];
    intros k st e S H; simpl in S; try discriminate; cbn [run] in H.
  - eapply IHa; eauto.
  - apply andb_true_iff in S as [Sa Sb].
    destruct (run a k st) eqn:E; [eapply IHa|eapply IHb]; eauto.
  - eapply IHa; eauto.
  - destruct (pos st =? 0)%nat eqn:E; [|discriminate]. now apply Nat.eqb_eq.
Qed.

(* where a search finds its match *)
Lemma search_in_sound (r : regex) (s : string) :
  forall (p : nat) (pv : option ascii) (b e : mstate),
    search_in r s p pv = Some (b, e) ->
    exists pre, s = pre +:+ rest b /\ pos b = (p + String.length pre)%nat /\
                match_here r b = Some e.
Proof.
  induction s as [|c s IH]; intros p pv b e H; simpl in H.
  - destruct (match_here r (MState p pv "" [])) eqn:E; [|discriminate].
    injection H as <- <-. exists "". simpl. repeat split; auto; lia.
  - destruct (match_here r (MState p pv (String c s) [])) eqn:E.
    + injection H as <- <-. exists "". simpl. repeat split; auto; lia.
    + apply IH in H as (pre & -> & P & M).
      exists (String c pre). simpl. repeat split; auto; lia.
Qed.

(* An expression anchored at both ends accepts only texts written in its
   alphabet *)
Lemma anchored_alphabet (r : regex) (s : string) :
  starts_at_bol r = true -> ends_at_eol r = true ->
  test r s = true -> all_chars (alphabet r) s = true.
Proof.
  intros SB EE H. unfold test, search in H.
  destruct (search_in r s 0 None) as [[b e]|] eqn:E; [|discriminate].
  apply search_in_sound in E as (pre & -> & P & M).
  pose proof (run_at_start r Some b e SB M) as P0.
  destruct pre; [|simpl in P; lia]. simpl.
  apply match_here_sound in M as (taken & R & _ & A & EN).
  rewrite R, (EN EE), append_empty_r. exact A.
Qed.

(** ** The legal-weight classifier *)

Lemma we_hold_that_matches (post : string) (p : nat) (pv : option ascii) :
  match_here (re_i "we hold that") (MState p pv ("we hold that" +:+ post) []) <> None.
Proof. vm_compute. discriminate. Qed.

Lemma we_hold_that_is_ratio (para_text : string) :
  includes para_text "we hold that" = true -> matched ratioDecidendi para_text = true.
Proof.
  intros H. apply includes_split in H as (pre & post & ->).
  unfold ratioDecidendi. apply count_matches_head.
  apply test_found. intros p pv. apply we_hold_that_matches.
Qed.

(* the label after one turn of the loop depends on the label before it only *)
Lemma assign_label (category : string) (n m : nat) (w w' : weight) :
  legalWeight w = legalWeight w' ->
  fst (assign category n w) = fst (assign category m w').
Proof.
  intros H. unfold assign. rewrite H.
  repeat match goal with
         | |- context [if ?b then _ else _] => destruct b
         end; reflexivity.
Qed.

Lemma weigh_label (para_text : string) (w : weight) (entry : string * list regex) :
  legalWeight (weigh para_text w entry)
  = next_label (fst entry) (matched (snd entry) para_text) (legalWeight w).
Proof.
  unfold weigh, next_label, matched.
  destruct (0 <? count_matches (snd entry) para_text)%nat; [|reflexivity].
  cbn [legalWeight]. now apply assign_label.
Qed.

Lemma fold_weigh_label (para_text : string) (entries : list (string * list regex)) (w : weight) :
  legalWeight (fold_left (weigh para_text) entries w)
  = fold_left (fun label entry => next_label (fst entry) (matched (snd entry) para_text) label)
              entries (legalWeight w).
Proof.
  revert w. induction entries as [|e entries IH]; intros w; cbn [fold_left]; [reflexivity|].
  now rewrite IH, weigh_label.
Qed.

Lemma classify_by_effective_priority (para_text : string) :
  legalWeight (classify para_text) = first_matching effective_priority para_text.
Proof.
  unfold classify. rewrite fold_weigh_label.
  cbv [legalMarkers fold_left fst snd first_matching effective_priority legalWeight].
  generalize (matched ratioDecidendi para_text), (matched obiterDicta para_text),
    (matched distinguishing para_text), (matched following para_text),
    (matched overruling para_text), (matched proceduralDirections para_text),
    (matched concessionsAdmissions para_text), (matched judicialDisagreement para_text),
    (matched statutoryInterpretation para_text), (matched evidenceEvaluation para_text).
  intros [] [] [] [] [] [] [] [] [] []; reflexivity.
Qed.

(** C1 (as amended). For every text handed to the classifier the final
    label is that of the first matching category in the order ratio
    decidendi > overruling > statutory interpretation > evidence analysis >
    obiter dicta > distinguishing > following > procedural direction >
    concession/admission > judicial disagreement, and "Supporting
    Observation" when no category matches; in particular every text that
    contains "we hold that" is labelled Ratio Decidendi whatever else it
    matches. *)
Theorem classifier_priority (para_text : string) :
  legalWeight (classify para_text) = first_matching effective_priority para_text /\
  (includes para_text "we hold that" = true ->
   legalWeight (classify para_text) = "Ratio Decidendi").
Proof.
  split; [apply classify_by_effective_priority|].
  intros H. rewrite classify_by_effective_priority.
  cbn [first_matching effective_priority].
  now rewrite (we_hold_that_is_ratio _ H).
Qed.

Lemma classifier_priority_witness :
  includes "It appears so; however we hold that the appeal fails." "we hold that" = true /\
  legalWeight (classify "It appears so; however we hold that the appeal fails.")
  = "Ratio Decidendi".
Proof.
  split; [reflexivity|].
  apply (proj2 (classifier_priority "It appears so; however we hold that the appeal fails.")).
  reflexivity.
Defined.

(** C1 (as stated) fails: a text that matches a pattern of "following" and
    one of "distinguishing" is labelled Distinguishing, where the stated
    order puts following first. *)
Lemma classifier_priority_counterexample :
  let para_text := "Relying on the earlier view, we find the facts are different here." in
  matched following para_text = true /\
  matched distinguishing para_text = true /\
  first_matching stated_priority para_text = "Following Precedent" /\
  legalWeight (classify para_text) = "Distinguishing" /\
  legalWeight (classify para_text) <> first_matching stated_priority para_text.
Proof.
  repeat split; try (vm_compute; reflexivity).
  vm_compute. discriminate.
Qed.

(** ** Query preprocessing on a mistyped section *)

(** C9. For the query "Section 823 IPC bail", preprocessing extracts
    section 823 (once per pattern that finds it), detects the Indian Penal
    Code, flags 823 as invalid against its range 1-511, and the suggestions
    attached to it include 323, which comes from the table of known
    mistakes. *)
Theorem section_823_flagged :
  let processed := preprocessQuery "Section 823 IPC bail" in
  extractedSections processed = ["823"; "823"] /\
  detect_code "Section 823 IPC bail" = "IPC" /\
  range_of_code "IPC" = {| min := 1; max := 511 |} /\
  isValid (validateSection "823" "IPC") = false /\
  lookup_table "823" commonMistakes = Some ["323"; "423"] /\
  validatedSections processed =
    [ {| original := "823"; validated := "323"; vs_isValid := false;
         suggestions := Some ["323"; "423"; "23"] |};
      {| original := "823"; validated := "323"; vs_isValid := false;
         suggestions := Some ["323"; "423"; "23"] |} ] /\
  Forall (fun v => vs_isValid v = false /\
                   exists l, suggestions v = Some l /\ In "323" l)
         (validatedSections processed).
Proof.
  repeat split; try (vm_compute; reflexivity).
  repeat constructor.
  - exists ["323"; "423"; "23"]. split; [vm_compute; reflexivity | simpl; auto].
  - exists ["323"; "423"; "23"]. split; [vm_compute; reflexivity | simpl; auto].
Qed.

(** ** Sentence boundaries and truncation *)

Lemma Qltb_lt (a b : Q) : Qltb a b = true <-> (a < b)%Q.
Proof.
  unfold Qltb. rewrite negb_true_iff. split; intros H.
  - apply Qnot_le_lt. intros L. apply Qle_bool_iff in L. congruence.
  - destruct (Qle_bool b a) eqn:E; [|reflexivity].
    apply Qle_bool_iff in E. exfalso. apply (Qlt_not_le _ _ H E).
Qed.

Lemma Qle_bool_false (a b : Q) : Qle_bool a b = false <-> (b < a)%Q.
Proof.
  split; intros H.
  - apply Qnot_le_lt. intros L. apply Qle_bool_iff in L. congruence.
  - destruct (Qle_bool a b) eqn:E; [|reflexivity].
    apply Qle_bool_iff in E. exfalso. apply (Qlt_not_le _ _ H E).
Qed.

Section Boundary.

Variables (base limit : Q) (searchText : string) (pool : list regex).

Lemma scan_endings_marked (pattern : regex) (indices : list nat) (best : Q) :
  In pattern pool ->
  (forall i, In i indices -> In i (match_indices pattern searchText)) ->
  marked base limit searchText pool best -> marked base limit searchText pool (scan_endings base limit best indices).
Proof.
  intros Hp. unfold scan_endings. revert best.
  induction indices as [|i indices IH]; intros best Hi Hb; simpl; [assumption|].
  apply IH; [intros j Hj; apply Hi; apply in_cons; assumption|].
  destruct (Qltb (base + Qnat i + 1) limit) eqn:L; simpl; [|assumption].
  destruct (Qltb best (base + Qnat i + 1)); [|assumption].
  right. split; [now apply Qltb_lt|].
  exists pattern, i. repeat split; auto. apply Hi. apply in_eq.
Qed.

Lemma scan_fallback_marked (pattern : regex) (indices : list nat) (best : Q) :
  In pattern pool ->
  (forall i, In i indices -> In i (match_indices pattern searchText)) ->
  marked base limit searchText pool best -> marked base limit searchText pool (scan_fallback base limit best indices).
Proof.
  intros Hp. induction indices as [|i indices IH]; intros Hi Hb; simpl; [assumption|].
  destruct (Qltb (base + Qnat i + 1) limit) eqn:L; simpl;
    [|apply IH; auto; intros j Hj; apply Hi; apply in_cons; assumption].
  destruct (Qltb best (base + Qnat i + 1));
    [|apply IH; auto; intros j Hj; apply Hi; apply in_cons; assumption].
  right. split; [now apply Qltb_lt|].
  exists pattern, i. repeat split; auto. apply Hi. apply in_eq.
Qed.

Lemma fold_endings_marked (patterns : list regex) (best : Q) :
  (forall p, In p patterns -> In p pool) ->
  marked base limit searchText pool best ->
  marked base limit searchText pool (fold_left (fun best pattern =>
                       scan_endings base limit best (match_indices pattern searchText))
                    patterns best).
Proof.
  revert best. induction patterns as [|p patterns IH]; intros best Hp Hb; simpl; [assumption|].
  apply IH; [intros q Hq; apply Hp; apply in_cons; assumption|].
  apply scan_endings_marked with (pattern := p); auto. apply Hp. apply in_eq.
Qed.

Lemma fold_fallback_marked (patterns : list regex) (best : Q) :
  (forall p, In p patterns -> In p pool) ->
  marked base limit searchText pool best ->
  marked base limit searchText pool (fold_left (fun best pattern =>
                       scan_fallback base limit best (match_indices pattern searchText))
                    patterns best).
Proof.
  revert best. induction patterns as [|p patterns IH]; intros best Hp Hb; simpl; [assumption|].
  apply IH; [intros q Hq; apply Hp; apply in_cons; assumption|].
  apply scan_fallback_marked with (pattern := p); auto. apply Hp. apply in_eq.
Qed.

End Boundary.

(* The boundary found in a text that does not fit: the hard limit, or a
   marked position below it *)
Lemma boundary_of_long_text (text : string) (startPos maxLength : Q) :
  Qle_bool (Qnat (String.length text)) maxLength = false ->
  let minLength := Qmin 1000 (maxLength * 0.7) in
  let searchText :=
    substring (index_of_number (startPos + minLength))
              (index_of_number (startPos + maxLength + 200)) text in
  let boundary := findSentenceBoundary text startPos maxLength in
  boundary = (startPos + maxLength)%Q \/
  ((0 < boundary)%Q /\
   marked (startPos + minLength) (startPos + maxLength) searchText
          (sentenceEndings ++ fallbackPatterns) boundary).
Proof.
  intros Long minLength searchText. unfold findSentenceBoundary. rewrite Long.
  fold minLength. fold searchText. cbv zeta.
  set (best1 := fold_left _ sentenceEndings _).
  assert (M1 : marked (startPos + minLength) (startPos + maxLength) searchText
                      (sentenceEndings ++ fallbackPatterns) best1).
  { apply fold_endings_marked; [|now left]. intros p Hp. apply in_or_app. now left. }
  set (best2 := if Qeq_bool best1 (-1) then _ else best1).
  assert (M2 : marked (startPos + minLength) (startPos + maxLength) searchText
                      (sentenceEndings ++ fallbackPatterns) best2).
  { unfold best2. destruct (Qeq_bool best1 (-1)); [|assumption].
    apply fold_fallback_marked; [|assumption]. intros p Hp. apply in_or_app. now right. }
  destruct (Qltb 0 best2) eqn:Pos; [right|now left].
  split; [now apply Qltb_lt|assumption].
Qed.

Lemma boundary_within_limit (text : string) (maxLength : Q) :
  Qle_bool (Qnat (String.length text)) maxLength = false ->
  (findSentenceBoundary text 0 maxLength <= maxLength)%Q.
Proof.
  intros Long. destruct (boundary_of_long_text text 0 maxLength Long) as [E|[Pos M]].
  - rewrite E. rewrite Qplus_0_l. apply Qle_refl.
  - destruct M as [E|[L _]].
    + rewrite E in Pos. discriminate Pos.
    + apply Qlt_le_weak. now rewrite Qplus_0_l in L.
Qed.

Lemma Qnat_index_le (x maxLength : Q) :
  (0 <= maxLength)%Q -> (x <= maxLength)%Q -> (Qnat (index_of_number x) <= maxLength)%Q.
Proof.
  intros H0 Hx. unfold Qnat, index_of_number.
  destruct (Z.le_gt_cases 0 (Qfloor x)) as [P|N].
  - rewrite Z2Nat.id by assumption.
    apply Qle_trans with (y := x); [apply Qfloor_le|assumption].
  - replace (Z.to_nat (Qfloor x)) with 0%nat by lia. exact H0.
Qed.

Lemma Qnat_le (a b : nat) : (a <= b)%nat -> (Qnat a <= Qnat b)%Q.
Proof. intros H. unfold Qnat, Qle. simpl. lia. Qed.

(* What truncation returns: a prefix of the cleaned text no longer than
   the maximum, marked complete exactly when the cleaned text fits *)
Lemma truncate_spec (cleanText : string) (maxLength : Q) :
  (0 <= maxLength)%Q ->
  (exists n, fst (truncate cleanText maxLength) = take_chars n cleanText) /\
  (Qnat (String.length (fst (truncate cleanText maxLength))) <= maxLength)%Q /\
  (snd (truncate cleanText maxLength) = true <->
   (Qnat (String.length cleanText) <= maxLength)%Q).
Proof.
  intros H0. unfold truncate.
  destruct (Qle_bool (Qnat (String.length cleanText)) maxLength) eqn:Fits; cbn [fst snd].
  - apply Qle_bool_iff in Fits. repeat split; auto.
    exists (String.length cleanText). now rewrite take_chars_all.
  - pose proof (boundary_within_limit _ _ Fits) as B.
    rewrite substring_prefix. split; [eauto|]. split.
    + rewrite length_take_chars.
      apply Qle_trans with (y := Qnat (index_of_number (findSentenceBoundary cleanText 0 maxLength)));
        [apply Qnat_le, Nat.le_min_l|].
      now apply Qnat_index_le.
    + apply Qle_bool_false in Fits. split; intros H.
      * apply Qle_bool_iff in H. exfalso.
        apply (Qlt_irrefl maxLength).
        eapply Qlt_le_trans; [exact Fits|]. eapply Qle_trans; eassumption.
      * exfalso. apply (Qlt_irrefl maxLength). eapply Qlt_le_trans; eassumption.
Qed.

Lemma paragraphs_from_lookup (maxLength : Q) (fragments : list string) :
  forall (start i : nat) (fragment : string),
    fragments !! i = Some fragment ->
    paragraphs_from maxLength start fragments !! i
    = Some (complete_paragraph maxLength (start + i) fragment).
Proof.
  induction fragments as [|f fragments IH]; intros start i fragment H; [discriminate|].
  destruct i as [|i]; simpl in *.
  - injection H as ->. now rewrite Nat.add_0_r.
  - rewrite (IH (S start) i fragment H). do 2 f_equal. lia.
Qed.

Lemma paragraphs_from_length (maxLength : Q) (fragments : list string) (start : nat) :
  length (paragraphs_from maxLength start fragments) = length fragments.
Proof. revert start. induction fragments; intros start; simpl; auto. Qed.

(** C10. For every list of fragments and every maximum length (a
    non-negative number), extractCompleteParagraphs returns one paragraph
    per fragment, in the same order: the paragraph at index i is a prefix
    of the cleaned text of the fragment at index i, no longer than the
    maximum, and it is marked complete exactly when that cleaned text fits
    within the maximum. *)
Theorem paragraphs_complete_or_cut (fragments : list string) (maxLength : Q)
  (includeParaNumbers : bool) :
  (0 <= maxLength)%Q ->
  let paragraphs := extractCompleteParagraphs fragments maxLength includeParaNumbers in
  length paragraphs = length fragments /\
  forall (i : nat) (fragment : string),
    fragments !! i = Some fragment ->
    exists p,
      paragraphs !! i = Some p /\
      (exists n, text p = take_chars n (stripHtml fragment false)) /\
      (Qnat (String.length (text p)) <= maxLength)%Q /\
      (isComplete p = true <->
       (Qnat (String.length (stripHtml fragment false)) <= maxLength)%Q).
Proof.
  intros H0 paragraphs. split; [apply paragraphs_from_length|].
  intros i fragment H.
  exists (complete_paragraph maxLength (0 + i) fragment).
  split; [now apply paragraphs_from_lookup|].
  cbn [complete_paragraph text isComplete].
  now apply truncate_spec.
Qed.

Lemma paragraphs_complete_or_cut_witness :
  (0 <= 10)%Q /\
  length (extractCompleteParagraphs ["aaaa. Bbbbbb. Cccccccccccccc"; "<p>short</p>"] 10 true)
  = 2%nat.
Proof.
  assert (H0 : (0 <= 10)%Q) by (unfold Qle; simpl; lia).
  split; [exact H0|].
  exact (proj1 (paragraphs_complete_or_cut
                  ["aaaa. Bbbbbb. Cccccccccccccc"; "<p>short</p>"] 10 true H0)).
Defined.

(* where the matches that a loop over a g-flagged expression visits lie *)
Lemma matches_from_aligned (r : regex) :
  forall (fuel : nat) (s : string) (p : nat) (pv : option ascii) (b e : mstate),
    In (b, e) (matches_from fuel r s p pv) ->
    exists pre, s = pre +:+ rest b /\ pos b = (p + String.length pre)%nat /\
                match_here r b = Some e.
Proof.
  induction fuel as [|fuel IH]; intros s p pv b e H; simpl in H; [contradiction|].
  destruct (search_in r s p pv) as [[b0 e0]|] eqn:S; [|contradiction].
  pose proof (search_in_sound _ _ _ _ _ _ S) as (pre0 & -> & P0 & M0).
  destruct (pos e0 <=? pos b0)%nat.
  - destruct H as [H|[]]. injection H as <- <-. eauto.
  - destruct H as [H|H]; [injection H as <- <-; eauto|].
    apply IH in H as (pre1 & R1 & P1 & M1).
    apply match_here_sound in M0 as (taken & R0 & PE & _).
    exists (pre0 +:+ taken +:+ pre1). repeat split; auto.
    + now rewrite R0, R1, !append_assoc.
    + rewrite !length_append. lia.
Qed.

Lemma first_char_matched (cs : cset) (r : regex) (b e : mstate) :
  match_here (Seq (Chr cs) r) b = Some e ->
  exists c s', rest b = String c s' /\ cset_mem cs c = true.
Proof.
  unfold match_here. cbn [run]. destruct (rest b) as [|c s']; [discriminate|].
  destruct (cset_mem cs c) eqn:M; [eauto|discriminate].
Qed.

(* the code unit at an index where a boundary pattern matched *)
Lemma break_at_index (pattern : regex) (s : string) (index : nat) :
  In pattern (sentenceEndings ++ fallbackPatterns) ->
  In index (match_indices pattern s) ->
  exists pre c post,
    s = pre +:+ String c post /\ String.length pre = index /\ is_break c = true.
Proof.
  intros Hp Hi. unfold match_indices in Hi.
  apply in_map_iff in Hi as ([b e] & <- & Hi). cbn [fst].
  apply matches_from_aligned in Hi as (pre & -> & P & M).
  assert (F : exists c s', rest b = String c s' /\ is_break c = true).
  { cbv [sentenceEndings fallbackPatterns app] in Hp.
    repeat (destruct Hp as [<-|Hp]; [
      match type of M with
      | match_here ?r _ = _ => let r' := eval vm_compute in r in change r with r' in M
      end;
      apply first_char_matched in M as (c & s' & R & C);
      exists c, s'; split; [exact R|];
      simpl in C; apply Ascii.eqb_eq in C; subst c; reflexivity |]).
    contradiction. }
  destruct F as (c & s' & R & B).
  exists pre, c, s'. rewrite R. repeat split; auto; simpl in P; lia.
Qed.

Lemma take_chars_through (u v : string) (c : ascii) :
  take_chars (String.length u + 1) (u +:+ String c v) = u +:+ String c "".
Proof. induction u as [|d u IH]; simpl; [reflexivity|]. now rewrite IH. Qed.

Lemma index_after (index : nat) :
  index_of_number (0 + Qmin 1000 (1500 * 0.7) + Qnat index + 1) = (1000 + index + 1)%nat.
Proof.
  unfold index_of_number, Qnat.
  change (0 + Qmin 1000 (1500 * 0.7))%Q with (1000 # 1)%Q.
  unfold Qfloor, Qplus, inject_Z. cbn [Qnum Qden Pos.mul Pos.to_nat].
  rewrite Z.div_1_r. lia.
Qed.

Lemma position_below (index : nat) :
  (0 + Qmin 1000 (1500 * 0.7) + Qnat index + 1 < 0 + 1500)%Q -> (1000 + index + 1 < 1500)%nat.
Proof.
  change (0 + Qmin 1000 (1500 * 0.7))%Q with (1000 # 1)%Q.
  unfold Qlt, Qplus, Qnat, inject_Z. cbn [Qnum Qden Pos.mul]. lia.
Qed.

(** ** The boundary that is chosen *)

Lemma Qnat_nonneg (n : nat) : (0 <= Qnat n)%Q.
Proof. unfold Qnat, Qle. simpl. lia. Qed.

Lemma Qnat_le_inv (a b : nat) : (Qnat a <= Qnat b)%Q -> (a <= b)%nat.
Proof. unfold Qnat, Qle. simpl. lia. Qed.

Lemma position_positive (base : Q) (i : nat) : (0 <= base)%Q -> (0 < base + Qnat i + 1)%Q.
Proof. intros H. pose proof (Qnat_nonneg i). lra. Qed.

Lemma Qltb_false (a b : Q) : Qltb a b = false <-> (b <= a)%Q.
Proof.
  unfold Qltb. rewrite negb_false_iff. apply Qle_bool_iff.
Qed.

Section Chosen.

Variables (base limit : Q) (searchText : string).
Hypothesis base_nonneg : (0 <= base)%Q.

(* one turn of either loop never lowers the best position *)
Lemma scan_endings_grows (indices : list nat) (best : Q) :
  (best <= scan_endings base limit best indices)%Q /\
  forall i, In i indices -> (base + Qnat i + 1 < limit)%Q ->
            (base + Qnat i + 1 <= scan_endings base limit best indices)%Q.
Proof.
  unfold scan_endings. revert best.
  induction indices as [|j indices IH]; intros best; cbn [fold_left].
  - split; [apply Qle_refl|contradiction].
  - set (best' := if Qltb (base + Qnat j + 1) limit && Qltb best (base + Qnat j + 1)
                  then (base + Qnat j + 1)%Q else best).
    destruct (IH best') as [G M].
    assert (B : (best <= best')%Q).
    { unfold best'. destruct (Qltb (base + Qnat j + 1) limit); cbn [andb]; [|apply Qle_refl].
      destruct (Qltb best (base + Qnat j + 1)) eqn:L; [|apply Qle_refl].
      apply Qltb_lt in L. now apply Qlt_le_weak. }
    split; [eapply Qle_trans; eassumption|].
    intros i [<- | Hi] Below; [|now apply M].
    eapply Qle_trans; [|exact G]. unfold best'.
    apply Qltb_lt in Below. rewrite Below. cbn [andb].
    destruct (Qltb best (base + Qnat j + 1)) eqn:L; [apply Qle_refl|].
    now apply Qltb_false in L.
Qed.

Lemma fold_endings_grows (patterns : list regex) (best : Q) :
  let result :=
    fold_left (fun best pattern =>
                 scan_endings base limit best (match_indices pattern searchText))
              patterns best in
  (best <= result)%Q /\
  forall i, candidate base limit patterns searchText i -> (base + Qnat i + 1 <= result)%Q.
Proof.
  cbv zeta. revert best. induction patterns as [|p patterns IH]; intros best; cbn [fold_left].
  - split; [apply Qle_refl|]. intros i [(q & [] & _) _].
  - destruct (IH (scan_endings base limit best (match_indices p searchText))) as [G M].
    destruct (scan_endings_grows (match_indices p searchText) best) as [G1 M1].
    split; [eapply Qle_trans; eassumption|].
    intros i [(q & [<- | Hq] & Hi) Below].
    + eapply Qle_trans; [|exact G]. now apply M1.
    + apply M. split; [exists q; now split|exact Below].
Qed.

Lemma scan_endings_none (indices : list nat) (best : Q) :
  (forall i, In i indices -> ~ (base + Qnat i + 1 < limit)%Q) ->
  scan_endings base limit best indices = best.
Proof.
  unfold scan_endings. revert best.
  induction indices as [|j indices IH]; intros best H; cbn [fold_left]; [reflexivity|].
  destruct (Qltb (base + Qnat j + 1) limit) eqn:L.
  - apply Qltb_lt in L. exfalso. apply (H j); [now left|exact L].
  - cbn [andb]. apply IH. intros i Hi. apply H. now right.
Qed.

Lemma fold_endings_none (patterns : list regex) (best : Q) :
  (forall i, ~ candidate base limit patterns searchText i) ->
  fold_left (fun best pattern =>
               scan_endings base limit best (match_indices pattern searchText))
            patterns best = best.
Proof.
  revert best. induction patterns as [|p patterns IH]; intros best H; cbn [fold_left];
    [reflexivity|].
  rewrite scan_endings_none.
  - apply IH. intros i [(q & Hq & Hi) Below]. apply (H i).
    split; [exists q; split; [now right|exact Hi]|exact Below].
  - intros i Hi Below. apply (H i). split; [exists p; split; [now left|exact Hi]|exact Below].
Qed.

Lemma scan_fallback_none (indices : list nat) (best : Q) :
  (forall i, In i indices -> ~ (base + Qnat i + 1 < limit)%Q) ->
  scan_fallback base limit best indices = best.
Proof.
  induction indices as [|j indices IH]; intros H; cbn [scan_fallback]; [reflexivity|].
  destruct (Qltb (base + Qnat j + 1) limit) eqn:L.
  - apply Qltb_lt in L. exfalso. apply (H j); [now left|exact L].
  - cbn [andb]. apply IH. intros i Hi. apply H. now right.
Qed.

Lemma fold_fallback_none (patterns : list regex) (best : Q) :
  (forall i, ~ candidate base limit patterns searchText i) ->
  fold_left (fun best pattern =>
               scan_fallback base limit best (match_indices pattern searchText))
            patterns best = best.
Proof.
  revert best. induction patterns as [|p patterns IH]; intros best H; cbn [fold_left];
    [reflexivity|].
  rewrite scan_fallback_none.
  - apply IH. intros i [(q & Hq & Hi) Below]. apply (H i).
    split; [exists q; split; [now right|exact Hi]|exact Below].
  - intros i Hi Below. apply (H i). split; [exists p; split; [now left|exact Hi]|exact Below].
Qed.

(* a position once taken stays positive, and a fitting index is taken
   when nothing was taken before *)
Lemma scan_fallback_positive (indices : list nat) (best : Q) :
  (0 < best)%Q \/
  (best = (-1)%Q /\ exists i, In i indices /\ (base + Qnat i + 1 < limit)%Q) ->
  (0 < scan_fallback base limit best indices)%Q.
Proof.
  induction indices as [|j indices IH]; intros H; cbn [scan_fallback].
  - destruct H as [H | (_ & i & [] & _)]. exact H.
  - destruct (Qltb (base + Qnat j + 1) limit && Qltb best (base + Qnat j + 1)) eqn:T;
      [now apply position_positive|].
    apply IH. destruct H as [H | (-> & i & [<- | Hi] & Below)].
    + now left.
    + exfalso. apply Qltb_lt in Below. rewrite Below in T. cbn [andb] in T.
      apply Qltb_false in T. pose proof (position_positive base j base_nonneg). lra.
    + right. split; [reflexivity|]. now exists i.
Qed.

Lemma fold_fallback_positive (patterns : list regex) (best : Q) :
  (0 < best)%Q \/
  (best = (-1)%Q /\ exists i, candidate base limit patterns searchText i) ->
  (0 < fold_left (fun best pattern =>
                    scan_fallback base limit best (match_indices pattern searchText))
                 patterns best)%Q.
Proof.
  revert best. induction patterns as [|p patterns IH]; intros best H; cbn [fold_left].
  - destruct H as [H | (_ & i & (q & [] & _) & _)]. exact H.
  - apply IH.
    destruct H as [H | (-> & i & (q & [<- | Hq] & Hi) & Below)].
    + left. apply scan_fallback_positive. now left.
    + left. apply scan_fallback_positive. right. split; [reflexivity|]. now exists i.
    + destruct (Qlt_le_dec 0 (scan_fallback base limit (-1)
                                (match_indices p searchText))) as [P | N]; [now left|].
      right. split.
      * destruct (scan_fallback_marked base limit searchText [p] p
                    (match_indices p searchText) (-1)) as [E | [_ (r & k & _ & _ & E)]];
          [now left|auto|now left|exact E|].
        exfalso. rewrite E in N. pose proof (position_positive base k base_nonneg). lra.
      * exists i. split; [exists q; now split|exact Below].
Qed.

End Chosen.

(* The boundary of a text that does not fit, by what the patterns find *)
Lemma boundary_chosen (text : string) (startPos maxLength : Q) :
  Qle_bool (Qnat (String.length text)) maxLength = false ->
  let minLength := Qmin 1000 (maxLength * 0.7) in
  let base := (startPos + minLength)%Q in
  let limit := (startPos + maxLength)%Q in
  let searchText :=
    substring (index_of_number (startPos + minLength))
              (index_of_number (startPos + maxLength + 200)) text in
  let boundary := findSentenceBoundary text startPos maxLength in
  (0 <= base)%Q ->
  ((exists i, candidate base limit sentenceEndings searchText i) ->
   exists i, candidate base limit sentenceEndings searchText i /\
             boundary = (base + Qnat i + 1)%Q /\
             forall j, candidate base limit sentenceEndings searchText j -> (j <= i)%nat) /\
  ((forall i, ~ candidate base limit sentenceEndings searchText i) ->
   (exists i, candidate base limit fallbackPatterns searchText i) ->
   exists i, candidate base limit fallbackPatterns searchText i /\
             boundary = (base + Qnat i + 1)%Q) /\
  ((forall i, ~ candidate base limit sentenceEndings searchText i) ->
   (forall i, ~ candidate base limit fallbackPatterns searchText i) ->
   boundary = (startPos + maxLength)%Q).
Proof.
  intros Long minLength base limit searchText boundary B0.
  unfold boundary, findSentenceBoundary. rewrite Long.
  fold minLength. fold searchText. cbv zeta. fold base. fold limit.
  set (best1 := fold_left _ sentenceEndings _).
  split; [|split].
  - intros (j & Cj).
    destruct (fold_endings_grows base limit searchText sentenceEndings (-1)) as [_ M].
    fold best1 in M.
    assert (P : (0 < best1)%Q).
    { eapply Qlt_le_trans; [apply (position_positive base j B0)|now apply M]. }
    destruct (fold_endings_marked base limit searchText sentenceEndings sentenceEndings (-1))
      as [E | [Below (p & i & Hp & Hi & E)]]; [auto|now left|..].
    + fold best1 in E. rewrite E in P. discriminate P.
    + fold best1 in E, Below.
      assert (N : Qeq_bool best1 (-1) = false).
      { destruct (Qeq_bool best1 (-1)) eqn:Q; [|reflexivity].
        apply Qeq_bool_iff in Q. rewrite Q in P. discriminate P. }
      rewrite N. apply Qltb_lt in P. rewrite P.
      exists i. split; [|split; [exact E|]].
      * split; [now exists p|]. now rewrite <- E.
      * intros k Ck. apply M in Ck. rewrite E in Ck. apply Qnat_le_inv. lra.
  - intros None (j & Cj).
    assert (E1 : best1 = (-1)%Q) by (unfold best1; now apply fold_endings_none).
    rewrite E1. change (Qeq_bool (-1) (-1)) with true. cbv iota.
    set (best2 := fold_left _ fallbackPatterns _).
    assert (P : (0 < best2)%Q).
    { apply fold_fallback_positive; [exact B0|]. right. split; [reflexivity|now exists j]. }
    destruct (fold_fallback_marked base limit searchText fallbackPatterns fallbackPatterns (-1))
      as [E | [Below (p & i & Hp & Hi & E)]]; [auto|now left|..].
    + fold best2 in E. rewrite E in P. discriminate P.
    + fold best2 in E, Below. apply Qltb_lt in P. rewrite P.
      exists i. split; [|exact E]. split; [now exists p|]. now rewrite <- E.
  - intros None1 None2.
    assert (E1 : best1 = (-1)%Q) by (unfold best1; now apply fold_endings_none).
    rewrite E1. change (Qeq_bool (-1) (-1)) with true. cbv iota.
    rewrite fold_fallback_none by assumption. reflexivity.
Qed.

Lemma candidate_below (pool : list regex) (window : string) (i : nat) :
  candidate (0 + Qmin 1000 (1500 * 0.7)) (0 + 1500) pool window i
  <-> boundary_at pool window i /\ (i < 499)%nat.
Proof.
  unfold candidate.
  change (0 + Qmin 1000 (1500 * 0.7))%Q with (1000 # 1)%Q.
  assert (E : ((1000 # 1) + Qnat i + 1 < 0 + 1500)%Q <-> (i < 499)%nat).
  { unfold Qlt, Qplus, Qnat, inject_Z. cbn [Qnum Qden Pos.mul]. lia. }
  now rewrite E.
Qed.

(* a cut right after an index of the window where a boundary pattern
   matched ends with one of the marks *)
Lemma cut_after_break (cleanText : string) (pool : list regex) (i : nat) :
  String.length cleanText = 3000%nat ->
  (forall p, In p pool -> In p (sentenceEndings ++ fallbackPatterns)) ->
  boundary_at pool (substring 1000 1700 cleanText) i ->
  exists pre c, take_chars (1001 + i) cleanText = pre +:+ String c "" /\ is_break c = true.
Proof.
  intros Len Sub (pattern & Hp & Hi).
  apply (break_at_index _ _ _ (Sub _ Hp)) in Hi as (pre & c & post & S & L & B).
  unfold substring in S. rewrite Len in S.
  change (Nat.max (Nat.min 1000 3000) (Nat.min 1700 3000)
          - Nat.min (Nat.min 1000 3000) (Nat.min 1700 3000))%nat with 700%nat in S.
  change (Nat.min (Nat.min 1000 3000) (Nat.min 1700 3000)) with 1000%nat in S.
  exists (take_chars 1000 cleanText +:+ pre), c. split; [|exact B].
  assert (T : cleanText
              = (take_chars 1000 cleanText +:+ pre)
                +:+ String c (post +:+ drop_chars 700 (drop_chars 1000 cleanText))).
  { assert (D : drop_chars 1000 cleanText
                = (pre +:+ String c post) +:+ drop_chars 700 (drop_chars 1000 cleanText))
      by (rewrite <- S; symmetry; apply take_drop_chars).
    etransitivity; [symmetry; apply (take_drop_chars 1000)|].
    rewrite D at 1. rewrite !append_assoc. reflexivity. }
  rewrite T at 1.
  replace (1001 + i)%nat
    with (String.length (take_chars 1000 cleanText +:+ pre) + 1)%nat
    by (rewrite length_append, length_take_chars, Len, L;
        change (Nat.min 1000 3000) with 1000%nat; lia).
  apply take_chars_through.
Qed.

(** C7 (as amended). For every 3000-character text and the maximum 1500,
    truncation returns a prefix of more than 1000 and at most 1500
    characters, marked incomplete.  The text from index 1000 to index 1700
    is searched for boundaries, and an index i of it counts when the cut
    after it, at 1001 + i, stays below 1500.  When a sentence-ending
    pattern matches at such an index, the cut is made after the last such
    index; otherwise, when a fallback pattern matches at such an index, the
    cut is made after such an index; in both cases the text returned ends
    with one of the marks . ? ! ; : or a line feed.  Only when no pattern
    matches at such an index is the text cut after its first 1500
    characters, wherever that falls.  For every 800-character text and the
    same maximum the whole text is returned, marked complete. *)
Theorem truncation_at_1500 (cleanText : string) :
  (String.length cleanText = 3000%nat ->
   let window := substring 1000 1700 cleanText in
   let ending i := boundary_at sentenceEndings window i /\ (i < 499)%nat in
   let fallback i := boundary_at fallbackPatterns window i /\ (i < 499)%nat in
   let marked_end (s : string) := exists pre c, s = pre +:+ String c "" /\ is_break c = true in
   snd (truncate cleanText 1500) = false /\
   (exists n,
      fst (truncate cleanText 1500) = take_chars n cleanText /\
      (1000 < n <= 1500)%nat /\
      (n = 1500%nat \/ marked_end (take_chars n cleanText))) /\
   ((exists i, ending i) ->
    exists i,
      ending i /\ (forall j, ending j -> (j <= i)%nat) /\
      fst (truncate cleanText 1500) = take_chars (1001 + i) cleanText /\
      marked_end (take_chars (1001 + i) cleanText)) /\
   ((forall i, ~ ending i) -> (exists i, fallback i) ->
    exists i,
      fallback i /\
      fst (truncate cleanText 1500) = take_chars (1001 + i) cleanText /\
      marked_end (take_chars (1001 + i) cleanText)) /\
   ((forall i, ~ ending i) -> (forall i, ~ fallback i) ->
    fst (truncate cleanText 1500) = take_chars 1500 cleanText)) /\
  (String.length cleanText = 800%nat -> truncate cleanText 1500 = (cleanText, true)).
Proof.
  split; intros Len; [|unfold truncate; rewrite Len; reflexivity].
  cbv zeta.
  assert (Long : Qle_bool (Qnat (String.length cleanText)) 1500 = false)
    by (rewrite Len; reflexivity).
  assert (B0 : (0 <= 0 + Qmin 1000 (1500 * 0.7))%Q) by discriminate.
  pose proof (boundary_chosen cleanText 0 1500 Long B0) as (Ce & Cf & Cn).
  change (index_of_number (0 + Qmin 1000 (1500 * 0.7))) with 1000%nat in Ce, Cf, Cn.
  change (index_of_number (0 + 1500 + 200)) with 1700%nat in Ce, Cf, Cn.
  assert (Cut : forall i,
            findSentenceBoundary cleanText 0 1500
            = (0 + Qmin 1000 (1500 * 0.7) + Qnat i + 1)%Q ->
            fst (truncate cleanText 1500) = take_chars (1001 + i) cleanText).
  { intros i E. unfold truncate. rewrite Long. cbn [fst].
    rewrite substring_prefix, E, index_after. f_equal. lia. }
  assert (Hard : findSentenceBoundary cleanText 0 1500 = (0 + 1500)%Q ->
                 fst (truncate cleanText 1500) = take_chars 1500 cleanText).
  { intros E. unfold truncate. rewrite Long. cbn [fst]. now rewrite substring_prefix, E. }
  split; [|split; [|split; [|split]]].
  - unfold truncate. rewrite Long. cbn [snd].
    apply Qle_bool_false. apply Qle_lt_trans with (y := 1500%Q).
    + now apply boundary_within_limit.
    + apply Qle_bool_false. exact Long.
  - destruct (boundary_of_long_text cleanText 0 1500 Long) as [E|[Pos [E|[Below M]]]].
    + exists 1500%nat. split; [now apply Hard|]. split; [lia|now left].
    + rewrite E in Pos. discriminate Pos.
    + destruct M as (pattern & index & Hp & Hi & E).
      rewrite E in Below. apply position_below in Below.
      exists (1001 + index)%nat. split; [now apply Cut|]. split; [lia|right].
      change (index_of_number (0 + Qmin 1000 (1500 * 0.7))) with 1000%nat in Hi.
      change (index_of_number (0 + 1500 + 200)) with 1700%nat in Hi.
      apply (cut_after_break cleanText (sentenceEndings ++ fallbackPatterns));
        [exact Len|auto|now exists pattern].
  - intros (j & Ej). destruct Ce as (i & Ci & E & Max); [exists j; now apply candidate_below|].
    exists i. apply candidate_below in Ci.
    split; [exact Ci|]. split; [intros k Ek; apply Max; now apply candidate_below|].
    split; [now apply Cut|].
    apply (cut_after_break cleanText sentenceEndings); [exact Len| |apply Ci].
    intros p Hp. apply in_or_app. now left.
  - intros None (j & Fj).
    destruct Cf as (i & Ci & E);
      [intros k Ck; apply (None k); now apply candidate_below
      |exists j; now apply candidate_below|].
    exists i. apply candidate_below in Ci.
    split; [exact Ci|]. split; [now apply Cut|].
    apply (cut_after_break cleanText fallbackPatterns); [exact Len| |apply Ci].
    intros p Hp. apply in_or_app. now right.
  - intros None1 None2. apply Hard, Cn.
    + intros k Ck. apply (None1 k). now apply candidate_below.
    + intros k Ck. apply (None2 k). now apply candidate_below.
Qed.

Lemma truncation_at_1500_witness :
  let cleanText := repeat_text "It was. " 375 in
  String.length cleanText = 3000%nat /\
  boundary_at sentenceEndings (substring 1000 1700 cleanText) 494 /\
  fst (truncate cleanText 1500) = repeat_text "It was. " 186 +:+ "It was." /\
  exists i,
    (boundary_at sentenceEndings (substring 1000 1700 cleanText) i /\ (i < 499)%nat) /\
    fst (truncate cleanText 1500) = take_chars (1001 + i) cleanText.
Proof.
  intros cleanText.
  assert (Len : String.length cleanText = 3000%nat) by (vm_compute; reflexivity).
  assert (E : boundary_at sentenceEndings (substring 1000 1700 cleanText) 494).
  { exists (re "\.\s+[A-Z]"). split; [now left|]. vm_compute. tauto. }
  split; [exact Len|]. split; [exact E|]. split; [vm_compute; reflexivity|].
  destruct (proj1 (proj2 (proj2 (proj1 (truncation_at_1500 cleanText) Len))))
    as (i & Ei & _ & T & _).
  - exists 494%nat. split; [exact E|lia].
  - exists i. split; [exact Ei|exact T].
Defined.

(** C7 (as stated) fails: a 3000-character text without any mark is cut
    after its first 1500 characters, in the middle of a word. *)
Lemma truncation_counterexample :
  let cleanText := repeat_text "abcdefg " 375 in
  String.length cleanText = 3000%nat /\
  truncate cleanText 1500 = (repeat_text "abcdefg " 187 +:+ "abcd", false) /\
  all_chars (fun c => negb (is_break c)) (fst (truncate cleanText 1500)) = true.
Proof. vm_compute. repeat split; reflexivity. Qed.

(** ** Relevance scores *)

Lemma identifyCourt_factor (doc : SearchResult) (score : Q) :
  (if String.eqb (identifyCourt doc) "supreme" then dmul score (double 1.5)
   else if String.eqb (identifyCourt doc) "high" then dmul score (double 1.2)
   else if String.eqb (identifyCourt doc) "district" then dmul score (double 1.0)
   else if String.eqb (identifyCourt doc) "tribunal" then dmul score (double 0.9)
   else score)
  = multiplied score (court_factor (court_label doc)).
Proof.
  unfold identifyCourt, court_factor, label_has.
  set (s := toLowerCase (court_label doc)).
  replace (existsb (fun word => includes s word) highCourts)
    with (existsb (fun hc => includes s hc) highCourts) by reflexivity.
  destruct (includes s "supreme" || includes s "apex"); [reflexivity|].
  destruct (includes s "high court" || includes s "hc"); [reflexivity|].
  destruct (includes s "district" || includes s "sessions"); [reflexivity|].
  destruct (includes s "tribunal" || includes s "appellate"); [reflexivity|].
  destruct (includes s "commission"); [reflexivity|].
  destruct (existsb _ highCourts); reflexivity.
Qed.

(** C4 (as amended). The relevance score of a document is 1.0 multiplied
    in turn by a court factor, a recency factor and a citation factor, a
    factor that does not apply leaving the score as it is; the products
    are those of binary64 numbers.  The court factor is decided by the
    first keyword group that the lower-cased court label holds, in the
    order supreme/apex (1.5), high court/hc (1.2), district/sessions (1.0),
    tribunal/appellate (0.9), commission (none), a named high court (1.2),
    anything else (none): so it is 1.5 for every label with "supreme" or
    "apex", and 1.0 for every label with "district" or "sessions" that has
    none of "supreme", "apex", "high court" and "hc".  The recency factor
    is 1.3 when the publish year is not more than 2 years before the
    current year.  The citation factor is 1.4 when numcitedby > 20, else
    1.2 when numcitedby > 10: never both. *)
Theorem relevance_score_factors (currentYear : Z) (doc : SearchResult)
  (hierarchy : gmap string Q) :
  let label := court_label doc in
  let has := label_has label in
  let cited := num_or (numcitedby doc) 0 in
  calculateRelevanceScore currentYear doc hierarchy
  = multiplied (multiplied (multiplied (double 1.0) (court_factor label))
                           (recency_factor currentYear doc))
               (citation_factor doc) /\
  (* the court factor *)
  (has "supreme" = true \/ has "apex" = true -> court_factor label = Some 1.5%Q) /\
  (has "supreme" = false -> has "apex" = false ->
   ((has "high court" = true \/ has "hc" = true -> court_factor label = Some 1.2%Q) /\
    (has "high court" = false -> has "hc" = false ->
     ((has "district" = true \/ has "sessions" = true -> court_factor label = Some 1.0%Q) /\
      (has "district" = false -> has "sessions" = false ->
       ((has "tribunal" = true \/ has "appellate" = true ->
         court_factor label = Some 0.9%Q) /\
        (has "tribunal" = false -> has "appellate" = false ->
         ((has "commission" = true -> court_factor label = None) /\
          (has "commission" = false ->
           ((existsb has highCourts = true -> court_factor label = Some 1.2%Q) /\
            (existsb has highCourts = false -> court_factor label = None))))))))))) /\
  (* the recency factor *)
  (forall year, publish_year doc = Some year ->
     (currentYear - year <= 2 -> recency_factor currentYear doc = Some 1.3%Q) /\
     (2 < currentYear - year -> recency_factor currentYear doc = None)) /\
  (publish_year doc = None -> recency_factor currentYear doc = None) /\
  (* the citation factor *)
  ((20 < cited)%Q -> citation_factor doc = Some 1.4%Q) /\
  ((10 < cited)%Q -> (cited <= 20)%Q -> citation_factor doc = Some 1.2%Q) /\
  ((cited <= 10)%Q -> citation_factor doc = None) /\
  (* the values of the score after the court factor alone *)
  (double 1.0 == 1)%Q /\
  (multiplied (double 1.0) (Some 1.5%Q) == 1.5)%Q /\
  (multiplied (double 1.0) (Some 1.0%Q) == 1.0)%Q /\
  (multiplied (double 1.0) (Some 1.2%Q) == double 1.2)%Q /\
  (multiplied (double 1.0) (Some 0.9%Q) == double 0.9)%Q.
Proof.
  cbv zeta. split; [|split; [|split; [|split; [|split; [|split; [|split; [|split]]]]]]].
  - unfold calculateRelevanceScore, recency_factor, citation_factor. cbv zeta.
    rewrite identifyCourt_factor.
    destruct (publish_year doc) as [year|]; [destruct (currentYear - year <=? 2)|];
      destruct (Qltb 20 _); try destruct (Qltb 10 _); reflexivity.
  - unfold court_factor. intros [-> | ->]; [reflexivity|]. now rewrite orb_true_r.
  - unfold court_factor. intros -> ->. cbn [orb]. split.
    { intros [-> | ->]; [reflexivity|]. now rewrite orb_true_r. }
    intros -> ->. cbn [orb]. split.
    { intros [-> | ->]; [reflexivity|]. now rewrite orb_true_r. }
    intros -> ->. cbn [orb]. split.
    { intros [-> | ->]; [reflexivity|]. now rewrite orb_true_r. }
    intros -> ->. cbn [orb]. split; [now intros ->|].
    intros ->. split; now intros ->.
  - unfold recency_factor. intros year ->. split; intros H.
    + apply Z.leb_le in H. now rewrite H.
    + apply Z.leb_gt in H. now rewrite H.
  - unfold recency_factor. now intros ->.
  - unfold citation_factor. intros H. apply Qltb_lt in H. now rewrite H.
  - unfold citation_factor. intros H10 H20.
    apply Qltb_lt in H10. rewrite H10.
    destruct (Qltb 20 _) eqn:E; [|reflexivity].
    apply Qltb_lt in E. exfalso. apply (Qlt_not_le _ _ E H20).
  - unfold citation_factor. intros H.
    destruct (Qltb 20 _) eqn:E20.
    { apply Qltb_lt in E20. exfalso. apply (Qlt_irrefl 20).
      eapply Qlt_le_trans; [exact E20|]. eapply Qle_trans; [exact H|]. discriminate. }
    destruct (Qltb 10 _) eqn:E10; [|reflexivity].
    apply Qltb_lt in E10. exfalso. apply (Qlt_not_le _ _ E10 H).
  - repeat split; vm_compute; reflexivity.
Qed.

Lemma relevance_score_factors_witness :
  let doc := mkSearchResult 7 "State v. Ram" (DocStr "Supreme Court of India")
                            (Some "2025-03-01") None None (Some 25%Q) None None None None None in
  (label_has (court_label doc) "supreme" = true \/ label_has (court_label doc) "apex" = true) /\
  court_factor (court_label doc) = Some 1.5%Q /\
  recency_factor 2026 doc = Some 1.3%Q /\
  citation_factor doc = Some 1.4%Q /\
  calculateRelevanceScore 2026 doc ∅
  = dmul (dmul (dmul (double 1.0) (double 1.5)) (double 1.3)) (double 1.4) /\
  (calculateRelevanceScore 2026 doc ∅ == 6147413491360727 # 2251799813685248)%Q.
Proof.
  intros doc.
  assert (H : label_has (court_label doc) "supreme" = true \/
              label_has (court_label doc) "apex" = true) by (left; reflexivity).
  pose proof (relevance_score_factors 2026 doc ∅) as T. cbv zeta in T.
  destruct T as (E & C & _ & R & _ & N & _).
  assert (P : publish_year doc = Some 2025) by reflexivity.
  assert (L : (20 < num_or (numcitedby doc) 0)%Q) by reflexivity.
  split; [exact H|]. split; [exact (C H)|].
  split; [apply (proj1 (R 2025 P)); lia|]. split; [exact (N L)|].
  split.
  - rewrite E, (C H), (proj1 (R 2025 P)) by lia. now rewrite (N L).
  - vm_compute. reflexivity.
Defined.

(** C4 (as stated) fails: a label that holds "sessions" and "high court"
    is taken for a high court, and the factor is 1.2, not 1.0. *)
Lemma relevance_score_counterexample :
  let doc := mkSearchResult 7 "State v. Ram" (DocStr "Sessions Division, Delhi High Court")
                            (Some "2010-03-01") None None None None None None None None in
  label_has (court_label doc) "sessions" = true /\
  identifyCourt doc = "high" /\
  court_factor (court_label doc) = Some 1.2%Q /\
  recency_factor 2026 doc = None /\
  citation_factor doc = None /\
  calculateRelevanceScore 2026 doc ∅ = dmul (double 1.0) (double 1.2) /\
  (calculateRelevanceScore 2026 doc ∅ == double 1.2)%Q /\
  ~ (calculateRelevanceScore 2026 doc ∅ == 1.0)%Q.
Proof. vm_compute. repeat split; try reflexivity; discriminate. Qed.

(** ** Trimming *)

Lemma rev_onto_spec (s acc : string) : rev_onto s acc = reverse s +:+ acc.
Proof.
  revert acc. induction s as [|c s IH]; intros acc; [reflexivity|].
  unfold reverse. simpl. rewrite (IH (String c acc)), (IH (String c "")).
  now rewrite append_assoc.
Qed.

Lemma reverse_cons (c : ascii) (s : string) : reverse (String c s) = reverse s +:+ String c "".
Proof. unfold reverse at 1. simpl. apply rev_onto_spec. Qed.

Lemma reverse_append (a b : string) : reverse (a +:+ b) = reverse b +:+ reverse a.
Proof.
  induction a as [|c a IH]; simpl.
  - now rewrite append_empty_r.
  - now rewrite !reverse_cons, IH, append_assoc.
Qed.

Lemma reverse_involutive (s : string) : reverse (reverse s) = s.
Proof.
  induction s as [|c s IH]; [reflexivity|].
  now rewrite reverse_cons, reverse_append, IH.
Qed.

Lemma drop_while_stops (f : ascii -> bool) (u v : string) (c : ascii) :
  f c = false -> drop_while f (u +:+ String c v) = drop_while f u +:+ String c v.
Proof.
  intros Hc. induction u as [|d u IH]; simpl.
  - now rewrite Hc.
  - destruct (f d); [exact IH|reflexivity].
Qed.

Lemma drop_while_append (f : ascii -> bool) (p q : string) :
  drop_while f p <> "" -> drop_while f (p +:+ q) = drop_while f p +:+ q.
Proof.
  induction p as [|d p IH]; simpl; [congruence|].
  destruct (f d); [exact IH|reflexivity].
Qed.

(* Trimming keeps a code unit that is not white space, and what stood
   before it from the first such code unit on *)
Lemma trim_keeps (u v : string) (c : ascii) :
  is_space c = false ->
  exists v', trim (u +:+ String c v) = drop_while is_space u +:+ String c v'.
Proof.
  intros Hc. unfold trim.
  rewrite (drop_while_stops _ _ _ _ Hc).
  rewrite reverse_append, reverse_cons, append_assoc. simpl.
  rewrite (drop_while_stops _ _ _ _ Hc).
  rewrite reverse_append, reverse_cons, reverse_involutive, append_assoc. simpl.
  eauto.
Qed.

Lemma trim_blank (p : string) : drop_while is_space p = "" -> trim p = "".
Proof. intros H. unfold trim. now rewrite H. Qed.

Lemma all_chars_member (f : ascii -> bool) (u v : string) (c : ascii) :
  all_chars f (u +:+ String c v) = true -> f c = true.
Proof.
  rewrite all_chars_append. simpl. intros H.
  apply andb_true_iff in H as [_ H]. now apply andb_true_iff in H as [H _].
Qed.

(** ** Citations *)

(* an optional single code unit at the head of an expression *)
Lemma optional_char (cs : cset) (k : mstate -> option mstate) (st e : mstate) :
  run (Rep 0 (Some 1%nat) (Seq (Chr cs) Eps)) k st = Some e ->
  k st = Some e \/
  exists c s', rest st = String c s' /\ cset_mem cs c = true /\ k (advance c s' st) = Some e.
Proof.
  cbn [run rep_loop below Nat.ltb Nat.leb Nat.add].
  destruct (rest st) as [|c s'] eqn:E.
  - intros H. now left.
  - destruct (cset_mem cs c) eqn:M; [|intros H; now left].
    cbn [advance pos String.length rep_loop below Nat.ltb Nat.leb].
    rewrite Nat.leb_refl. cbn [orb].
    destruct (k _) as [e1|] eqn:K; intros H.
    + right. exists c, s'. repeat split; auto. congruence.
    + now left.
Qed.

(* An expression of the form ^\(? ... $ accepts a text that is written in
   the alphabet of the rest, but for a parenthesis that may stand first *)
Lemma paren_only_first (T : regex) (s : string) :
  ends_at_eol T = true ->
  test (Seq Bol (Seq (Rep 0 (Some 1%nat) (Seq (Chr (CChar "(")) Eps)) T)) s = true ->
  all_chars (alphabet T) s = true \/
  exists s', s = String "(" s' /\ all_chars (alphabet T) s' = true.
Proof.
  intros EE H. unfold test, search in H.
  destruct (search_in _ s 0 None) as [[b e]|] eqn:E; [|discriminate].
  apply search_in_sound in E as (pre & -> & P & M).
  unfold match_here in M. cbn [run] in M.
  destruct (pos b =? 0)%nat eqn:P0; [|discriminate].
  apply Nat.eqb_eq in P0. destruct pre; [|simpl in P; lia]. simpl.
  apply optional_char in M as [M|(c & s' & R & C & M)].
  - left. apply match_here_sound in M as (taken & R & _ & A & EN).
    now rewrite R, (EN EE), append_empty_r.
  - right. simpl in C. apply Ascii.eqb_eq in C. subst c.
    exists s'. split; [assumption|].
    apply match_here_sound in M as (taken & R' & _ & A & EN).
    simpl in R'. now rewrite R', (EN EE), append_empty_r.
Qed.

Lemma not_written_in (f : ascii -> bool) (u v : string) (c : ascii) :
  f c = false -> all_chars f (u +:+ String c v) = true -> False.
Proof. intros Hc H. apply all_chars_member in H. congruence. Qed.

(* No validation pattern accepts a text with a comma *)
Lemma comma_rejected (u v : string) :
  Forall (fun config => test (pattern config) (u +:+ String "," v) = false) CITATION_PATTERNS.
Proof.
  unfold CITATION_PATTERNS. repeat constructor; cbn [pattern];
    match goal with
    | |- test ?r _ = false =>
      destruct (test r (u +:+ String "," v)) eqn:T; [exfalso|reflexivity];
      apply anchored_alphabet in T; [|vm_compute; reflexivity..];
      revert T; apply not_written_in; vm_compute; reflexivity
    end.
Qed.

(* No validation pattern accepts a text with an opening parenthesis after
   its first code unit *)
Lemma inner_paren_rejected (c : ascii) (u v : string) :
  Forall (fun config => test (pattern config) (String c (u +:+ String "(" v)) = false)
         CITATION_PATTERNS.
Proof.
  unfold CITATION_PATTERNS.
  constructor; [|constructor]; [| |repeat constructor]; cbn [pattern].
  1, 2:
    match goal with
    | |- test ?r ?s = false =>
      destruct (test r s) eqn:T; [exfalso|reflexivity];
      let r' := eval vm_compute in r in change r with r' in T;
      apply paren_only_first in T; [|vm_compute; reflexivity];
      destruct T as [T|(s' & E & T)];
      [ revert T; apply (not_written_in _ (String c u) v "("); vm_compute; reflexivity
      | injection E as _ <-; revert T; apply not_written_in; vm_compute; reflexivity ]
    end.
  all:
    match goal with
    | |- test ?r ?s = false =>
      destruct (test r s) eqn:T; [exfalso|reflexivity];
      apply anchored_alphabet in T; [|vm_compute; reflexivity..];
      revert T; apply (not_written_in _ (String c u) v "("); vm_compute; reflexivity
    end.
Qed.

Lemma rejected_by_all (citation : string) :
  Forall (fun config => test (pattern config) (trim citation) = false) CITATION_PATTERNS ->
  cv_isValid (validateCitation citation) = false.
Proof.
  intros H. unfold validateCitation.
  destruct (List.find _ CITATION_PATTERNS) as [config|] eqn:F; [|reflexivity].
  apply find_some in F as [I T].
  apply list_elem_of_In in I.
  rewrite Forall_forall in H. rewrite (H _ I) in T. discriminate.
Qed.

(** C6 (as amended). For the SCC and the SCC OnLine style the full
    citation that formatCitation builds is never accepted by
    validateCitation, whatever the case number: it begins with the party
    names, and the validation patterns, which are anchored at the year, admit
    neither the comma that follows the parties in the SCC OnLine form nor
    the parenthesis that follows non-blank parties in the SCC form. *)
Theorem formatted_citation_not_validated (currentYear : Z) (elements : CitationElements)
  (number : string) :
  cv_isValid (validateCitation (fst (styled elements "SCC OnLine" number))) = false /\
  cv_isValid (validateCitation (full (formatCitation currentYear elements "SCC OnLine"))) = false /\
  (trim (parties elements) <> "" ->
   cv_isValid (validateCitation (fst (styled elements "SCC" number))) = false /\
   cv_isValid (validateCitation (full (formatCitation currentYear elements "SCC"))) = false).
Proof.
  assert (OnLine : forall n, cv_isValid (validateCitation (fst (styled elements "SCC OnLine" n))) = false).
  { intros n. apply rejected_by_all. cbn [styled String.eqb Ascii.eqb Bool.eqb fst].
    change (", " +:+ ?x) with (String "," (" " +:+ x)).
    match goal with
    | |- context [trim (?u +:+ String "," ?v)] =>
      destruct (trim_keeps u v ",") as [v' ->]; [reflexivity|]
    end.
    apply comma_rejected. }
  assert (Scc : trim (parties elements) <> "" ->
                forall n, cv_isValid (validateCitation (fst (styled elements "SCC" n))) = false).
  { intros NB n. apply rejected_by_all. cbn [styled String.eqb Ascii.eqb Bool.eqb fst].
    change (" (" +:+ ?x) with (" " +:+ String "(" x).
    rewrite <- append_assoc.
    match goal with
    | |- context [trim (?u +:+ String "(" ?v)] =>
      destruct (trim_keeps u v "(") as [v' ->]; [reflexivity|]
    end.
    assert (D : drop_while is_space (parties elements) <> "").
    { intros D. apply NB. now apply trim_blank. }
    rewrite (drop_while_append _ _ _ D).
    destruct (drop_while is_space (parties elements)) as [|c w]; [congruence|].
    simpl. apply inner_paren_rejected. }
  split; [apply OnLine|]. split; [apply OnLine|].
  intros NB. split; apply (Scc NB).
Qed.

Lemma formatted_citation_not_validated_witness :
  let elements :=
    {| parties := "State of Maharashtra v. Ram"; court := "Supreme Court of India";
       year := "2020"; caseNumber := Some "123"; judges := None;
       reporterCitations := None; ce_paragraph := None |} in
  trim (parties elements) <> "" /\
  cv_isValid (validateCitation (fst (styled elements "SCC" "123"))) = false.
Proof.
  intros elements.
  assert (NB : trim (parties elements) <> "") by (vm_compute; discriminate).
  split; [exact NB|].
  exact (proj1 (proj2 (proj2 (formatted_citation_not_validated 2026 elements "123")) NB)).
Defined.

(** C6 (as stated) fails: the SCC citation formatted from well-formed
    elements is rejected by validateCitation, with the case number that
    formatCitation derives as with the numeric one of the elements. *)
Lemma formatted_citation_counterexample :
  let elements :=
    {| parties := "State of Maharashtra v. Ram"; court := "Supreme Court of India";
       year := "2020"; caseNumber := Some "123"; judges := None;
       reporterCitations := None; ce_paragraph := None |} in
  full (formatCitation 2026 elements "SCC") = "State of Maharashtra v. Ram (2020) SCC [No. 2026]" /\
  cv_isValid (validateCitation (full (formatCitation 2026 elements "SCC"))) = false /\
  fst (styled elements "SCC" "123") = "State of Maharashtra v. Ram (2020) SCC 123" /\
  cv_isValid (validateCitation (fst (styled elements "SCC" "123"))) = false.
Proof. vm_compute. repeat split; reflexivity. Qed.

(** ** The answer to a search without results *)

Lemma nonempty_true (s : string) : nonempty s = true -> s <> "".
Proof. destruct s; [discriminate|congruence]. Qed.

(* a failure analysis always names a reason and makes a suggestion *)
Lemma analysis_informs (q : string) (processed : ProcessedQuery) :
  reason (analyzeSearchFailure q processed) <> "" /\
  fa_suggestions (analyzeSearchFailure q processed) <> [].
Proof.
  unfold analyzeSearchFailure. cbv zeta. cbn [reason fa_suggestions].
  destruct (10 <? length (split (re "\s+") q))%nat;
    destruct (List.filter _ (extractedSections processed));
    destruct (includes q "civil" && includes q "IPC");
    cbn; split; congruence.
Qed.

Lemma unique_empty (l : list string) : unique l = [] <-> l = [].
Proof. destruct l; unfold unique; simpl; split; congruence. Qed.

Lemma firstn_5_empty {A : Type} (l : list A) : firstn 5 l = [] <-> l = [].
Proof. destruct l; simpl; split; congruence. Qed.

Lemma dedup_acc_length (l seen : list string) : (length (dedup_acc seen l) <= length l)%nat.
Proof.
  revert seen. induction l as [|x l IH]; intros seen; simpl; [lia|].
  destruct (existsb _ seen); simpl; [specialize (IH seen)|specialize (IH (x :: seen))]; lia.
Qed.

(* when generateAlternativeQueries has nothing to offer *)
Lemma no_alternatives (q : string) (processed : ProcessedQuery) :
  generateAlternativeQueries q processed = [] <->
  extractedSections processed = [] /\
  legalConcepts processed = [] /\
  (withoutQuotes q = q \/ withoutQuotes q = "") /\
  mainKeywords q = [] /\
  includes (toLowerCase q) "bail" = false /\
  includes (toLowerCase q) "quash" = false.
Proof.
  unfold generateAlternativeQueries. cbv zeta.
  rewrite firstn_5_empty, unique_empty.
  assert (W : negb (String.eqb (withoutQuotes q) q) && (0 <? String.length (withoutQuotes q))%nat
              = false <-> (withoutQuotes q = q \/ withoutQuotes q = "")).
  { destruct (String.eqb_spec (withoutQuotes q) q) as [E|E]; simpl.
    - split; auto.
    - destruct (withoutQuotes q) eqn:WQ; simpl; split; auto; try discriminate.
      intros [H|H]; [congruence|discriminate]. }
  destruct (extractedSections processed) as [|s0 sections];
    destruct (legalConcepts processed) as [|c0 concepts];
    destruct (negb (String.eqb (withoutQuotes q) q) &&
              (0 <? String.length (withoutQuotes q))%nat) eqn:A3;
    destruct (mainKeywords q) as [|k0 keywords];
    cbn [app];
    try (split; [discriminate|]; intros (S & C & Q & K & _); try discriminate;
         apply W in Q; discriminate).
  destruct (includes (toLowerCase q) "bail"), (includes (toLowerCase q) "quash"); cbn [app];
    split; try discriminate; try (intros (_ & _ & _ & _ & B & U); discriminate).
  - intros _. repeat split; auto. now apply W.
  - reflexivity.
Qed.

Lemma all_empty_merge (defined : list upstream_result) :
  Forall (fun r => docs_of r = []) defined ->
  merge_docs [] (flat_map docs_of defined) = [].
Proof.
  intros H. replace (flat_map docs_of defined) with (@nil SearchResult); [reflexivity|].
  induction H as [|r l E _ IH]; simpl; [reflexivity|]. now rewrite E.
Qed.

(** C8 (as amended). For every query whose variants all come back with an
    empty result set, search_legal_precedents answers NO_RESULTS with an
    empty case list, a non-empty reason, at least one suggestion, and the
    alternative queries of generateAlternativeQueries: at most five, and
    none exactly when the query yields no section and no legal concept,
    removing its double-quoted phrases and trimming what is left gives the
    query itself or the empty string, it has no keyword of more than four
    characters outside the stop words, and it mentions neither "bail" nor
    "quash". *)
Theorem no_results_diagnostic (config : Config) (currentYear : Z) (args : search_args)
  (results : list (option upstream_result)) (defined : list upstream_result) :
  all_defined results = Some defined ->
  Forall (fun r => docs_of r = []) defined ->
  let response := search_legal_precedents config currentYear args results in
  let processed := preprocessQuery (query args) in
  let alternatives := generateAlternativeQueries (query args) processed in
  searchStatus response = "NO_RESULTS" /\
  cases response = [] /\
  (exists e why,
     error response = Some e /\
     er_reason e = Some why /\ why <> "" /\
     er_suggestions e <> [] /\
     er_alternativeQueries e = Some alternatives) /\
  (length alternatives <= 5)%nat /\
  (alternatives = [] <->
   extractedSections processed = [] /\
   legalConcepts processed = [] /\
   (withoutQuotes (query args) = query args \/ withoutQuotes (query args) = "") /\
   mainKeywords (query args) = [] /\
   includes (toLowerCase (query args)) "bail" = false /\
   includes (toLowerCase (query args)) "quash" = false).
Proof.
  intros D E response processed alternatives.
  unfold response, search_legal_precedents. rewrite D. cbv zeta.
  rewrite (all_empty_merge _ E). cbn [searchStatus cases error].
  split; [reflexivity|]. split; [reflexivity|]. split; [|split].
  - eexists. eexists. cbn [er_reason er_suggestions er_alternativeQueries].
    destruct (analysis_informs (query args) (preprocessQuery (query args))) as [R S].
    repeat split; [exact R|exact S].
  - unfold alternatives, generateAlternativeQueries. cbv zeta.
    rewrite length_take. apply Nat.le_min_l.
  - apply no_alternatives.
Qed.

Lemma no_results_diagnostic_witness :
  let config := {| indianKanoonApiKey := "key"; defaultCourt := "supremecourt";
                   maxSearchResults := 20; citationStyle := "SCC OnLine";
                   enableCaching := true; cacheTimeout := 60; debug := false |} in
  let args := {| query := "Section 302 IPC bail"; courtLevel := None; dateFrom := None;
                 dateTo := None; maxResults := None; relevanceThreshold := 0.5 |} in
  let results := [Some {| docs := Some [] |}; Some {| docs := Some [] |}] in
  all_defined results = Some [{| docs := Some [] |}; {| docs := Some [] |}] /\
  searchStatus (search_legal_precedents config 2026 args results) = "NO_RESULTS".
Proof.
  intros config args results.
  assert (D : all_defined results = Some [{| docs := Some [] |}; {| docs := Some [] |}])
    by reflexivity.
  split; [exact D|].
  refine (proj1 (no_results_diagnostic config 2026 args results _ D _)).
  repeat constructor.
Defined.

(** C8 (as stated) fails: for the query "tax law" NO_RESULTS comes with a
    reason and suggestions and without a single alternative query. *)
Lemma no_results_counterexample :
  let config := {| indianKanoonApiKey := "key"; defaultCourt := "supremecourt";
                   maxSearchResults := 20; citationStyle := "SCC OnLine";
                   enableCaching := true; cacheTimeout := 60; debug := false |} in
  let args := {| query := "tax law"; courtLevel := None; dateFrom := None;
                 dateTo := None; maxResults := None; relevanceThreshold := 0.5 |} in
  let results := [Some {| docs := Some [] |}; Some {| docs := Some [] |}] in
  variants_searched "tax law" (preprocessQuery "tax law") = ["tax law"; "tax ANDD law"] /\
  searchStatus (search_legal_precedents config 2026 args results) = "NO_RESULTS" /\
  error (search_legal_precedents config 2026 args results)
  = Some {| er_reason := Some "No exact matches found for your query";
            er_suggestions :=
              ["Try broadening your search terms";
               "Remove quotes to allow partial matches";
               "Search for the general legal principle instead of specific facts"];
            er_alternativeQueries := Some [];
            er_message := "No cases found. Try the alternative queries suggested below." |}.
Proof. vm_compute. repeat split; reflexivity. Qed.

(** ** Ranking and the fallback below the threshold *)

Lemma by_relevance_after (x y : ScoredDoc) :
  Qltb 0 (by_relevance x y) = true <-> (relevanceScore x < relevanceScore y)%Q.
Proof.
  unfold by_relevance. rewrite Qltb_lt. symmetry. apply Qlt_minus_iff.
Qed.

Lemma insert_by_permutation {A : Type} (cmp : A -> A -> Q) (x : A) (l : list A) :
  Permutation (insert_by cmp x l) (x :: l).
Proof.
  induction l as [|y l IH]; simpl; [reflexivity|].
  destruct (Qltb 0 (cmp x y)); [|reflexivity].
  rewrite IH. apply perm_swap.
Qed.

Lemma sort_by_permutation {A : Type} (cmp : A -> A -> Q) (l : list A) :
  Permutation (sort_by cmp l) l.
Proof.
  induction l as [|x l IH]; simpl; [reflexivity|].
  rewrite insert_by_permutation. now constructor.
Qed.

Lemma insert_by_sorted (x : ScoredDoc) (l : list ScoredDoc) :
  StronglySorted outranks l -> StronglySorted outranks (insert_by by_relevance x l).
Proof.
  induction 1 as [|y l S IH F]; simpl.
  - repeat constructor.
  - destruct (Qltb 0 (by_relevance x y)) eqn:C.
    + apply by_relevance_after in C. constructor; [exact IH|].
      apply (Permutation_Forall (x := x :: l));
        [symmetry; apply insert_by_permutation|].
      constructor; [now apply Qlt_le_weak|exact F].
    + assert (O : outranks x y).
      { unfold outranks. apply Qnot_lt_le. intros L.
        apply by_relevance_after in L. congruence. }
      constructor; [now constructor|].
      constructor; [exact O|].
      eapply Forall_impl; [exact F|]. intros z Hz. unfold outranks in *.
      eapply Qle_trans; eassumption.
Qed.

Lemma sort_by_sorted (l : list ScoredDoc) : StronglySorted outranks (sort_by by_relevance l).
Proof.
  induction l as [|x l IH]; simpl; [constructor|]. now apply insert_by_sorted.
Qed.

Lemma sort_by_empty {A : Type} (cmp : A -> A -> Q) (l : list A) :
  sort_by cmp l = [] -> l = [].
Proof.
  intros H. pose proof (sort_by_permutation cmp l) as P. rewrite H in P.
  now apply Permutation_nil in P.
Qed.

Lemma index_at_least_1 (q : Q) : (1 <= q)%Q -> (1 <= index_of_number q)%nat.
Proof.
  intros H. unfold index_of_number.
  apply Qfloor_resp_le in H. change (Qfloor 1) with 1 in H. lia.
Qed.

Lemma firstn_nonempty {A : Type} (n : nat) (l : list A) :
  (1 <= n)%nat -> l <> [] -> firstn n l <> [].
Proof. destruct n, l; simpl; intros; try congruence; lia. Qed.

(* the schemas leave room for at least one result *)
Lemma result_limit_at_least_1 (config : Config) (args : search_args) :
  valid_config config = true -> valid_search_args args = true ->
  (1 <= result_limit config args)%Q.
Proof.
  unfold valid_config, valid_search_args, result_limit. intros C A.
  repeat match goal with
         | H : _ && _ = true |- _ => apply andb_true_iff in H as [? ?]
         end.
  destruct (maxResults args) as [m|].
  - repeat match goal with
           | H : _ && _ = true |- _ => apply andb_true_iff in H as [? ?]
           end.
    assert (M1 : (1 <= m)%Q) by now apply Qle_bool_iff.
    destruct (Qeq_bool m 0) eqn:Z; [|exact M1].
    apply Qeq_bool_iff in Z. rewrite Z in M1. exfalso. apply M1. reflexivity.
  - assert (M : (10 <= maxSearchResults config)%Q) by now apply Qle_bool_iff.
    eapply Qle_trans; [|exact M]. discriminate.
Qed.

Lemma none_relevant (threshold : Q) (scoredDocs : list ScoredDoc) :
  Forall (fun d => (relevanceScore d < threshold)%Q) scoredDocs ->
  List.filter (fun d => Qle_bool threshold (relevanceScore d)) scoredDocs = [].
Proof.
  induction 1 as [|d l L _ IH]; simpl; [reflexivity|].
  apply Qle_bool_false in L. now rewrite L.
Qed.

(* the handler from the threshold filter on, for any scored documents *)
Lemma rank_and_respond_spec (args : search_args) (limit : Q) (processed : ProcessedQuery)
  (variants : list string) (scoredDocs : list ScoredDoc) :
  (1 <= limit)%Q -> scoredDocs <> [] ->
  let response := rank_and_respond args limit processed variants scoredDocs in
  let best := firstn (index_of_number (Qmin 5 limit)) (sort_by by_relevance scoredDocs) in
  cases response <> [] /\
  (Forall (fun d => (relevanceScore d < relevanceThreshold args)%Q) scoredDocs ->
   searchStatus response = "LOW_RELEVANCE" /\
   note response = Some (relevanceThreshold args) /\
   cases response
   = List.map (format_case (Some "Below threshold but best available matches") None) best).
Proof.
  intros L NE response best. unfold response, rank_and_respond. cbv zeta.
  assert (L5 : (1 <= Qmin 5 limit)%Q) by (apply Q.min_glb; [discriminate|exact L]).
  assert (B : firstn (index_of_number (Qmin 5 limit)) (sort_by by_relevance scoredDocs) <> []).
  { apply firstn_nonempty; [now apply index_at_least_1|].
    intros E. now apply sort_by_empty in E. }
  split.
  - unfold slice0.
    destruct (firstn (index_of_number limit) (sort_by by_relevance (List.filter _ scoredDocs)))
      as [|t tops] eqn:T.
    + destruct scoredDocs as [|d l]; [congruence|]. cbn [cases].
      intros E. apply map_eq_nil in E. now apply B.
    + cbn [cases map]. discriminate.
  - intros Below. rewrite (none_relevant _ _ Below). cbn [sort_by].
    replace (slice0 limit (@nil ScoredDoc)) with (@nil ScoredDoc)
      by (unfold slice0; now rewrite take_nil).
    destruct scoredDocs as [|d l]; [congruence|]. cbn [searchStatus note cases].
    split; [reflexivity|]. split; reflexivity.
Qed.

Lemma court_filter_empty (args : search_args) : court_filter args [] = [].
Proof.
  unfold court_filter. destruct (courtLevel args) as [c|]; [|reflexivity].
  now destruct (nonempty c && negb (String.eqb c "all")).
Qed.

Lemma format_case_fields (extra_note : option string) (principles : option (list string))
  (l : list ScoredDoc) :
  Forall2 (fun c sd =>
             fc_id c = string_of_Z (tid (doc sd)) /\
             fc_title c = title (doc sd) /\
             fc_relevanceScore c = relevanceScore sd /\
             fc_matchedSections c = matchedSections sd /\
             fc_matchedConcepts c = matchedConcepts sd /\
             relevanceNote c = extra_note /\
             keyPrinciples c = principles)
          (List.map (format_case extra_note principles) l) l.
Proof. induction l as [|sd l IH]; simpl; constructor; [now repeat split|exact IH]. Qed.

(* in a sorted list nothing of the tail outranks anything of the head *)
Lemma sorted_split (front back : list ScoredDoc) :
  StronglySorted outranks (front ++ back) ->
  Forall (fun later => Forall (fun earlier => outranks earlier later) front) back.
Proof.
  induction front as [|x front IH]; simpl; intros S.
  - apply List.Forall_forall. intros later _. constructor.
  - apply StronglySorted_inv in S as [S F].
    specialize (IH S). apply Forall_app in F as [_ F].
    rewrite List.Forall_forall in IH, F |- *. intros later I.
    constructor; [now apply F|now apply IH].
Qed.

Lemma some_relevant (threshold : Q) (scoredDocs : list ScoredDoc) :
  Exists (fun d => (threshold <= relevanceScore d)%Q) scoredDocs ->
  List.filter (fun d => Qle_bool threshold (relevanceScore d)) scoredDocs <> [].
Proof.
  induction 1 as [d l H|d l _ IH]; simpl.
  - apply Qle_bool_iff in H. now rewrite H.
  - now destruct (Qle_bool threshold (relevanceScore d)).
Qed.

Lemma rank_and_respond_success (args : search_args) (limit : Q) (processed : ProcessedQuery)
  (variants : list string) (scoredDocs : list ScoredDoc) :
  (1 <= limit)%Q ->
  Exists (fun d => (relevanceThreshold args <= relevanceScore d)%Q) scoredDocs ->
  let response := rank_and_respond args limit processed variants scoredDocs in
  let relevantDocs :=
    List.filter (fun d => Qle_bool (relevanceThreshold args) (relevanceScore d)) scoredDocs in
  searchStatus response = "SUCCESS" /\
  cases response
  = List.map (format_case None (Some []))
             (firstn (index_of_number limit) (sort_by by_relevance relevantDocs)).
Proof.
  intros L E response relevantDocs. unfold response, rank_and_respond. cbv zeta.
  fold relevantDocs. unfold slice0.
  assert (T : firstn (index_of_number limit) (sort_by by_relevance relevantDocs) <> []).
  { apply firstn_nonempty; [now apply index_at_least_1|].
    intros S. apply sort_by_empty in S. now apply (some_relevant _ _ E). }
  destruct (firstn (index_of_number limit) (sort_by by_relevance relevantDocs))
    as [|t tops]; [congruence|]. split; reflexivity.
Qed.

Lemma In_firstn {A : Type} (n : nat) (l : list A) (x : A) : In x (firstn n l) -> In x l.
Proof.
  revert l. induction n as [|n IH]; intros [|y l]; simpl; try tauto.
  intros [E|I]; [now left|right; now apply IH].
Qed.

Lemma ids_and_titles (extra_note : option string) (cs : list formatted_case)
  (l : list ScoredDoc) :
  Forall2 (fun c sd =>
             fc_id c = string_of_Z (tid (doc sd)) /\
             fc_title c = title (doc sd) /\
             fc_relevanceScore c = relevanceScore sd /\
             fc_matchedSections c = matchedSections sd /\
             fc_matchedConcepts c = matchedConcepts sd /\
             relevanceNote c = extra_note /\
             keyPrinciples c = None)
          cs l ->
  List.map (fun c => (fc_id c, fc_title c)) cs
  = List.map (fun sd => (string_of_Z (tid (doc sd)), title (doc sd))) l /\
  Forall (fun c => relevanceNote c = extra_note) cs.
Proof.
  induction 1 as [|c sd cs l (I & Ti & _ & _ & _ & N & _) _ [IH1 IH2]].
  - split; constructor.
  - split; [simpl; now rewrite I, Ti, IH1|now constructor].
Qed.

(** C2. For every search whose scored candidate list is not empty
    (parameters and configuration within their schemas, the threshold a
    binary64 number as every number of a request is), the case list
    returned is not empty.  If the relevance threshold excludes every
    scored document, the tool answers LOW_RELEVANCE, names the threshold in
    its note, and returns min(5, limit) cases (all of them when there are
    fewer documents): case by case the id, title, score and matched
    sections and concepts of the first documents of the scored list in
    descending order of score (a permutation of the scored list in which no
    document is outranked by a later one, so that no document left out
    outranks one that is returned), each case with the relevanceNote that
    marks it as below the threshold, and each score below the threshold.
    If on the contrary some scored document reaches the threshold, the
    answer is SUCCESS and no case of it is marked or below the threshold. *)
Theorem low_relevance_fallback (config : Config) (currentYear : Z) (args : search_args)
  (results : list (option upstream_result)) (defined : list upstream_result) :
  valid_config config = true ->
  valid_search_args args = true ->
  js_number (relevanceThreshold args) ->
  all_defined results = Some defined ->
  let scoredDocs :=
    scored_docs currentYear args (preprocessQuery (query args))
                (merge_docs [] (flat_map docs_of defined)) in
  let response := search_legal_precedents config currentYear args results in
  let ranked := sort_by by_relevance scoredDocs in
  let count := index_of_number (Qmin 5 (result_limit config args)) in
  let best := firstn count ranked in
  let left_out := skipn count ranked in
  scoredDocs <> [] ->
  cases response <> [] /\
  Permutation ranked scoredDocs /\
  StronglySorted outranks ranked /\
  Permutation (best ++ left_out) scoredDocs /\
  Forall (fun later => Forall (fun earlier => outranks earlier later) best) left_out /\
  (Forall (fun d => (relevanceScore d < relevanceThreshold args)%Q) scoredDocs ->
   searchStatus response = "LOW_RELEVANCE" /\
   note response = Some (relevanceThreshold args) /\
   Forall2 (fun c sd =>
              fc_id c = string_of_Z (tid (doc sd)) /\
              fc_title c = title (doc sd) /\
              fc_relevanceScore c = relevanceScore sd /\
              fc_matchedSections c = matchedSections sd /\
              fc_matchedConcepts c = matchedConcepts sd /\
              relevanceNote c = Some "Below threshold but best available matches" /\
              keyPrinciples c = None)
           (cases response) best /\
   Forall (fun c => (fc_relevanceScore c < relevanceThreshold args)%Q) (cases response) /\
   length (cases response) = Nat.min count (length scoredDocs) /\
   (1 <= length (cases response) <= 5)%nat /\
   totalResults response = length (cases response)) /\
  (Exists (fun d => (relevanceThreshold args <= relevanceScore d)%Q) scoredDocs ->
   searchStatus response = "SUCCESS" /\
   Forall (fun c => relevanceNote c = None /\
                    (relevanceThreshold args <= fc_relevanceScore c)%Q)
          (cases response)).
Proof.
  intros VC VA _ D scoredDocs response ranked count best left_out NE.
  pose proof (result_limit_at_least_1 _ _ VC VA) as L.
  assert (R : response
              = rank_and_respond args (result_limit config args) (preprocessQuery (query args))
                  (variants_searched (query args) (preprocessQuery (query args))) scoredDocs).
  { unfold response, search_legal_precedents. rewrite D. cbv zeta.
    fold scoredDocs.
    destruct (merge_docs [] (flat_map docs_of defined)) eqn:M; [|reflexivity].
    exfalso. apply NE. unfold scoredDocs, scored_docs. rewrite ?M.
    now rewrite court_filter_empty. }
  destruct (rank_and_respond_spec args _ (preprocessQuery (query args))
              (variants_searched (query args) (preprocessQuery (query args)))
              scoredDocs L NE) as [C F].
  rewrite <- R in C, F.
  assert (P : Permutation ranked scoredDocs) by apply sort_by_permutation.
  assert (S : StronglySorted outranks ranked) by apply sort_by_sorted.
  split; [exact C|]. split; [exact P|]. split; [exact S|].
  split; [unfold best, left_out; now rewrite firstn_skipn|].
  split.
  { apply sorted_split. unfold best, left_out. now rewrite firstn_skipn. }
  split.
  - intros Below. destruct (F Below) as (St & N & E).
    fold ranked in E. fold count in E. fold best in E.
    assert (Len : length (cases response) = Nat.min count (length scoredDocs)).
    { rewrite E, length_map. unfold best. rewrite length_take. unfold ranked.
      now rewrite (Permutation_length (sort_by_permutation by_relevance scoredDocs)). }
    assert (C1 : (1 <= count)%nat).
    { apply index_at_least_1. apply Q.min_glb; [discriminate|exact L]. }
    assert (C5 : (count <= 5)%nat).
    { unfold count, index_of_number.
      pose proof (Qfloor_resp_le _ _ (Q.le_min_l 5 (result_limit config args))) as B.
      change (Qfloor 5) with 5 in B. lia. }
    split; [exact St|]. split; [exact N|].
    split; [rewrite E; apply format_case_fields|].
    split.
    { rewrite E. apply Forall_map. apply List.Forall_forall. intros sd I.
      cbn [format_case fc_relevanceScore].
      rewrite List.Forall_forall in Below. apply Below.
      apply (Permutation_in _ P). now apply (In_firstn count). }
    split; [exact Len|]. split.
    { rewrite Len. destruct scoredDocs; [congruence|simpl length; lia]. }
    rewrite R. unfold rank_and_respond. cbv zeta.
    rewrite (none_relevant _ _ Below). cbn [sort_by].
    replace (slice0 (result_limit config args) (@nil ScoredDoc)) with (@nil ScoredDoc)
      by (unfold slice0; now rewrite take_nil).
    destruct scoredDocs as [|d l]; [congruence|].
    cbn [totalResults cases]. now rewrite length_map.
  - intros Reached.
    destruct (rank_and_respond_success args _ (preprocessQuery (query args))
                (variants_searched (query args) (preprocessQuery (query args)))
                scoredDocs L Reached) as [St E].
    rewrite <- R in St, E. split; [exact St|].
    rewrite E. apply Forall_map. apply List.Forall_forall. intros sd I.
    split; [reflexivity|]. cbn [format_case fc_relevanceScore].
    apply In_firstn in I.
    apply (Permutation_in _ (sort_by_permutation by_relevance _)) in I.
    apply filter_In in I as [_ I]. now apply Qle_bool_iff.
Qed.

Lemma low_relevance_fallback_witness :
  let results := [Some {| docs := Some (firstn 4 ranking_docs) |};
                  Some {| docs := Some (skipn 2 ranking_docs) |}] in
  let response := search_legal_precedents example_config 2026 example_args results in
  valid_config example_config = true /\
  valid_search_args example_args = true /\
  js_number (relevanceThreshold example_args) /\
  List.map (fun sd => tid (doc sd))
           (scored_docs 2026 example_args (preprocessQuery (query example_args))
                        (merge_docs [] (flat_map docs_of
                           [{| docs := Some (firstn 4 ranking_docs) |};
                            {| docs := Some (skipn 2 ranking_docs) |}])))
  = [201; 202; 203; 204; 205; 206; 207]%Z /\
  searchStatus response = "LOW_RELEVANCE" /\
  List.map fc_id (cases response) = ["202"; "204"; "206"; "205"; "201"] /\
  List.map fc_title (cases response)
  = ["B v. Union of India"; "D v. State"; "F v. State"; "E v. State"; "A v. State"] /\
  Forall (fun c => relevanceNote c = Some "Below threshold but best available matches")
         (cases response) /\
  totalResults response = 5%nat.
Proof.
  intros results response.
  set (defined := [{| docs := Some (firstn 4 ranking_docs) |};
                   {| docs := Some (skipn 2 ranking_docs) |}]).
  set (scoredDocs := scored_docs 2026 example_args (preprocessQuery (query example_args))
                       (merge_docs [] (flat_map docs_of defined))).
  assert (Ids : List.map (fun sd => tid (doc sd)) scoredDocs
                = [201; 202; 203; 204; 205; 206; 207]%Z) by (vm_compute; reflexivity).
  assert (NE : scoredDocs <> []) by (intros E; rewrite E in Ids; discriminate).
  assert (Low : Forall (fun d => (relevanceScore d < relevanceThreshold example_args)%Q)
                  scoredDocs).
  { vm_compute. repeat constructor. }
  assert (J : js_number (relevanceThreshold example_args)) by (vm_compute; reflexivity).
  destruct (low_relevance_fallback example_config 2026 example_args results defined
              eq_refl eq_refl J eq_refl NE)
    as (_ & _ & _ & _ & _ & F & _).
  destruct (F Low) as (St & _ & Fields & _ & _ & _ & T).
  split; [reflexivity|]. split; [reflexivity|]. split; [exact J|]. split; [exact Ids|].
  split; [exact St|].
  assert (Best : List.map (fun sd => (string_of_Z (tid (doc sd)), title (doc sd)))
                   (firstn (index_of_number (Qmin 5 (result_limit example_config example_args)))
                           (sort_by by_relevance scoredDocs))
                 = [("202", "B v. Union of India"); ("204", "D v. State");
                    ("206", "F v. State"); ("205", "E v. State"); ("201", "A v. State")])
    by (vm_compute; reflexivity).
  fold response in Fields, T.
  destruct (ids_and_titles _ _ _ Fields) as [G0 N].
  pose proof (eq_trans G0 Best) as G. clear G0 Best.
  split; [|split; [|split; [exact N|]]].
  - rewrite <- (map_map (fun c => (fc_id c, fc_title c)) fst), G. reflexivity.
  - rewrite <- (map_map (fun c => (fc_id c, fc_title c)) snd), G. reflexivity.
  - rewrite T, <- (length_map (fun c => (fc_id c, fc_title c))), G. reflexivity.
Defined.

(** ** The cache of the HTTP clients *)

Lemma ok_not_429 (status : nat) : response_ok status = true -> (status =? 429)%nat = false.
Proof.
  unfold response_ok. intros H. apply andb_true_iff in H as [_ H].
  apply Nat.leb_le in H. apply Nat.eqb_neq. lia.
Qed.

Lemma fresh_not_expired (timeout a : Q) : (a <= timeout)%Q -> Qltb timeout a = false.
Proof. intros H. unfold Qltb. apply Qle_bool_iff in H. now rewrite H. Qed.

Lemma wait_fetches (ms : Z) (w : world) : fetches (wait ms w) = fetches w.
Proof. reflexivity. Qed.

(* the loop of throttledRequest makes at least one fetch and at most
   [remaining] of them *)
Lemma attempts_fetches (retries : nat) :
  forall (remaining attempt : nat) (w : world),
    (fetches w <= fetches (snd (IndianKanoonClient.attempts remaining attempt retries w))
     <= fetches w + remaining)%nat /\
    (1 <= remaining ->
     fetches w < fetches (snd (IndianKanoonClient.attempts remaining attempt retries w)))%nat.
Proof.
  induction remaining as [|remaining IH]; intros attempt w; simpl; [lia|].
  destruct (upstream w (fetches w)) as [message|status statusText b].
  - destruct (attempt =? retries - 1)%nat; simpl; [lia|].
    match goal with
    | |- context [IndianKanoonClient.attempts remaining ?a retries ?w'] =>
      destruct (IH a w') as [B _]; rewrite wait_fetches in B; simpl in B
    end. lia.
  - destruct (status =? 429)%nat.
    { match goal with
      | |- context [IndianKanoonClient.attempts remaining ?a retries ?w'] =>
        destruct (IH a w') as [B _]; rewrite wait_fetches in B; simpl in B
      end. lia. }
    destruct (negb (response_ok status)).
    { destruct (attempt =? retries - 1)%nat; simpl; [lia|].
      match goal with
      | |- context [IndianKanoonClient.attempts remaining ?a retries ?w'] =>
        destruct (IH a w') as [B _]; rewrite wait_fetches in B; simpl in B
      end. lia. }
    destruct b as [j|message]; simpl; [lia|].
    destruct (attempt =? retries - 1)%nat; simpl; [lia|].
    match goal with
    | |- context [IndianKanoonClient.attempts remaining ?a retries ?w'] =>
      destruct (IH a w') as [B _]; rewrite wait_fetches in B; simpl in B
    end. lia.
Qed.

(* an attempt that is answered 2xx with a JSON body returns it *)
Lemma attempts_success (remaining attempt retries : nat) (w : world)
  (status : nat) (statusText : string) (d : json) :
  upstream w (fetches w) = Response status statusText (JsonBody d) ->
  response_ok status = true ->
  IndianKanoonClient.attempts (S remaining) attempt retries w = (Returned d, snd (fetch w)).
Proof.
  intros U Ok. cbn [IndianKanoonClient.attempts fetch].
  rewrite U, (ok_not_429 _ Ok), Ok. reflexivity.
Qed.

Lemma setCache_fetches (config : Config) (key : string) (d : json) (w : world) :
  fetches (IndianKanoonClient.setCache config key d w) = fetches w.
Proof. unfold IndianKanoonClient.setCache. now destruct (negb (enableCaching config)). Qed.

Section CachedRequest.

Import IndianKanoonClient.

Variables (config : Config) (endpoint params context : string) (w : world) (entry : cache_entry).

Let key : string := getCacheKey endpoint params.

Hypothesis caching : enableCaching config = true.
Hypothesis cached : cache w !! key = Some entry.

(* a hit: the payload comes from the cache and the world is as it was *)
Lemma request_hit :
  (age w entry <= cacheTimeoutMs config)%Q -> truthy (data entry) = true ->
  request config endpoint params context w = (Returned (data entry), w).
Proof.
  intros Fresh T. unfold request, getFromCache. fold key.
  rewrite caching, cached. cbn [negb].
  unfold age in Fresh. rewrite (fresh_not_expired _ _ Fresh). now rewrite T.
Qed.

(* an entry older than the timeout is deleted on read and reported absent *)
Lemma read_expired :
  (cacheTimeoutMs config < age w entry)%Q ->
  getFromCache config key w
  = (JNull, mkWorld (clock w) (delete key (cache w)) (upstream w) (fetches w) (pauses w)).
Proof.
  intros Old. unfold getFromCache. rewrite caching, cached. cbn [negb].
  unfold age in Old. apply Qltb_lt in Old. now rewrite Old.
Qed.

Lemma request_expired_fetches :
  (cacheTimeoutMs config < age w entry)%Q ->
  (fetches w < fetches (snd (request config endpoint params context w)) <= fetches w + 3)%nat.
Proof.
  intros Old. unfold request. fold key. rewrite (read_expired Old). cbn [truthy].
  unfold throttledRequest.
  match goal with
  | |- context [attempts 3 0 3 ?w'] =>
    destruct (attempts_fetches 3 3 0 w') as [B1 B2];
      destruct (attempts 3 0 3 w') as [[d|message] w2] eqn:A
  end; cbn [snd] in *; rewrite ?setCache_fetches; simpl in B1, B2; lia.
Qed.

Lemma request_expired_refresh (status : nat) (statusText : string) (d : json) :
  (cacheTimeoutMs config < age w entry)%Q ->
  upstream w (fetches w) = Response status statusText (JsonBody d) ->
  response_ok status = true ->
  let w' := snd (request config endpoint params context w) in
  fst (request config endpoint params context w) = Returned d /\
  fetches w' = S (fetches w) /\
  cache w' !! key = Some {| data := d; timestamp := clock w' |}.
Proof.
  intros Old U Ok. unfold request. fold key. rewrite (read_expired Old). cbn [truthy].
  unfold throttledRequest.
  erewrite (attempts_success 2 0 3); [|exact U|exact Ok]. cbn [fst snd].
  unfold setCache. rewrite caching. cbn [negb].
  split; [reflexivity|]. split; [reflexivity|]. apply lookup_insert_eq.
Qed.

End CachedRequest.

Section CachedMakeRequest.

Import IndianKanoonAPIClient.

Variables (config : IndianKanoonConfig) (endpoint : string) (params : option string)
          (w : world) (entry : cache_entry).

Let key : string := getCacheKey endpoint params.
Let timeout : Q := IndianKanoonAPIClient.cacheTimeoutMs config.

Hypothesis caching_on : caching config = true.
Hypothesis cached : cache w !! key = Some entry.

Lemma makeRequest_hit :
  (age w entry <= timeout)%Q -> truthy (data entry) = true ->
  makeRequest config endpoint params w = (Returned (data entry), w).
Proof.
  intros Fresh T. unfold makeRequest, getCachedData. fold key.
  rewrite caching_on, cached. cbn [negb]. fold timeout.
  unfold age in Fresh. rewrite (fresh_not_expired _ _ Fresh). now rewrite T.
Qed.

Lemma makeRequest_expired :
  (timeout < age w entry)%Q ->
  let w' := snd (makeRequest config endpoint params w) in
  fetches w' = S (fetches w) /\
  forall (status : nat) (statusText : string) (d : json),
    upstream w (fetches w) = Response status statusText (JsonBody d) ->
    response_ok status = true ->
    fst (makeRequest config endpoint params w) = Returned d /\
    cache w' !! key = Some {| data := d; timestamp := clock w' |}.
Proof.
  intros Old. unfold makeRequest, getCachedData. fold key.
  rewrite caching_on, cached. cbn [negb]. fold timeout.
  unfold age in Old. apply Qltb_lt in Old. rewrite Old. cbn [truthy fetch upstream fetches].
  split.
  - destruct (upstream w (fetches w)) as [message|status statusText b]; [reflexivity|].
    destruct (negb (response_ok status)).
    + destruct (status =? 401)%nat; [reflexivity|]. now destruct (status =? 429)%nat.
    + destruct b; [|reflexivity]. unfold setCachedData. now rewrite caching_on.
  - intros status statusText d U Ok. rewrite U, Ok. cbn [negb fst snd].
    unfold setCachedData. rewrite caching_on. cbn [negb cache clock].
    split; [reflexivity|apply lookup_insert_eq].
Qed.

End CachedMakeRequest.

(* the loop of throttledRequest does not touch the cache *)
Lemma attempts_cache (retries : nat) :
  forall (remaining attempt : nat) (w : world),
    cache (snd (IndianKanoonClient.attempts remaining attempt retries w)) = cache w.
Proof.
  induction remaining as [|remaining IH]; intros attempt w; simpl; [reflexivity|].
  destruct (upstream w (fetches w)) as [message|status statusText b].
  - destruct (attempt =? retries - 1)%nat; [reflexivity|]. now rewrite IH.
  - destruct (status =? 429)%nat; [now rewrite IH|].
    destruct (negb (response_ok status)).
    { destruct (attempt =? retries - 1)%nat; [reflexivity|]. now rewrite IH. }
    destruct b as [j|message]; [reflexivity|].
    destruct (attempt =? retries - 1)%nat; [reflexivity|]. now rewrite IH.
Qed.

(* after expiry, what the request returns is what it stores, and a
   request that fails leaves no entry *)
Lemma request_expired_stores (config : Config) (endpoint params context : string)
  (w : world) (entry : cache_entry) :
  let key := IndianKanoonClient.getCacheKey endpoint params in
  let result := fst (IndianKanoonClient.request config endpoint params context w) in
  let after := snd (IndianKanoonClient.request config endpoint params context w) in
  enableCaching config = true ->
  cache w !! key = Some entry ->
  (IndianKanoonClient.cacheTimeoutMs config < age w entry)%Q ->
  (forall d, result = Returned d ->
             cache after !! key = Some {| data := d; timestamp := clock after |}) /\
  (forall message, result = Thrown message -> cache after !! key = None).
Proof.
  cbv zeta. intros On Cached Old. unfold IndianKanoonClient.request.
  rewrite (read_expired config endpoint params w entry On Cached Old). cbn [truthy].
  unfold IndianKanoonClient.throttledRequest.
  match goal with
  | |- context [IndianKanoonClient.attempts 3 0 3 ?w1] =>
    pose proof (attempts_cache 3 3 0 w1) as C;
      destruct (IndianKanoonClient.attempts 3 0 3 w1) as [[d|message] w2]
  end; cbn [fst snd wait cache] in *.
  - split; [|discriminate]. intros d' [= <-].
    unfold IndianKanoonClient.setCache. rewrite On. cbn [negb cache clock].
    apply lookup_insert_eq.
  - split; [discriminate|]. intros m _. rewrite C. apply lookup_delete_eq.
Qed.

Lemma makeRequest_expired_stores (config : IndianKanoonAPIClient.IndianKanoonConfig)
  (endpoint : string) (params : option string) (w : world) (entry : cache_entry) :
  let key := IndianKanoonAPIClient.getCacheKey endpoint params in
  let result := fst (IndianKanoonAPIClient.makeRequest config endpoint params w) in
  let after := snd (IndianKanoonAPIClient.makeRequest config endpoint params w) in
  IndianKanoonAPIClient.caching config = true ->
  cache w !! key = Some entry ->
  (IndianKanoonAPIClient.cacheTimeoutMs config < age w entry)%Q ->
  (forall d, result = Returned d ->
             cache after !! key = Some {| data := d; timestamp := clock after |}) /\
  (forall message, result = Thrown message -> cache after !! key = None).
Proof.
  cbv zeta. intros On Cached Old.
  unfold IndianKanoonAPIClient.makeRequest, IndianKanoonAPIClient.getCachedData.
  rewrite On, Cached. cbn [negb].
  unfold age in Old. apply Qltb_lt in Old. rewrite Old. cbn [truthy fetch upstream fetches].
  destruct (upstream w (fetches w)) as [message|status statusText b].
  - cbn [fst snd cache]. split; [discriminate|]. intros m _. apply lookup_delete_eq.
  - destruct (negb (response_ok status)).
    + destruct (status =? 401)%nat; [|destruct (status =? 429)%nat];
        cbn [fst snd cache]; (split; [discriminate|]); intros m _; apply lookup_delete_eq.
    + destruct b as [j|message]; cbn [fst snd cache].
      * split; [|discriminate]. intros d [= <-].
        unfold IndianKanoonAPIClient.setCachedData. rewrite On. cbn [negb cache clock].
        apply lookup_insert_eq.
      * split; [discriminate|]. intros m _. apply lookup_delete_eq.
Qed.

(** C3 (as amended). With caching enabled and an entry under the key of
    a request (endpoint plus serialized parameters), for the client of
    index.ts and for that of api-client.ts alike: while the age of the
    entry is within the timeout, a request returns the cached payload (a
    truthy one, as every JSON object is) and leaves the world as it was,
    with no network call made; once the age exceeds the timeout, the entry
    is deleted on read and reported absent, the request goes to the
    network, and what it returns it stores under the key with the current
    time, while a request that fails leaves no entry.  The client of
    api-client.ts makes exactly one network call; that of index.ts makes
    between one and three (its retries), and exactly one when the first
    answer is a 2xx response with a JSON body. *)
Theorem cache_within_and_after_timeout (w : world) (entry : cache_entry)
  (endpoint params context : string) (config : Config)
  (apiConfig : IndianKanoonAPIClient.IndianKanoonConfig) (apiParams : option string) :
  let key := IndianKanoonClient.getCacheKey endpoint params in
  let apiKey := IndianKanoonAPIClient.getCacheKey endpoint apiParams in
  let timeout := IndianKanoonClient.cacheTimeoutMs config in
  let apiTimeout := IndianKanoonAPIClient.cacheTimeoutMs apiConfig in
  let result := fst (IndianKanoonClient.request config endpoint params context w) in
  let after := snd (IndianKanoonClient.request config endpoint params context w) in
  let apiResult := fst (IndianKanoonAPIClient.makeRequest apiConfig endpoint apiParams w) in
  let apiAfter := snd (IndianKanoonAPIClient.makeRequest apiConfig endpoint apiParams w) in
  (enableCaching config = true -> cache w !! key = Some entry ->
   ((age w entry <= timeout)%Q -> truthy (data entry) = true ->
    IndianKanoonClient.request config endpoint params context w = (Returned (data entry), w)) /\
   ((timeout < age w entry)%Q ->
    fst (IndianKanoonClient.getFromCache config key w) = JNull /\
    cache (snd (IndianKanoonClient.getFromCache config key w)) !! key = None /\
    (fetches w < fetches after <= fetches w + 3)%nat /\
    (forall d, result = Returned d ->
               cache after !! key = Some {| data := d; timestamp := clock after |}) /\
    (forall message, result = Thrown message -> cache after !! key = None) /\
    forall (status : nat) (statusText : string) (d : json),
      upstream w (fetches w) = Response status statusText (JsonBody d) ->
      response_ok status = true ->
      result = Returned d /\ fetches after = S (fetches w))) /\
  (IndianKanoonAPIClient.caching apiConfig = true -> cache w !! apiKey = Some entry ->
   ((age w entry <= apiTimeout)%Q -> truthy (data entry) = true ->
    IndianKanoonAPIClient.makeRequest apiConfig endpoint apiParams w
    = (Returned (data entry), w)) /\
   ((apiTimeout < age w entry)%Q ->
    fetches apiAfter = S (fetches w) /\
    (forall d, apiResult = Returned d ->
               cache apiAfter !! apiKey = Some {| data := d; timestamp := clock apiAfter |}) /\
    (forall message, apiResult = Thrown message -> cache apiAfter !! apiKey = None) /\
    forall (status : nat) (statusText : string) (d : json),
      upstream w (fetches w) = Response status statusText (JsonBody d) ->
      response_ok status = true ->
      apiResult = Returned d)).
Proof.
  cbv zeta. split.
  - intros On Cached. split.
    + now apply request_hit.
    + intros Old.
      rewrite (read_expired config endpoint params w entry On Cached Old). cbn [fst snd cache].
      split; [reflexivity|]. split; [apply lookup_delete_eq|].
      split; [now apply (request_expired_fetches config endpoint params context w entry)|].
      destruct (request_expired_stores config endpoint params context w entry On Cached Old)
        as [St Th].
      split; [exact St|]. split; [exact Th|].
      intros status statusText d U Ok.
      destruct (request_expired_refresh config endpoint params context w entry On Cached
                  status statusText d Old U Ok) as (R & F & _).
      split; [exact R|exact F].
  - intros On Cached. split.
    + now apply makeRequest_hit.
    + intros Old.
      destruct (makeRequest_expired apiConfig endpoint apiParams w entry On Cached Old)
        as [F First].
      destruct (makeRequest_expired_stores apiConfig endpoint apiParams w entry On Cached Old)
        as [St Th].
      split; [exact F|]. split; [exact St|]. split; [exact Th|].
      intros status statusText d U Ok. exact (proj1 (First status statusText d U Ok)).
Qed.

Lemma cache_within_and_after_timeout_witness :
  let key := IndianKanoonClient.getCacheKey "/search/" "{}" in
  let entry := {| data := example_payload; timestamp := 0 |} in
  let fresh := JObj [("docs", JArr [JNull])] in
  let apiConfig := {| IndianKanoonAPIClient.apiKey := "key";
                      IndianKanoonAPIClient.caching := true;
                      IndianKanoonAPIClient.timeoutMinutes := None |} in
  (* ten seconds after the payload was stored *)
  (enableCaching example_config = true /\
   cache (example_world 10000) !! key = Some entry /\
   (age (example_world 10000) entry <= IndianKanoonClient.cacheTimeoutMs example_config)%Q /\
   truthy (data entry) = true /\
   IndianKanoonClient.request example_config "/search/" "{}" "search" (example_world 10000)
   = (Returned (data entry), example_world 10000)) /\
  (* two hours after *)
  ((IndianKanoonClient.cacheTimeoutMs example_config < age (example_world 7200000) entry)%Q /\
   fst (IndianKanoonClient.request example_config "/search/" "{}" "search"
          (example_world 7200000)) = Returned fresh /\
   cache (snd (IndianKanoonClient.request example_config "/search/" "{}" "search"
                 (example_world 7200000))) !! key
   = Some {| data := fresh;
             timestamp := clock (snd (IndianKanoonClient.request example_config "/search/"
                                        "{}" "search" (example_world 7200000))) |}).
Proof.
  intros key entry fresh apiConfig.
  assert (On : enableCaching example_config = true) by reflexivity.
  assert (T : truthy (data entry) = true) by reflexivity.
  split.
  - assert (Cached : cache (example_world 10000) !! key = Some entry)
      by (vm_compute; reflexivity).
    assert (Fresh : (age (example_world 10000) entry
                     <= IndianKanoonClient.cacheTimeoutMs example_config)%Q)
      by (vm_compute; discriminate).
    repeat (split; [assumption|]).
    exact (proj1 (proj1 (cache_within_and_after_timeout
                           (example_world 10000) entry "/search/" "{}" "search" example_config
                           apiConfig None)
                        On Cached) Fresh T).
  - assert (Cached : cache (example_world 7200000) !! key = Some entry)
      by (vm_compute; reflexivity).
    assert (Old : (IndianKanoonClient.cacheTimeoutMs example_config
                   < age (example_world 7200000) entry)%Q)
      by (vm_compute; reflexivity).
    assert (R : fst (IndianKanoonClient.request example_config "/search/" "{}" "search"
                       (example_world 7200000)) = Returned fresh)
      by (vm_compute; reflexivity).
    split; [exact Old|]. split; [exact R|].
    destruct (proj2 (proj1 (cache_within_and_after_timeout
                              (example_world 7200000) entry "/search/" "{}" "search"
                              example_config apiConfig None)
                           On Cached) Old) as (_ & _ & _ & St & _).
    exact (St fresh R).
Defined.

(** C3 (as stated) fails: two hours after the payload was stored, with
    the timeout at one hour, the next identical search makes two network
    calls, the first being answered 429, before it stores the fresh
    response; and a payload null, stored ten milliseconds before, is not
    served but fetched again. *)
Lemma cache_refresh_counterexample :
  let w := example_world 7200000 in
  let entry := {| data := example_payload; timestamp := 0 |} in
  let key := IndianKanoonClient.getCacheKey "/search/" "{}" in
  let fresh := JObj [("docs", JArr [JNull])] in
  let null_entry := {| data := JNull; timestamp := 0 |} in
  let w' := mkWorld 10 {[ key := null_entry ]}
                    (fun _ => Response 200 "OK" (JsonBody fresh)) 0 [] in
  (enableCaching example_config = true /\
   cache w !! key = Some entry /\
   (IndianKanoonClient.cacheTimeoutMs example_config < age w entry)%Q /\
   fst (IndianKanoonClient.search example_config "{}" w) = Returned fresh /\
   fetches (snd (IndianKanoonClient.search example_config "{}" w)) = 2%nat /\
   cache (snd (IndianKanoonClient.search example_config "{}" w)) !! key
   = Some {| data := fresh; timestamp := 7201100 |}) /\
  (cache w' !! key = Some null_entry /\
   (age w' null_entry <= IndianKanoonClient.cacheTimeoutMs example_config)%Q /\
   fst (IndianKanoonClient.search example_config "{}" w') = Returned fresh /\
   fetches (snd (IndianKanoonClient.search example_config "{}" w')) = 1%nat).
Proof. vm_compute. repeat split; first [reflexivity | discriminate]. Qed.

(** ** Retries *)





Section Attempts.

Import IndianKanoonClient.

Variable retries : nat.











End Attempts.









(* What the statement above leaves out: when every attempt is answered 429
   the loop of throttledRequest ends without a return or a throw, so the
   search resolves to undefined, and no failure reaches the caller. *)
Lemma rate_limit_exhaustion_unsignalled :
  let w := mkWorld 0 ∅ (answering 3 (Response 429 "Too Many Requests" (BadBody ""))) 0 [] in
  IndianKanoonClient.search example_config "{}" w
  = (Returned JUndefined,
     mkWorld 7100 {[ "/search/:{}" := {| data := JUndefined; timestamp := 7100 |} ]}
             (upstream w) 3 [4000; 2000; 1000; 100]).
Proof. vm_compute. reflexivity. Qed.

(** * Further properties of the clients and the tools *)

(** ** Merging the documents of several searches *)

Lemma seen_spec (seenIds : list Z) (t : Z) :
  existsb (Z.eqb t) seenIds = true <-> t ∈ seenIds.
Proof.
  rewrite existsb_exists, list_elem_of_In. split.
  - intros (x & Hx & E). apply Z.eqb_eq in E. now subst.
  - intros H. exists t. split; [assumption|apply Z.eqb_refl].
Qed.

Lemma merge_docs_fresh (seenIds : list Z) (l : list SearchResult) (d : SearchResult) :
  d ∈ merge_docs seenIds l -> (tid d ∉ seenIds) /\ d ∈ l.
Proof.
  revert seenIds. induction l as [|x l IH]; intros seenIds; simpl.
  - intros H. now apply elem_of_nil in H.
  - destruct (existsb (Z.eqb (tid x)) seenIds) eqn:E.
    + intros H. apply IH in H as [H1 H2]. split; [assumption|now apply list_elem_of_further].
    + intros H. apply elem_of_cons in H as [-> | H].
      * split; [|apply list_elem_of_here].
        intros S. apply seen_spec in S. congruence.
      * apply IH in H as [H1 H2]. split; [|now apply list_elem_of_further].
        intros S. apply H1. now apply list_elem_of_further.
Qed.

Lemma merge_docs_NoDup (seenIds : list Z) (l : list SearchResult) :
  NoDup (List.map tid (merge_docs seenIds l)).
Proof.
  revert seenIds. induction l as [|x l IH]; intros seenIds; simpl; [constructor|].
  destruct (existsb (Z.eqb (tid x)) seenIds); [apply IH|].
  simpl. apply NoDup_cons. split; [|apply IH].
  intros H. apply list_elem_of_In, in_map_iff in H as (d & E & H).
  apply list_elem_of_In, merge_docs_fresh in H as [H _].
  apply H. rewrite E. apply list_elem_of_here.
Qed.

Lemma merge_docs_covers (seenIds : list Z) (l : list SearchResult) (d : SearchResult) :
  d ∈ l -> tid d ∈ seenIds \/ tid d ∈ List.map tid (merge_docs seenIds l).
Proof.
  revert seenIds. induction l as [|x l IH]; intros seenIds H; simpl.
  - now apply elem_of_nil in H.
  - destruct (existsb (Z.eqb (tid x)) seenIds) eqn:E.
    + apply elem_of_cons in H as [-> | H]; [left; now apply seen_spec|now apply IH].
    + simpl. apply elem_of_cons in H as [-> | H]; [right; apply list_elem_of_here|].
      destruct (IH (tid x :: seenIds) H) as [S | S].
      * apply elem_of_cons in S as [S | S]; [right; rewrite S; apply list_elem_of_here|now left].
      * right. now apply list_elem_of_further.
Qed.

Lemma merge_docs_first (seenIds : list Z) (l : list SearchResult) (d : SearchResult) :
  d ∈ merge_docs seenIds l ->
  exists before after, l = before ++ d :: after /\ tid d ∉ List.map tid before.
Proof.
  revert seenIds. induction l as [|x l IH]; intros seenIds; simpl.
  - intros H. now apply elem_of_nil in H.
  - destruct (existsb (Z.eqb (tid x)) seenIds) eqn:E.
    + intros H. pose proof (merge_docs_fresh _ _ _ H) as [F _].
      apply IH in H as (before & after & -> & N).
      exists (x :: before), after. split; [reflexivity|].
      simpl. intros S. apply elem_of_cons in S as [S | S]; [|contradiction].
      apply F. rewrite S. now apply seen_spec.
    + intros H. apply elem_of_cons in H as [-> | H].
      * exists [], l. split; [reflexivity|]. simpl. apply not_elem_of_nil.
      * pose proof (merge_docs_fresh _ _ _ H) as [F _].
        apply IH in H as (before & after & -> & N).
        exists (x :: before), after. split; [reflexivity|].
        simpl. intros S. apply elem_of_cons in S as [S | S]; [|contradiction].
        apply F. rewrite S. apply list_elem_of_here.
Qed.

Lemma merge_docs_sublist (seenIds : list Z) (l : list SearchResult) :
  merge_docs seenIds l `sublist_of` l.
Proof.
  revert seenIds. induction l as [|x l IH]; intros seenIds; simpl; [constructor|].
  destruct (existsb (Z.eqb (tid x)) seenIds).
  - apply sublist_cons, IH.
  - apply sublist_skip, IH.
Qed.

(** X1. The documents that search_legal_precedents merges from the
    results of its searches: each document id occurs once, every id of the
    results is represented, the documents keep the order of the results,
    and the document kept for an id is the first one with that id. *)
Theorem merged_documents_unique (found : list SearchResult) :
  let allDocs := merge_docs [] found in
  NoDup (List.map tid allDocs) /\
  allDocs `sublist_of` found /\
  (forall d, d ∈ found -> tid d ∈ List.map tid allDocs) /\
  (forall d, d ∈ allDocs ->
     exists before after, found = before ++ d :: after /\ tid d ∉ List.map tid before).
Proof.
  cbv zeta. split; [apply merge_docs_NoDup|]. split; [apply merge_docs_sublist|]. split.
  - intros d H. destruct (merge_docs_covers [] found d H) as [S | S]; [|assumption].
    now apply elem_of_nil in S.
  - intros d. apply merge_docs_first.
Qed.

Lemma merged_documents_unique_witness :
  let a := mkSearchResult 7 "A v. B" (DocNum 1) None None None None None None None None None in
  let b := mkSearchResult 7 "A v. B (copy)" (DocNum 1) None None None None None None None None None in
  let c := mkSearchResult 9 "C v. D" (DocNum 1) None None None None None None None None None in
  c ∈ [a; b; c] /\ tid c ∈ List.map tid (merge_docs [] [a; b; c]).
Proof.
  intros a b c.
  assert (H : c ∈ [a; b; c]) by (do 2 apply list_elem_of_further; apply list_elem_of_here).
  split; [exact H|].
  exact (proj1 (proj2 (proj2 (merged_documents_unique [a; b; c]))) c H).
Defined.

(** ** The searches of a query and an undefined result *)

Lemma all_defined_none (results : list (option upstream_result)) :
  None ∈ results -> all_defined results = None.
Proof.
  induction results as [|r results IH]; intros H; [now apply elem_of_nil in H|].
  apply elem_of_cons in H as [<- | H]; [reflexivity|].
  simpl. destruct r; [|reflexivity]. now rewrite (IH H).
Qed.

(** X2. When one of the searches of a query resolved to undefined,
    search_legal_precedents answers ERROR with no case at all, whatever
    the other searches found; the message is the generic one of
    formatError for the context "search". *)
Theorem undefined_result_is_error (config : Config) (currentYear : Z) (args : search_args)
  (results : list (option upstream_result)) :
  None ∈ results ->
  let response := search_legal_precedents config currentYear args results in
  searchStatus response = "ERROR" /\
  cases response = [] /\
  totalResults response = 0%nat /\
  exists e suggestions,
    error response = Some e /\
    er_message e
    = "Error in search: Cannot read properties of undefined (reading 'docs')" +:+ suggestions.
Proof.
  intros H. unfold search_legal_precedents. rewrite (all_defined_none _ H). cbv zeta.
  repeat split. eexists _, _. split; reflexivity.
Qed.

Lemma undefined_result_is_error_witness :
  let results := [Some {| docs := Some [example_doc] |}; None] in
  None ∈ results /\
  searchStatus (search_legal_precedents example_config 2026 example_args results) = "ERROR".
Proof.
  intros results.
  assert (H : None ∈ results) by (apply list_elem_of_further, list_elem_of_here).
  split; [exact H|].
  exact (proj1 (undefined_result_is_error example_config 2026 example_args results H)).
Defined.

(** X3. Every query is searched in at least two and at most five
    variants: preprocessQuery always ends the list of variants with the
    normalized query and its ANDD form, so the fallback to the query as
    typed is never taken. *)
Theorem variants_between_two_and_five (q : string) :
  let processed := preprocessQuery q in
  let variants := variants_searched q processed in
  (2 <= length variants <= 5)%nat /\
  variants = firstn 5 (searchVariants processed) /\
  exists sectionVariants,
    searchVariants processed
    = sectionVariants
      ++ [normalizedQuery processed;
          replace_all (re "\s+") " ANDD " (normalizedQuery processed)].
Proof.
  cbv zeta.
  assert (S : exists sectionVariants,
             searchVariants (preprocessQuery q)
             = sectionVariants
               ++ [normalizedQuery (preprocessQuery q);
                   replace_all (re "\s+") " ANDD " (normalizedQuery (preprocessQuery q))]).
  { unfold preprocessQuery. cbv zeta. cbn [searchVariants normalizedQuery].
    eexists. reflexivity. }
  destruct S as (sv & E).
  assert (V : variants_searched q (preprocessQuery q) = firstn 5 (searchVariants (preprocessQuery q))).
  { unfold variants_searched. rewrite E. destruct sv; reflexivity. }
  split; [|split; [exact V|exists sv; exact E]].
  rewrite V, length_firstn, E, length_app. cbn [length]. lia.
Qed.

(** ** The answer to a search with relevant documents *)








(** X5. When the court filter leaves none of the merged documents
    (documents were found, of other courts than the one asked for),
    search_legal_precedents answers SUCCESS with an empty case list and
    totalResults 0: the fallback to the best available matches is taken
    only when scored documents exist. *)
Theorem other_courts_only (config : Config) (currentYear : Z) (args : search_args)
  (results : list (option upstream_result)) (defined : list upstream_result) :
  all_defined results = Some defined ->
  merge_docs [] (flat_map docs_of defined) <> [] ->
  court_filter args (merge_docs [] (flat_map docs_of defined)) = [] ->
  let response := search_legal_precedents config currentYear args results in
  searchStatus response = "SUCCESS" /\
  cases response = [] /\
  totalResults response = 0%nat /\
  error response = None /\
  note response = None.
Proof.
  intros D NE F. unfold search_legal_precedents. rewrite D. cbv zeta.
  destruct (merge_docs [] (flat_map docs_of defined)) as [|d l] eqn:M; [congruence|].
  unfold scored_docs. rewrite F. unfold rank_and_respond. cbn [List.map List.filter sort_by].
  replace (slice0 (result_limit config args) (@nil ScoredDoc)) with (@nil ScoredDoc)
    by (unfold slice0; now rewrite take_nil).
  repeat split.
Qed.

Lemma other_courts_only_witness :
  let args := {| query := "anticipatory bail"; courtLevel := Some "bombay"; dateFrom := None;
                 dateTo := None; maxResults := None; relevanceThreshold := 0.5 |} in
  let results := [Some {| docs := Some [example_doc] |}] in
  searchStatus (search_legal_precedents example_config 2026 args results) = "SUCCESS" /\
  cases (search_legal_precedents example_config 2026 args results) = [].
Proof.
  intros args results.
  assert (NE : merge_docs [] (flat_map docs_of [{| docs := Some [example_doc] |}]) <> [])
    by (vm_compute; discriminate).
  destruct (other_courts_only example_config 2026 args results
              [{| docs := Some [example_doc] |}] eq_refl NE eq_refl) as (S & C & _).
  split; [exact S|exact C].
Defined.

(** ** What a request does to the world *)

Lemma sum_of_app (a b : list Z) : sum_of (a ++ b) = sum_of a + sum_of b.
Proof. unfold sum_of. induction a as [|x a IH]; simpl; [reflexivity|]. rewrite IH. lia. Qed.

Lemma linear_below_exponential (attempt : nat) : 0 < linear attempt <= exponential attempt.
Proof.
  unfold linear, exponential.
  pose proof (Z.pow_gt_lin_r 2 (Z.of_nat attempt)). lia.
Qed.

Lemma exponential_next (attempt : nat) : exponential (S attempt) = 2 * exponential attempt.
Proof. unfold exponential. rewrite Nat2Z.inj_succ, Z.pow_succ_r by lia. lia. Qed.

Lemma trace_pause (bound p : Z) (w after : world) :
  0 < p ->
  trace bound (wait p (snd (fetch w))) after -> trace (p + bound) w after.
Proof.
  intros Hp (U & C & waited & P & K & F & B). unfold trace.
  cbn [wait fetch snd upstream cache pauses clock] in *.
  split; [exact U|]. split; [exact C|].
  exists (waited ++ [p]). rewrite <- app_assoc. cbn [app].
  split; [exact P|]. rewrite sum_of_app. cbn [sum_of fold_right].
  split; [lia|]. split; [|lia].
  apply Forall_app. split; [exact F|]. now constructor.
Qed.

Lemma trace_weaken (b b' : Z) (w after : world) :
  b <= b' -> trace b w after -> trace b' w after.
Proof.
  intros L (U & C & waited & P & K & F & B). unfold trace.
  repeat split; try assumption. exists waited. repeat split; try assumption. lia.
Qed.

Lemma trace_stop (w : world) : trace 0 w (snd (fetch w)).
Proof.
  unfold trace. cbn [fetch snd upstream cache pauses clock]. repeat split.
  exists []. repeat split; [simpl; lia|constructor|simpl; lia].
Qed.

Lemma attempts_trace (retries : nat) :
  forall (remaining attempt : nat) (w : world),
    trace (exponential (attempt + remaining) - exponential attempt) w
          (snd (IndianKanoonClient.attempts remaining attempt retries w)).
Proof.
  induction remaining as [|remaining IH]; intros attempt w.
  - rewrite Nat.add_0_r. cbn [IndianKanoonClient.attempts snd].
    unfold trace. repeat split. exists []. repeat split; [simpl; lia|constructor|simpl; lia].
  - assert (G : 0 <= exponential (attempt + S remaining) - exponential attempt).
    { unfold exponential.
      assert (2 ^ Z.of_nat attempt <= 2 ^ Z.of_nat (attempt + S remaining))
        by (apply Z.pow_le_mono_r; lia).
      lia. }
    assert (Stop : trace (exponential (attempt + S remaining) - exponential attempt) w
                         (snd (fetch w)))
      by (eapply trace_weaken; [exact G|apply trace_stop]).
    assert (Again : forall p, 0 < p <= exponential attempt ->
              trace (exponential (attempt + S remaining) - exponential attempt) w
                (snd (IndianKanoonClient.attempts remaining (S attempt) retries
                        (wait p (snd (fetch w)))))).
    { intros p Hp. specialize (IH (S attempt) (wait p (snd (fetch w)))).
      apply trace_pause in IH; [|lia].
      eapply trace_weaken; [|exact IH].
      replace (attempt + S remaining)%nat with (S attempt + remaining)%nat by lia.
      pose proof (exponential_next attempt). lia. }
    pose proof (linear_below_exponential attempt) as Lin.
    assert (Exp : 0 < exponential attempt <= exponential attempt) by lia.
    cbn [IndianKanoonClient.attempts fetch].
    change (mkWorld (clock w) (cache w) (upstream w) (S (fetches w)) (pauses w))
      with (snd (fetch w)).
    destruct (upstream w (fetches w)) as [message|status statusText b].
    + destruct (attempt =? retries - 1)%nat; [exact Stop|]. apply Again, Lin.
    + destruct (status =? 429)%nat; [apply Again, Exp|].
      destruct (negb (response_ok status)).
      * destruct (attempt =? retries - 1)%nat; [exact Stop|]. apply Again, Lin.
      * destruct b as [j|message]; [exact Stop|].
        destruct (attempt =? retries - 1)%nat; [exact Stop|]. apply Again, Lin.
Qed.

Lemma throttledRequest_trace (retries : nat) (w : world) :
  trace (100 + (exponential retries - 1000)) w
        (snd (IndianKanoonClient.throttledRequest retries w)).
Proof.
  unfold IndianKanoonClient.throttledRequest.
  pose proof (attempts_trace retries retries 0 (wait IndianKanoonClient.requestDelay w)) as T.
  destruct T as (U & C & waited & P & K & F & B).
  unfold trace. cbn [wait upstream cache pauses clock] in *.
  split; [exact U|]. split; [exact C|].
  exists (waited ++ [IndianKanoonClient.requestDelay]). rewrite <- app_assoc. cbn [app].
  split; [exact P|]. rewrite sum_of_app. cbn [sum_of fold_right].
  change (exponential 0) with 1000 in B. cbn [Nat.add] in B.
  unfold IndianKanoonClient.requestDelay in *.
  split; [lia|]. split; [|lia].
  apply Forall_app. split; [exact F|]. constructor; [lia|constructor].
Qed.


(* the network part of a request, after the cache was consulted in [w1] *)
Lemma request_miss (config : Config) (endpoint params context : string) (w w1 : world) :
  IndianKanoonClient.getFromCache config (IndianKanoonClient.getCacheKey endpoint params) w
  = (JNull, w1) ->
  IndianKanoonClient.request config endpoint params context w
  = match IndianKanoonClient.throttledRequest 3 w1 with
    | (Returned d, w2) =>
      (Returned d,
       IndianKanoonClient.setCache config (IndianKanoonClient.getCacheKey endpoint params) d w2)
    | (Thrown message, w2) => (Thrown (formatError message context), w2)
    end.
Proof. intros H. unfold IndianKanoonClient.request. now rewrite H. Qed.

(* what consulting the cache comes to *)
Lemma getFromCache_cases (config : Config) (key : string) (w : world) :
  (exists entry,
     enableCaching config = true /\ cache w !! key = Some entry /\
     Qltb (IndianKanoonClient.cacheTimeoutMs config) (age w entry) = false /\
     IndianKanoonClient.getFromCache config key w = (data entry, w)) \/
  (exists w1,
     IndianKanoonClient.getFromCache config key w = (JNull, w1) /\
     upstream w1 = upstream w /\ fetches w1 = fetches w /\
     pauses w1 = pauses w /\ clock w1 = clock w /\
     (cache w1 = cache w \/ cache w1 = delete key (cache w))).
Proof.
  unfold IndianKanoonClient.getFromCache, age.
  destruct (enableCaching config); cbn [negb]; [|right; exists w; now repeat split; auto].
  destruct (cache w !! key) as [entry|]; [|right; exists w; now repeat split; auto].
  destruct (Qltb _ _) eqn:E.
  - right. eexists. split; [reflexivity|]. cbn. repeat split; auto.
  - left. exists entry. now repeat split.
Qed.

Lemma throttledRequest_starts (w : world) :
  (fetches w < fetches (snd (IndianKanoonClient.throttledRequest 3 w)))%nat.
Proof.
  unfold IndianKanoonClient.throttledRequest.
  destruct (attempts_fetches 3 3 0 (wait IndianKanoonClient.requestDelay w)) as [_ B].
  rewrite wait_fetches in B. apply B. lia.
Qed.

(** X7. A request of the client of index.ts touches the cache under its
    own key only: the entries under every other key are as before.  With
    caching disabled the cache is not changed at all and every request goes
    to the network; and a request that fails stores nothing: an entry
    found under its key afterwards was there before. *)
Theorem request_cache_frame (config : Config) (endpoint params context : string)
  (w : world) :
  let key := IndianKanoonClient.getCacheKey endpoint params in
  let result := fst (IndianKanoonClient.request config endpoint params context w) in
  let after := snd (IndianKanoonClient.request config endpoint params context w) in
  (forall other, other <> key -> cache after !! other = cache w !! other) /\
  (enableCaching config = false ->
   cache after = cache w /\ (fetches w < fetches after)%nat) /\
  (forall message entry,
     result = Thrown message -> cache after !! key = Some entry ->
     cache w !! key = Some entry).
Proof.
  cbv zeta. set (key := IndianKanoonClient.getCacheKey endpoint params).
  destruct (getFromCache_cases config key w)
    as [(entry & On & L & Fresh & G) | (w1 & G & U1 & F1 & P1 & K1 & C1)].
  - (* an entry that has not expired *)
    unfold IndianKanoonClient.request. fold key. rewrite G.
    destruct (truthy (data entry)) eqn:T; cbn [fst snd].
    + split; [reflexivity|]. split; [congruence|]. intros; assumption.
    + pose proof (throttledRequest_trace 3 w) as (_ & C & _).
      destruct (IndianKanoonClient.throttledRequest 3 w) as [[d|message] w2]; cbn [fst snd] in *.
      * unfold IndianKanoonClient.setCache. rewrite On. cbn [negb cache].
        split; [intros other N; rewrite lookup_insert_ne by congruence; now rewrite C|].
        split; [congruence|]. discriminate.
      * split; [intros; now rewrite C|]. split; [congruence|].
        intros m e _ H. now rewrite C in H.
  - rewrite (request_miss _ _ _ _ _ _ G). fold key.
    pose proof (throttledRequest_trace 3 w1) as (_ & C & _).
    pose proof (throttledRequest_starts w1) as S. rewrite F1 in S.
    assert (O : forall other, other <> key -> cache w1 !! other = cache w !! other).
    { intros other N. destruct C1 as [-> | ->]; [reflexivity|].
      now rewrite lookup_delete_ne by congruence. }
    assert (Off : enableCaching config = false -> cache w1 = cache w).
    { intros Off. unfold IndianKanoonClient.getFromCache in G. rewrite Off in G.
      cbn [negb] in G. congruence. }
    assert (K : forall entry, cache w1 !! key = Some entry -> cache w !! key = Some entry).
    { intros entry H. destruct C1 as [E | E]; rewrite E in H; [exact H|].
      now rewrite lookup_delete_eq in H. }
    destruct (IndianKanoonClient.throttledRequest 3 w1) as [[d|message] w2]; cbn [fst snd] in *.
    + unfold IndianKanoonClient.setCache.
      destruct (enableCaching config) eqn:On; cbn [negb cache fetches].
      * split; [intros other N; rewrite lookup_insert_ne by congruence; rewrite C; now apply O|].
        split; [discriminate|]. discriminate.
      * split; [intros other N; rewrite C; now apply O|].
        split; [intros _; split; [rewrite C; now apply Off|exact S]|]. discriminate.
    + split; [intros other N; rewrite C; now apply O|].
      split; [intros Off'; split; [rewrite C; now apply Off|exact S]|].
      intros m e _ H. rewrite C in H. now apply K.
Qed.

Lemma request_cache_frame_witness :
  let w := example_world 7200000 in
  cache (snd (IndianKanoonClient.search example_config "{}" w)) !! "/doc/1/:{}"
  = cache w !! "/doc/1/:{}".
Proof.
  intros w.
  apply (proj1 (request_cache_frame example_config "/search/" "{}" "search" w)).
  vm_compute. discriminate.
Defined.

(** X8. With caching enabled, a request that went to the network and
    returned a truthy payload is followed by hits: as long as the entry
    under its key stays and at most the timeout has passed since it was
    stored, the identical request returns the same payload and leaves the
    world as it is (no pause, no network call). *)
Theorem fetched_then_served (config : Config) (endpoint params context : string)
  (w later : world) (d : json) :
  let key := IndianKanoonClient.getCacheKey endpoint params in
  let after := snd (IndianKanoonClient.request config endpoint params context w) in
  enableCaching config = true ->
  fst (IndianKanoonClient.request config endpoint params context w) = Returned d ->
  (fetches w < fetches after)%nat ->
  truthy d = true ->
  cache later !! key = cache after !! key ->
  (inject_Z (clock later - clock after) <= IndianKanoonClient.cacheTimeoutMs config)%Q ->
  cache after !! key = Some {| data := d; timestamp := clock after |} /\
  IndianKanoonClient.request config endpoint params context later = (Returned d, later).
Proof.
  cbv zeta. set (key := IndianKanoonClient.getCacheKey endpoint params).
  intros On R Net T Kept Fresh.
  assert (Stored : cache (snd (IndianKanoonClient.request config endpoint params context w)) !! key
                   = Some {| data := d;
                             timestamp :=
                               clock (snd (IndianKanoonClient.request config endpoint params
                                             context w)) |}).
  { revert R Net.
    destruct (getFromCache_cases config key w)
      as [(entry & _ & L & Fr & G) | (w1 & G & U1 & F1 & P1 & K1 & C1)].
    - unfold IndianKanoonClient.request. fold key. rewrite G.
      destruct (truthy (data entry)); cbn [fst snd]; [lia|].
      destruct (IndianKanoonClient.throttledRequest 3 w) as [[d'|message] w2];
        cbn [fst snd]; [|discriminate].
      intros [= ->] _. unfold IndianKanoonClient.setCache. rewrite On. cbn [negb cache clock].
      apply lookup_insert_eq.
    - rewrite (request_miss _ _ _ _ _ _ G). fold key.
      destruct (IndianKanoonClient.throttledRequest 3 w1) as [[d'|message] w2];
        cbn [fst snd]; [|discriminate].
      intros [= ->] _. unfold IndianKanoonClient.setCache. rewrite On. cbn [negb cache clock].
      apply lookup_insert_eq. }
  split; [exact Stored|].
  rewrite Stored in Kept.
  apply (request_hit config endpoint params context later _ On Kept); [exact Fresh|exact T].
Qed.

Lemma fetched_then_served_witness :
  let w := mkWorld 0 ∅ (answering 0 (NetworkFailure "")) 0 [] in
  let after := snd (IndianKanoonClient.search example_config "{}" w) in
  IndianKanoonClient.search example_config "{}" (wait 60000 after)
  = (Returned (JObj [("docs", JArr [])]), wait 60000 after).
Proof.
  intros w after.
  apply (fetched_then_served example_config "/search/" "{}" "search" w (wait 60000 after)
           (JObj [("docs", JArr [])])).
  - reflexivity.
  - vm_compute. reflexivity.
  - vm_compute. lia.
  - reflexivity.
  - reflexivity.
  - vm_compute. discriminate.
Defined.

(** X9. A falsy payload under the key of a request (null, false, 0, the
    empty string, or the undefined that the client stores when the rate
    limit outlasts its attempts) is never served: whatever its age, the
    request goes to the network. *)
Theorem falsy_payload_not_served (config : Config) (endpoint params context : string)
  (w : world) (entry : cache_entry) :
  cache w !! IndianKanoonClient.getCacheKey endpoint params = Some entry ->
  truthy (data entry) = false ->
  (fetches w < fetches (snd (IndianKanoonClient.request config endpoint params context w)))%nat.
Proof.
  set (key := IndianKanoonClient.getCacheKey endpoint params). intros L T.
  assert (N : forall w1, fetches w1 = fetches w ->
            (fetches w < fetches (snd (match IndianKanoonClient.throttledRequest 3 w1 with
                                        | (Returned d, w2) =>
                                          (Returned d, IndianKanoonClient.setCache config key d w2)
                                        | (Thrown message, w2) =>
                                          (Thrown (formatError message context), w2)
                                        end)))%nat).
  { intros w1 F. pose proof (throttledRequest_starts w1) as S. rewrite F in S.
    destruct (IndianKanoonClient.throttledRequest 3 w1) as [[d|message] w2]; cbn [snd] in *;
      [now rewrite setCache_fetches|exact S]. }
  destruct (getFromCache_cases config key w)
    as [(entry' & _ & L' & _ & G) | (w1 & G & _ & F1 & _)].
  - unfold IndianKanoonClient.request. fold key. rewrite G.
    rewrite L in L'. injection L' as <-. rewrite T. now apply N.
  - rewrite (request_miss _ _ _ _ _ _ G). now apply N.
Qed.

Lemma falsy_payload_not_served_witness :
  let w := mkWorld 10 {[ "/search/:{}" := {| data := JUndefined; timestamp := 0 |} ]}
                   (answering 0 (NetworkFailure "")) 0 [] in
  (0 < fetches (snd (IndianKanoonClient.search example_config "{}" w)))%nat.
Proof.
  intros w.
  apply (falsy_payload_not_served example_config "/search/" "{}" "search" w
           {| data := JUndefined; timestamp := 0 |}); reflexivity.
Defined.

(** ** De-duplication *)

Lemma seen_string (seen : list string) (x : string) :
  existsb (String.eqb x) seen = true <-> x ∈ seen.
Proof.
  rewrite existsb_exists, list_elem_of_In. split.
  - intros (y & Hy & E). apply String.eqb_eq in E. now subst.
  - intros H. exists x. split; [assumption|apply String.eqb_refl].
Qed.

Lemma dedup_acc_elem (seen l : list string) (x : string) :
  x ∈ dedup_acc seen l <-> x ∈ l /\ x ∉ seen.
Proof.
  revert seen. induction l as [|y l IH]; intros seen; simpl.
  - rewrite elem_of_nil. tauto.
  - destruct (existsb (String.eqb y) seen) eqn:E.
    + apply seen_string in E. rewrite IH, elem_of_cons. split.
      * tauto.
      * intros [[-> | H] N]; [contradiction|tauto].
    + assert (N : y ∉ seen) by (intros S; apply seen_string in S; congruence).
      rewrite !elem_of_cons, IH, elem_of_cons. split.
      * intros [-> | [H1 H2]]; [tauto|]. split; [tauto|]. intros S. apply H2. now right.
      * intros [[-> | H] S]; [now left|].
        destruct (String.eqb_spec x y) as [-> | D]; [now left|]. right. split; [assumption|].
        intros [? | ?]; [contradiction|contradiction].
Qed.

Lemma dedup_acc_NoDup (seen l : list string) : NoDup (dedup_acc seen l).
Proof.
  revert seen. induction l as [|y l IH]; intros seen; simpl; [constructor|].
  destruct (existsb (String.eqb y) seen); [apply IH|].
  apply NoDup_cons. split; [|apply IH].
  rewrite dedup_acc_elem. intros [_ N]. apply N. apply list_elem_of_here.
Qed.

Lemma unique_NoDup (l : list string) : NoDup (unique l).
Proof. apply dedup_acc_NoDup. Qed.

Lemma unique_elem (l : list string) (x : string) : x ∈ unique l <-> x ∈ l.
Proof. unfold unique. rewrite dedup_acc_elem. split; [tauto|]. intros H. split; [exact H|apply not_elem_of_nil]. Qed.

Lemma firstn_NoDup {A : Type} (n : nat) (l : list A) : NoDup l -> NoDup (firstn n l).
Proof. intros H. eapply sublist_NoDup; [exact H|apply sublist_take]. Qed.

(** ** src/api-client.ts *)

Lemma quoted_differs (query : string) : dq +:+ query +:+ dq <> query.
Proof.
  intros E. apply (f_equal String.length) in E.
  rewrite !length_append in E. simpl in E. lia.
Qed.

(** X10. searchMultipleVariants of api-client.ts sends between two and
    four variants, pairwise distinct, the query itself first and the quoted
    query second.  A search that failed counts for nothing, and the
    documents of the others are merged so that each document id occurs
    once, in the order found, every id found being represented. *)
Theorem multiple_variants_merged (query : string)
  (results : list (option (list SearchResult))) :
  let variants := multiple_variants query in
  let merged := searchMultipleVariants results in
  NoDup variants /\
  (2 <= length variants <= 4)%nat /\
  (exists others, variants = query :: (dq +:+ query +:+ dq) :: others) /\
  NoDup (List.map tid merged) /\
  (forall found d, Some found ∈ results -> d ∈ found -> tid d ∈ List.map tid merged) /\
  (forall d, d ∈ merged -> exists found, Some found ∈ results /\ d ∈ found) /\
  searchMultipleVariants (None :: results) = merged.
Proof.
  cbv zeta. split; [apply unique_NoDup|].
  assert (V : exists others,
             multiple_variants query = query :: (dq +:+ query +:+ dq) :: others /\
             (length others <= 2)%nat).
  { unfold multiple_variants, unique. cbn [dedup_acc existsb].
    destruct (String.eqb_spec (dq +:+ query +:+ dq) query) as [E|_];
      [now apply quoted_differs in E|].
    cbn [orb]. eexists. split; [reflexivity|].
    repeat match goal with
           | |- context [if ?b then _ else _] => destruct b
           end; simpl; lia. }
  destruct V as (others & V & L). rewrite V.
  split; [cbn [length]; lia|]. split; [now exists others|].
  unfold searchMultipleVariants.
  split; [apply merge_docs_NoDup|]. split; [|split; [|reflexivity]].
  - intros found d Hf Hd.
    destruct (merge_docs_covers [] (flat_map (fun r => match r with
                                                       | Some found => found
                                                       | None => []
                                                       end) results) d) as [S | S];
      [|now apply elem_of_nil in S|exact S].
    apply list_elem_of_In, in_flat_map. exists (Some found).
    split; apply list_elem_of_In; assumption.
  - intros d H. apply merge_docs_fresh in H as [_ H].
    apply list_elem_of_In, in_flat_map in H as ([found|] & H1 & H2); [|contradiction].
    exists found. split; apply list_elem_of_In; assumption.
Qed.

Lemma multiple_variants_merged_witness :
  let a := mkSearchResult 7 "A v. B" (DocNum 1) None None None None None None None None None in
  let results := [None; Some [a; a]] in
  Some [a; a] ∈ results /\ a ∈ [a; a] /\
  tid a ∈ List.map tid (searchMultipleVariants results).
Proof.
  intros a results.
  assert (H1 : Some [a; a] ∈ results) by (apply list_elem_of_further, list_elem_of_here).
  assert (H2 : a ∈ [a; a]) by apply list_elem_of_here.
  split; [exact H1|]. split; [exact H2|].
  exact (proj1 (proj2 (proj2 (proj2 (proj2 (multiple_variants_merged "bail" results)))))
           [a; a] a H1 H2).
Defined.



(** ** Section validation *)

(* the section numbers of up to four digits are read back as written *)
Lemma numbers_read :
  forallb (fun n =>
             match exec (re "^(\d+)([A-Z])?$") (string_of_Z (Z.of_nat n)) with
             | Some (_, _, e) =>
               match parseInt (str_or (group (string_of_Z (Z.of_nat n)) e 1) "") with
               | Some m => m =? Z.of_nat n
               | None => false
               end
             | None => false
             end)
          (seq 0 (Z.to_nat 1000)) = true.
Proof. vm_compute. reflexivity. Qed.

Lemma number_read (n : Z) :
  0 <= n < 1000 ->
  exists p t e,
    exec (re "^(\d+)([A-Z])?$") (string_of_Z n) = Some (p, t, e) /\
    parseInt (str_or (group (string_of_Z n) e 1) "") = Some n.
Proof.
  intros H. pose proof numbers_read as A. rewrite forallb_forall in A.
  specialize (A (Z.to_nat n)). rewrite Z2Nat.id in A by lia.
  assert (I : In (Z.to_nat n) (seq 0 (Z.to_nat 1000))) by (apply in_seq; lia).
  specialize (A I).
  destruct (exec (re "^(\d+)([A-Z])?$") (string_of_Z n)) as [[[p t] e]|]; [|discriminate].
  destruct (parseInt (str_or (group (string_of_Z n) e 1) "")) as [m|] eqn:P; [|discriminate].
  apply Z.eqb_eq in A. subst m. exists p, t, e. split; [reflexivity|exact P].
Qed.

(** X12. validateSection reports a section as valid exactly when it gives
    no suggestion; the list of nearest valid sections, when given, has at
    most five entries, all different.  A section number below 1000 is
    valid exactly when it lies in the range of the code (1-511 for IPC and
    for any code it does not know, 1-358 for BNS, 1-484 for CrPC). *)
Theorem sections_validated (sectionNum codeType : string) :
  let validation := validateSection sectionNum codeType in
  (isValid validation = true <-> suggestion validation = None) /\
  (isValid validation = true -> nearestValid validation = None) /\
  (forall l, nearestValid validation = Some l -> (length l <= 5)%nat /\ NoDup l) /\
  (forall n : Z, 0 <= n < 1000 ->
     isValid (validateSection (string_of_Z n) codeType)
     = in_section_range (range_of_code codeType) n).
Proof.
  cbv zeta. split; [|split; [|split]].
  - unfold validateSection.
    destruct (exec _ sectionNum) as [[[p t] e]|]; [|cbn; split; discriminate].
    destruct (parseInt _) as [num|]; [|cbn; split; discriminate].
    destruct (in_section_range _ num); cbn; split; congruence.
  - unfold validateSection.
    destruct (exec _ sectionNum) as [[[p t] e]|]; [|cbn; discriminate].
    destruct (parseInt _) as [num|]; [|cbn; discriminate].
    destruct (in_section_range _ num); cbn; [reflexivity|discriminate].
  - intros l. unfold validateSection.
    destruct (exec _ sectionNum) as [[[p t] e]|]; [|cbn; discriminate].
    destruct (parseInt _) as [num|];
      [destruct (in_section_range _ num); [cbn; discriminate|]|];
      cbn [nearestValid]; intros [= <-];
      (split; [first [apply firstn_le_length | simpl; lia]
              |first [apply firstn_NoDup, unique_NoDup | constructor]]).
  - intros n H. destruct (number_read n H) as (p & t & e & E & P).
    unfold validateSection. rewrite E, P.
    now destruct (in_section_range (range_of_code codeType) n).
Qed.

Lemma sections_validated_witness :
  isValid (validateSection "302" "IPC") = true /\
  isValid (validateSection "412" "BNS") = false.
Proof.
  split.
  - apply (proj2 (proj2 (proj2 (sections_validated "" "IPC"))) 302). lia.
  - apply (proj2 (proj2 (proj2 (sections_validated "" "BNS"))) 412). lia.
Defined.

(** ** The analysis of a search without results *)

Lemma filter_none {A : Type} (f : A -> bool) (l : list A) :
  List.filter f l = [] <-> existsb f l = false.
Proof.
  induction l as [|x l IH]; simpl; [tauto|].
  destruct (f x); simpl; [split; discriminate|exact IH].
Qed.

(** X13. The reason that analyzeSearchFailure gives is that of the last
    of its checks that applies: a query with "civil" and "IPC" is said to
    mix civil and criminal terms, otherwise a section number outside 1-511
    is reported, otherwise a query of more than ten words is called too
    specific, and otherwise no exact match was found.  Between one and
    four suggestions come with it, and the alternative queries are
    pairwise distinct. *)
Theorem failure_reason_priority (q : string) (processed : ProcessedQuery) :
  let analysis := analyzeSearchFailure q processed in
  reason analysis
  = (if includes q "civil" && includes q "IPC"
     then "Query mixes civil and criminal law terms"
     else if existsb uncommon_section (extractedSections processed)
          then "Some section numbers appear invalid"
          else if (10 <? length (split (re "\s+") q))%nat
               then "Query may be too specific"
               else "No exact matches found for your query") /\
  (1 <= length (fa_suggestions analysis) <= 4)%nat /\
  NoDup (alternativeQueries analysis).
Proof.
  cbv zeta. unfold analyzeSearchFailure. cbv zeta. cbn [reason fa_suggestions alternativeQueries].
  split; [|split].
  - fold uncommon_section.
    change (fun s : string => match parseInt s with
                              | Some num => (511 <? num) || (num <? 1)
                              | None => false
                              end) with uncommon_section.
    destruct (existsb uncommon_section (extractedSections processed)) eqn:E.
    + destruct (List.filter uncommon_section (extractedSections processed)) eqn:F;
        [apply filter_none in F; congruence|].
      destruct (10 <? length (split (re "\s+") q))%nat;
        destruct (includes q "civil" && includes q "IPC"); reflexivity.
    + apply filter_none in E. rewrite E.
      destruct (10 <? length (split (re "\s+") q))%nat;
        destruct (includes q "civil" && includes q "IPC"); reflexivity.
  - destruct (10 <? length (split (re "\s+") q))%nat;
      destruct (List.filter _ (extractedSections processed));
      destruct (includes q "civil" && includes q "IPC"); cbn; lia.
  - unfold generateAlternativeQueries. cbv zeta. apply firstn_NoDup, unique_NoDup.
Qed.

(** ** Error messages formatted twice *)

Lemma starts_with_across (p x y : string) (c : ascii) :
  all_chars (fun d => negb (Ascii.eqb d c)) p = true ->
  starts_with p (x +:+ String c y) = starts_with p x.
Proof.
  revert x. induction p as [|a p IH]; intros x H; [now destruct x|].
  simpl in H. apply andb_true_iff in H as [Ha Hp].
  destruct x as [|b x]; simpl.
  - apply negb_true_iff in Ha. now rewrite Ha.
  - now rewrite IH.
Qed.

(* a code unit that the text looked for does not hold separates what
   stands before it from what stands after it *)
Lemma includes_across (p x y : string) (c : ascii) :
  p <> "" ->
  all_chars (fun d => negb (Ascii.eqb d c)) p = true ->
  includes (x +:+ String c y) p = includes x p || includes y p.
Proof.
  intros N H. induction x as [|b x IH].
  - cbn [String.append]. destruct p as [|a p]; [congruence|].
    pose proof H as H'. simpl in H'. apply andb_true_iff in H' as [Ha _].
    apply negb_true_iff in Ha. cbn [includes starts_with]. now rewrite Ha.
  - cbn [String.append includes]. fold (String b x +:+ String c y).
    change (String b (x +:+ String c y)) with (String b x +:+ String c y).
    rewrite (starts_with_across p (String b x) y c H), IH.
    now rewrite orb_assoc.
Qed.

Lemma formatError_generic (errorMsg context : string) :
  includes errorMsg "401" = false -> includes errorMsg "429" = false ->
  includes errorMsg "Network" = false -> includes errorMsg "fetch" = false ->
  includes errorMsg "timeout" = false ->
  formatError errorMsg context = generic_error errorMsg context.
Proof. unfold formatError. now intros -> -> -> -> ->. Qed.

(* a word that holds no blank, colon or line feed, and is not in the
   suggestions, is in the generic message when it is in the context or in
   the message of the error *)
Lemma generic_error_includes (errorMsg context word : string) :
  In word ["401"; "429"; "Network"; "fetch"; "timeout"] ->
  includes (generic_error errorMsg context) word
  = includes context word || includes errorMsg word.
Proof.
  intros H. unfold generic_error.
  assert (C : includes (context +:+ ": " +:+ errorMsg +:+ nl ++
                        "Suggestions: " +:+ nl ++
                        "1. Verify your API key is valid" +:+ nl ++
                        "2. Check if the document ID exists" +:+ nl ++
                        "3. Try with different search terms") word
              = includes context word || includes errorMsg word).
  { change (context +:+ ": " +:+ errorMsg +:+ nl ++
            "Suggestions: " +:+ nl ++
            "1. Verify your API key is valid" +:+ nl ++
            "2. Check if the document ID exists" +:+ nl ++
            "3. Try with different search terms")
      with (context +:+ String ":" (String " " (errorMsg +:+ String (chr 10)
              ("Suggestions: " +:+ nl ++
               "1. Verify your API key is valid" +:+ nl ++
               "2. Check if the document ID exists" +:+ nl ++
               "3. Try with different search terms")))).
    simpl in H.
    repeat destruct H as [<- | H]; try contradiction;
      (rewrite includes_across by (try discriminate; reflexivity);
       f_equal;
       cbn [includes starts_with Ascii.eqb Bool.eqb andb orb];
       rewrite includes_across by (try discriminate; reflexivity);
       now rewrite orb_false_r). }
  rewrite <- C. simpl in H.
  repeat destruct H as [<- | H]; try contradiction; reflexivity.
Qed.

(** X14. An error that the client has formatted in the context of a
    fetch (document fetch, fragment fetch, metadata fetch) and that a tool
    formats again: when the message is of no particular class - an answer
    404, say - the client words it with its context, the word "fetch" in
    that context is then taken for a network failure, and the tool reports
    a network error.  The network and timeout messages are kept as they
    are by a second formatting, while the authentication and rate-limit
    messages are wrapped in the generic message. *)
Theorem formatError_twice (errorMsg inner outer : string) :
  (includes errorMsg "401" = false -> includes errorMsg "429" = false ->
   includes errorMsg "Network" = false -> includes errorMsg "fetch" = false ->
   includes errorMsg "timeout" = false ->
   includes inner "401" = false -> includes inner "429" = false ->
   includes inner "fetch" = true ->
   formatError (formatError errorMsg inner) outer = network_error) /\
  formatError network_error outer = network_error /\
  formatError request_timeout outer = request_timeout /\
  formatError authentication_failed outer = generic_error authentication_failed outer /\
  formatError rate_limit_exceeded outer = generic_error rate_limit_exceeded outer /\
  (In inner ["document fetch"; "fragment fetch"; "metadata fetch"] ->
   includes inner "401" = false /\ includes inner "429" = false /\
   includes inner "fetch" = true).
Proof.
  split; [|split; [|split; [|split; [|split]]]]; try reflexivity.
  - intros M1 M2 M3 M4 M5 I1 I2 I3.
    rewrite (formatError_generic _ _ M1 M2 M3 M4 M5).
    unfold formatError.
    rewrite !generic_error_includes by (simpl; tauto).
    rewrite M1, M2, M3, M4, I1, I2, I3. cbn [orb].
    rewrite ?orb_false_r. now destruct (includes inner "Network").
  - simpl. intros [<- | [<- | [<- | []]]]; repeat split.
Qed.

Lemma formatError_twice_witness :
  formatError (formatError "API error: 404 Not Found" "metadata fetch") "extraction"
  = network_error.
Proof.
  apply (proj1 (formatError_twice "API error: 404 Not Found" "metadata fetch" "extraction"));
    reflexivity.
Defined.
